(** * Cloud29 discovery chat: the streaming relay of [api/chat.ts]

    The repository holds two variants of one Edge handler: [src/api/chat.ts]
    and another revision of the same file ([src/unnamed/part_000]).  Both are
    embedded here, each in a module of its own ([ChatTs], [Part000]), on top
    of a model of the parts of the JavaScript platform the handler calls:
    strings of UTF-16 code units, [JSON.parse] / [JSON.stringify], and the
    regular expressions of the FAQ shortcut. *)

From Stdlib Require Import String Ascii.
From Stdlib Require Import List NArith ZArith Bool Lia.
Import ListNotations.

Set Implicit Arguments.
Set Warnings "-register-all".

(* ===================================================================== *)
(** * JavaScript strings *)
(* ===================================================================== *)

(** A JavaScript string is a finite sequence of UTF-16 code units. *)
Definition code_unit := N.
Definition jsstring := list code_unit.

Module Utf8.

(** Code units of a code point: itself in the BMP, a surrogate pair above. *)
Definition units (cp : N) : jsstring :=
  if (cp <? 65536)%N then [cp]
  else let v := (cp - 65536)%N in
       [(55296 + v / 1024)%N; (56320 + v mod 1024)%N].

Definition cont (b : N) : N := (b mod 64)%N.

(** Decoding of the UTF-8 bytes of a source literal. *)
Fixpoint decode (bs : list N) : jsstring :=
  match bs with
  | [] => []
  | b1 :: r1 =>
    if (b1 <? 128)%N then b1 :: decode r1
    else match r1 with
    | [] => [65533%N]
    | b2 :: r2 =>
      if (b1 <? 224)%N then ((b1 mod 32) * 64 + cont b2)%N :: decode r2
      else match r2 with
      | [] => [65533%N]
      | b3 :: r3 =>
        if (b1 <? 240)%N
        then ((b1 mod 16) * 4096 + cont b2 * 64 + cont b3)%N :: decode r3
        else match r3 with
        | [] => [65533%N]
        | b4 :: r4 =>
          units ((b1 mod 8) * 262144 + cont b2 * 4096
                 + cont b3 * 64 + cont b4)%N ++ decode r4
        end
      end
    end
  end.

End Utf8.

(** [lit "..."] is the JavaScript string written by a source literal. *)
Definition lit (s : string) : jsstring :=
  Utf8.decode (map N_of_ascii (list_ascii_of_string s)).

(** In the long text constants a backquote stands for the double quote of
    the source (a template literal cannot hold a bare backquote). *)
Definition quoted (s : string) : jsstring :=
  map (fun c => if (c =? 96)%N then 34%N else c) (lit s).

Definition LF : code_unit := 10%N.
Definition QUOTE : code_unit := 34%N.

(** [a === b] on strings *)
Fixpoint str_eqb (a b : jsstring) : bool :=
  match a, b with
  | [], [] => true
  | x :: a', y :: b' => (x =? y)%N && str_eqb a' b'
  | _, _ => false
  end.

(** [s.startsWith(p)] *)
Fixpoint startsWith (p s : jsstring) : bool :=
  match p, s with
  | [], _ => true
  | _ :: _, [] => false
  | a :: p', b :: s' => (a =? b)%N && startsWith p' s'
  end.

(** [s.includes(p)] *)
Fixpoint includes (p s : jsstring) : bool :=
  startsWith p s ||
  match s with
  | [] => false
  | _ :: s' => includes p s'
  end.

(** [s.slice(n)] for [n >= 0] *)
Definition slice (n : nat) (s : jsstring) : jsstring := skipn n s.

(** WhiteSpace and LineTerminator code units: what [trim] strips and what
    [\s] matches. *)
Definition is_space (c : code_unit) : bool :=
  ((9 <=? c) && (c <=? 13) || (c =? 32) || (c =? 160) || (c =? 5760)
   || (8192 <=? c) && (c <=? 8202) || (c =? 8232) || (c =? 8233)
   || (c =? 8239) || (c =? 8287) || (c =? 12288) || (c =? 65279))%N.

Fixpoint trimStart (s : jsstring) : jsstring :=
  match s with
  | c :: s' => if is_space c then trimStart s' else s
  | [] => []
  end.

(** [s.trim()] *)
Definition trim (s : jsstring) : jsstring :=
  rev (trimStart (rev (trimStart s))).

(** The first occurrence of [sep] in [s]: the text before it and the text
    after it. *)
Fixpoint cut (sep s : jsstring) : option (jsstring * jsstring) :=
  if startsWith sep s then Some ([], skipn (length sep) s)
  else match s with
       | [] => None
       | c :: s' =>
         match cut sep s' with
         | Some (b, a) => Some (c :: b, a)
         | None => None
         end
       end.

(** The pieces of [s] between the successive occurrences of a non-empty
    [sep], found from left to right without overlap. *)
Fixpoint pieces (fuel : nat) (sep s : jsstring) : list jsstring :=
  match fuel with
  | O => [s]
  | S fuel' =>
    match cut sep s with
    | None => [s]
    | Some (b, a) => b :: pieces fuel' sep a
    end
  end.

(** [s.split(sep)]; with an empty separator, the code units of [s]. *)
Definition split (sep s : jsstring) : list jsstring :=
  match sep with
  | [] => map (fun c => [c]) s
  | _ :: _ => pieces (length s) sep s
  end.

(** [parts.join(sep)] *)
Fixpoint join (sep : jsstring) (parts : list jsstring) : jsstring :=
  match parts with
  | [] => []
  | [p] => p
  | p :: rest => p ++ sep ++ join sep rest
  end.

(** GetSubstitution for a string pattern (no captures): [$$] is a dollar,
    [$&] the match, [$`] the text before it, [$'] the text after it, and
    any other dollar stands for itself. *)
Fixpoint GetSubstitution (matched before after template : jsstring) : jsstring :=
  match template with
  | [] => []
  | c :: t =>
    if (c =? 36)%N then
      match t with
      | d :: t' =>
        if (d =? 36)%N then 36%N :: GetSubstitution matched before after t'
        else if (d =? 38)%N then matched ++ GetSubstitution matched before after t'
        else if (d =? 96)%N then before ++ GetSubstitution matched before after t'
        else if (d =? 39)%N then after ++ GetSubstitution matched before after t'
        else c :: GetSubstitution matched before after t
      | [] => [c]
      end
    else c :: GetSubstitution matched before after t
  end.

(** The loop of [replaceAll]: [done] is the text already passed, [ps] the
    pieces still to come. *)
Fixpoint weave (search repl done : jsstring) (ps : list jsstring) : jsstring :=
  match ps with
  | [] => []
  | [p] => p
  | p :: rest =>
    p ++ GetSubstitution search (done ++ p) (join search rest) repl
      ++ weave search repl (done ++ p ++ search) rest
  end.

(** [s.replaceAll(search, repl)] for string arguments and a non-empty
    [search]. *)
Definition replaceAll (search repl s : jsstring) : jsstring :=
  weave search repl [] (split search s).

(** [s.toLowerCase()].  Besides A-Z, the only code units whose lower case
    reaches ASCII are the Kelvin sign and the dotted capital I; the other
    case pairs lie outside ASCII and outside the white space, where no
    pattern of the handler tells them apart, and are kept as they are. *)
Definition lower_unit (c : code_unit) : jsstring :=
  if ((65 <=? c) && (c <=? 90))%N then [(c + 32)%N]
  else if (c =? 8490)%N then [107%N]
  else if (c =? 304)%N then [105%N; 775%N]
  else [c].

Definition toLowerCase (s : jsstring) : jsstring := flat_map lower_unit s.

(* ===================================================================== *)
(** * JavaScript numbers, as far as JSON reaches them *)
(* ===================================================================== *)

Module JSNumber.

Local Open Scope Z_scope.

(** The binary64 values a JSON text can denote: [Finite neg m e] is
    [m * 2^e] with the sign [neg], in canonical form ([m = 0] and [e = 0]
    for the zeros, [e = -1074] for the subnormals, [2^52 <= m < 2^53]
    otherwise). *)
Inductive double :=
| Finite (neg : bool) (m : Z) (e : Z)
| Infinite (neg : bool).

Definition is_zero (x : double) : bool :=
  match x with
  | Finite _ m _ => m =? 0
  | Infinite _ => false
  end.

(** [n / d] rounded to the nearest integer, ties to even. *)
Definition div_nearest_even (n d : Z) : Z :=
  let f := n / d in
  let r := n mod d in
  if 2 * r <? d then f
  else if d <? 2 * r then f + 1
  else if Z.even f then f else f + 1.

(** The double nearest to the positive rational [p / q]. *)
Definition round_ratio (neg : bool) (p q : Z) : double :=
  let k0 := Z.log2 p - Z.log2 q in
  let below :=
    if 0 <=? k0 then p <? q * 2 ^ k0 else p * 2 ^ (- k0) <? q in
  let k := if below then k0 - 1 else k0 in
  let s := Z.max (k - 52) (-1074) in
  let n :=
    if 0 <=? s then div_nearest_even p (q * 2 ^ s)
    else div_nearest_even (p * 2 ^ (- s)) q in
  if n =? 0 then Finite neg 0 0
  else if n =? 2 ^ 53 then
    (if 971 <? s + 1 then Infinite neg else Finite neg (2 ^ 52) (s + 1))
  else if 971 <? s then Infinite neg
  else Finite neg n s.

(** The double nearest to [m * 10^e10], for [m] written with at most
    [nd] digits. *)
Definition of_decimal (neg : bool) (m : Z) (nd : Z) (e10 : Z) : double :=
  if m =? 0 then Finite neg 0 0
  else if 310 <? e10 then Infinite neg
  else if nd + e10 <? -330 then Finite neg 0 0
  else if 0 <=? e10 then round_ratio neg (m * 10 ^ e10) 1
  else round_ratio neg m (10 ^ (- e10)).

Definition is_digit (c : code_unit) : bool := ((48 <=? c) && (c <=? 57))%N.

Fixpoint span_digits (s : jsstring) : jsstring * jsstring :=
  match s with
  | c :: s' =>
    if is_digit c then let (d, r) := span_digits s' in (c :: d, r)
    else ([], s)
  | [] => ([], [])
  end.

Definition digits_value (ds : jsstring) : Z :=
  fold_left (fun acc c => acc * 10 + (Z.of_N c - 48)) ds 0.

Definition len (ds : jsstring) : Z := Z.of_nat (length ds).

(** The exponent part of a number: nothing, or [e] / [E], an optional
    sign and at least one digit, up to the end of the text. *)
Definition parse_exponent (s : jsstring) : option Z :=
  match s with
  | [] => Some 0
  | c :: s1 =>
    if ((c =? 101) || (c =? 69))%N then
      let '(sign, s2) :=
        match s1 with
        | d :: s2 =>
          if (d =? 45)%N then (-1, s2)
          else if (d =? 43)%N then (1, s2) else (1, s1)
        | [] => (1, s1)
        end in
      match span_digits s2 with
      | ((_ :: _) as ds, []) => Some (sign * digits_value ds)
      | _ => None
      end
    else None
  end.

(** The JSON number grammar: an optional minus; the integer part, a
    single zero or digits not led by a zero; an optional fraction, a dot
    and one digit or more; an optional exponent. *)
Definition parse (s : jsstring) : option double :=
  let '(neg, s0) :=
    match s with
    | c :: s' => if (c =? 45)%N then (true, s') else (false, s)
    | [] => (false, s)
    end in
  let '(ip, s1) := span_digits s0 in
  let int_ok :=
    match ip with
    | [] => false
    | [_] => true
    | c :: _ :: _ => negb (c =? 48)%N
    end in
  if negb int_ok then None
  else
    let frac :=
      match s1 with
      | c :: s2 =>
        if (c =? 46)%N then
          match span_digits s2 with
          | ((_ :: _) as fp, s3) => Some (fp, s3)
          | _ => None
          end
        else Some ([], s1)
      | [] => Some ([], s1)
      end in
    match frac with
    | None => None
    | Some (fp, s3) =>
      match parse_exponent s3 with
      | None => None
      | Some ex =>
        Some (of_decimal neg (digits_value (ip ++ fp))
                (len (ip ++ fp)) (ex - len fp))
      end
    end.

(** Decimal digits of a natural number. *)
Fixpoint digits_fuel (fuel : nat) (n : Z) (acc : jsstring) : jsstring :=
  match fuel with
  | O => acc
  | S fuel' =>
    let acc' := Z.to_N (48 + n mod 10) :: acc in
    if n <? 10 then acc' else digits_fuel fuel' (n / 10) acc'
  end.

Definition digits (n : Z) : jsstring :=
  digits_fuel (S (Z.to_nat (Z.log2 n))) n [].

(** The least [n] from the given one on with [p / q < 10^n]. *)
Fixpoint exp10_above (fuel : nat) (p q n : Z) : Z :=
  match fuel with
  | O => n
  | S fuel' =>
    let below :=
      if 0 <=? n then p <? q * 10 ^ n else p * 10 ^ (- n) <? q in
    if below then n else exp10_above fuel' p q (n + 1)
  end.

(** [s * 10^x] read back as a double. *)
Definition reads_as (s x : Z) : double := of_decimal false s 20 x.

(** The shortest digit string that reads back as [m * 2^e], with its
    decimal exponent: [(s, k, n)] stands for [s * 10^(n - k)], [s] having
    [k] digits. *)
Fixpoint shortest (fuel : nat) (m e : Z) (p q n10 k : Z) : Z * Z * Z :=
  let x := n10 - k in
  let lo := if 0 <=? x then p / (q * 10 ^ x) else (p * 10 ^ (- x)) / q in
  let hi := lo + 1 in
  let target := Finite false m e in
  let ok_lo := match reads_as lo x with
               | Finite _ m' e' => (m' =? m) && (e' =? e)
               | Infinite _ => false
               end in
  let ok_hi := match reads_as hi x with
               | Finite _ m' e' => (m' =? m) && (e' =? e)
               | Infinite _ => false
               end in
  (* twice the distance of [lo] below, against that of [hi] above; of two
     digit strings at the same distance the even one is taken *)
  let side :=
    if 0 <=? x then 2 * p ?= (2 * lo + 1) * (q * 10 ^ x)
    else 2 * (p * 10 ^ (- x)) ?= (2 * lo + 1) * q in
  let lo_closer :=
    match side with
    | Lt => true
    | Eq => Z.even lo
    | Gt => false
    end in
  let pick_hi := if hi =? 10 ^ k then (10 ^ (k - 1), k, n10 + 1) else (hi, k, n10) in
  match fuel with
  | O => (lo, k, n10)
  | S fuel' =>
    if ok_lo && (lo_closer || negb ok_hi) then (lo, k, n10)
    else if ok_hi then pick_hi
    else shortest fuel' m e p q n10 (k + 1)
  end.

Fixpoint zeros (n : nat) : jsstring :=
  match n with O => [] | S n' => 48%N :: zeros n' end.

(** Number::toString of a positive finite double in radix 10. *)
Definition toString_pos (m e : Z) : jsstring :=
  let p := if 0 <=? e then m * 2 ^ e else m in
  let q := if 0 <=? e then 1 else 2 ^ (- e) in
  (* a lower estimate of the decimal exponent, from the binary one *)
  let est := (Z.log2 p - Z.log2 q - 1) * 30103 / 100000 - 1 in
  let n10 := exp10_above 8 p q est in
  let '(s, k, n) := shortest 17 m e p q n10 1 in
  let ds := digits s in
  if (k <=? n) && (n <=? 21) then ds ++ zeros (Z.to_nat (n - k))
  else if (0 <? n) && (n <=? 21) then
    firstn (Z.to_nat n) ds ++ [46%N] ++ skipn (Z.to_nat n) ds
  else if (-6 <? n) && (n <=? 0) then
    [48%N; 46%N] ++ zeros (Z.to_nat (- n)) ++ ds
  else
    let ex := n - 1 in
    let sign := if 0 <=? ex then 43%N else 45%N in
    match ds with
    | [d] => [d] ++ [101%N; sign] ++ digits (Z.abs ex)
    | d :: rest => [d; 46%N] ++ rest ++ [101%N; sign] ++ digits (Z.abs ex)
    | [] => []
    end.

(** The text [JSON.stringify] gives a number: Number::toString of a
    finite value, [null] otherwise. *)
Definition toJSON (x : double) : jsstring :=
  match x with
  | Infinite _ => lit "null"
  | Finite neg m e =>
    if m =? 0 then [48%N]
    else (if neg then [45%N] else []) ++ toString_pos m e
  end.

End JSNumber.

(* ===================================================================== *)
(** * JSON values, [JSON.parse] and [JSON.stringify] *)
(* ===================================================================== *)

(** The values [JSON.parse] builds.  An object keeps its properties in
    creation order, each key once. *)
Inductive jsvalue :=
| JNull
| JBool (b : bool)
| JNumber (x : JSNumber.double)
| JString (s : jsstring)
| JArray (xs : list jsvalue)
| JObject (props : list (jsstring * jsvalue)).

(** A JavaScript value that may be [undefined]. *)
Abbreviation undefined := (@None jsvalue).

Module JSON.

Inductive token :=
| TLBrace | TRBrace | TLBracket | TRBracket | TColon | TComma
| TString (s : jsstring)
| TNumber (x : JSNumber.double)
| TTrue | TFalse | TNull.

(** Where the scanner stands: between tokens, inside a string (the text
    read so far is kept reversed), after a backslash, inside the four
    digits of a [\u] escape, or inside a number or a literal name. *)
Inductive mode :=
| Between
| InString (acc : jsstring)
| InEscape (acc : jsstring)
| InHex (acc : jsstring) (v : N) (more : nat)
| InWord (acc : jsstring).

Definition is_ws (c : code_unit) : bool :=
  ((c =? 9) || (c =? 10) || (c =? 13) || (c =? 32))%N.

Definition punct (c : code_unit) : option token :=
  if (c =? 123)%N then Some TLBrace
  else if (c =? 125)%N then Some TRBrace
  else if (c =? 91)%N then Some TLBracket
  else if (c =? 93)%N then Some TRBracket
  else if (c =? 58)%N then Some TColon
  else if (c =? 44)%N then Some TComma
  else None.

(** Code units of numbers and literal names: digits, letters, sign, dot. *)
Definition is_word (c : code_unit) : bool :=
  (JSNumber.is_digit c || (97 <=? c) && (c <=? 122) || (65 <=? c) && (c <=? 90)
   || (c =? 43) || (c =? 45) || (c =? 46))%N.

Definition word_token (w : jsstring) : option token :=
  if str_eqb w (lit "true") then Some TTrue
  else if str_eqb w (lit "false") then Some TFalse
  else if str_eqb w (lit "null") then Some TNull
  else option_map TNumber (JSNumber.parse w).

Definition escape (c : code_unit) : option code_unit :=
  if (c =? 34)%N then Some 34%N
  else if (c =? 92)%N then Some 92%N
  else if (c =? 47)%N then Some 47%N
  else if (c =? 98)%N then Some 8%N
  else if (c =? 102)%N then Some 12%N
  else if (c =? 110)%N then Some 10%N
  else if (c =? 114)%N then Some 13%N
  else if (c =? 116)%N then Some 9%N
  else None.

Definition hex (c : code_unit) : option N :=
  if JSNumber.is_digit c then Some (c - 48)%N
  else if ((97 <=? c) && (c <=? 102))%N then Some (c - 87)%N
  else if ((65 <=? c) && (c <=? 70))%N then Some (c - 55)%N
  else None.

Definition emit (t : token) (rest : option (list token)) : option (list token) :=
  option_map (cons t) rest.

(** One code unit read between tokens; [k] scans what follows. *)
Definition between (c : code_unit) (k : mode -> option (list token))
  : option (list token) :=
  if is_ws c then k Between
  else if (c =? 34)%N then k (InString [])
  else match punct c with
       | Some t => emit t (k Between)
       | None => if is_word c then k (InWord [c]) else None
       end.

Fixpoint scan (m : mode) (s : jsstring) : option (list token) :=
  match s with
  | [] =>
    match m with
    | Between => Some []
    | InWord acc => option_map (fun t => [t]) (word_token (rev acc))
    | _ => None
    end
  | c :: s' =>
    let k := fun m' => scan m' s' in
    match m with
    | Between => between c k
    | InWord acc =>
      if is_word c then k (InWord (c :: acc))
      else match word_token (rev acc) with
           | Some t => emit t (between c k)
           | None => None
           end
    | InString acc =>
      if (c =? 34)%N then emit (TString (rev acc)) (k Between)
      else if (c =? 92)%N then k (InEscape acc)
      else if (c <? 32)%N then None
      else k (InString (c :: acc))
    | InEscape acc =>
      match escape c with
      | Some u => k (InString (u :: acc))
      | None => if (c =? 117)%N then k (InHex acc 0%N 4) else None
      end
    | InHex acc v more =>
      match hex c, more with
      | Some d, 1 => k (InString ((v * 16 + d)%N :: acc))
      | Some d, S more' => k (InHex acc (v * 16 + d)%N more')
      | _, _ => None
      end
    end
  end.

(** CreateDataProperty on the property list: a key met again keeps its
    place and takes the new value. *)
Fixpoint define (props : list (jsstring * jsvalue)) (k : jsstring) (v : jsvalue)
  : list (jsstring * jsvalue) :=
  match props with
  | [] => [(k, v)]
  | (k', v') :: r =>
    if str_eqb k' k then (k, v) :: r else (k', v') :: define r k v
  end.

(** An open container: an array with its elements so far (reversed), or an
    object with its properties so far and the key whose value is awaited. *)
Inductive frame :=
| FArray (done : list jsvalue)
| FObject (props : list (jsstring * jsvalue)) (key : jsstring).

Inductive state :=
| SValue (st : list frame)
| SArrayFirst (st : list frame)
| SArrayNext (done : list jsvalue) (st : list frame)
| SObjectFirst (st : list frame)
| SObjectKey (props : list (jsstring * jsvalue)) (st : list frame)
| SObjectColon (props : list (jsstring * jsvalue)) (key : jsstring) (st : list frame)
| SObjectNext (props : list (jsstring * jsvalue)) (st : list frame)
| SDone (v : jsvalue).

(** A value is complete: it is the result, or goes into the innermost
    open container. *)
Definition complete (v : jsvalue) (st : list frame) : state :=
  match st with
  | [] => SDone v
  | FArray done :: st' => SArrayNext (v :: done) st'
  | FObject props key :: st' => SObjectNext (define props key v) st'
  end.

(** A token where a value is expected. *)
Definition value (t : token) (st : list frame) : option state :=
  match t with
  | TString s => Some (complete (JString s) st)
  | TNumber x => Some (complete (JNumber x) st)
  | TTrue => Some (complete (JBool true) st)
  | TFalse => Some (complete (JBool false) st)
  | TNull => Some (complete JNull st)
  | TLBracket => Some (SArrayFirst st)
  | TLBrace => Some (SObjectFirst st)
  | _ => None
  end.

Definition step (s : state) (t : token) : option state :=
  match s, t with
  | SValue st, _ => value t st
  | SArrayFirst st, TRBracket => Some (complete (JArray []) st)
  | SArrayFirst st, _ => value t (FArray [] :: st)
  | SArrayNext done st, TComma => Some (SValue (FArray done :: st))
  | SArrayNext done st, TRBracket => Some (complete (JArray (rev done)) st)
  | SObjectFirst st, TRBrace => Some (complete (JObject []) st)
  | SObjectFirst st, TString k => Some (SObjectColon [] k st)
  | SObjectKey props st, TString k => Some (SObjectColon props k st)
  | SObjectColon props k st, TColon => Some (SValue (FObject props k :: st))
  | SObjectNext props st, TComma => Some (SObjectKey props st)
  | SObjectNext props st, TRBrace => Some (complete (JObject props) st)
  | _, _ => None
  end.

Fixpoint run (s : state) (ts : list token) : option state :=
  match ts with
  | [] => Some s
  | t :: ts' =>
    match step s t with
    | Some s' => run s' ts'
    | None => None
    end
  end.

(** [JSON.parse(text)]: [None] where it throws a SyntaxError. *)
Definition parse (text : jsstring) : option jsvalue :=
  match scan Between text with
  | None => None
  | Some ts =>
    match run (SValue []) ts with
    | Some (SDone v) => Some v
    | _ => None
    end
  end.

(** ** Serialisation *)

Definition hex_digit (d : N) : code_unit :=
  if (d <? 10)%N then (48 + d)%N else (87 + d)%N.

Definition unicode_escape (c : code_unit) : jsstring :=
  [92; 117; hex_digit (c / 4096); hex_digit (c / 256 mod 16);
   hex_digit (c / 16 mod 16); hex_digit (c mod 16)]%N.

Definition is_high (c : code_unit) : bool := ((55296 <=? c) && (c <=? 56319))%N.
Definition is_low (c : code_unit) : bool := ((56320 <=? c) && (c <=? 57343))%N.

(** The body of QuoteJSONString. *)
Fixpoint quote_units (s : jsstring) : jsstring :=
  match s with
  | [] => []
  | c :: s' =>
    if (c =? 34)%N then [92; 34]%N ++ quote_units s'
    else if (c =? 92)%N then [92; 92]%N ++ quote_units s'
    else if (c =? 8)%N then [92; 98]%N ++ quote_units s'
    else if (c =? 9)%N then [92; 116]%N ++ quote_units s'
    else if (c =? 10)%N then [92; 110]%N ++ quote_units s'
    else if (c =? 12)%N then [92; 102]%N ++ quote_units s'
    else if (c =? 13)%N then [92; 114]%N ++ quote_units s'
    else if (c <? 32)%N then unicode_escape c ++ quote_units s'
    else if is_high c then
      match s' with
      | d :: s'' =>
        if is_low d then c :: d :: quote_units s''
        else unicode_escape c ++ quote_units s'
      | [] => unicode_escape c
      end
    else if is_low c then unicode_escape c ++ quote_units s'
    else c :: quote_units s'
  end.

Definition quote (s : jsstring) : jsstring :=
  [QUOTE] ++ quote_units s ++ [QUOTE].

(** A key that is an array index: the canonical decimal text of an
    integer below [2^32 - 1]. *)
Definition index_of_key (k : jsstring) : option N :=
  match k with
  | [] => None
  | c :: r =>
    if forallb JSNumber.is_digit k && (negb (c =? 48)%N || match r with [] => true | _ => false end)
    then let n := Z.to_N (JSNumber.digits_value k) in
         if (n <? 4294967295)%N then Some n else None
    else None
  end.

Section Keys.
Context {A : Type}.

Fixpoint insert_index (n : N) (p : jsstring * A)
  (l : list (N * (jsstring * A))) : list (N * (jsstring * A)) :=
  match l with
  | [] => [(n, p)]
  | (m, q) :: r =>
    if (n <? m)%N then (n, p) :: l else (m, q) :: insert_index n p r
  end.

(** The index keys of [props], in ascending order. *)
Fixpoint index_props (props : list (jsstring * A))
  : list (N * (jsstring * A)) :=
  match props with
  | [] => []
  | (k, v) :: r =>
    match index_of_key k with
    | Some n => insert_index n (k, v) (index_props r)
    | None => index_props r
    end
  end.

Definition is_named (p : jsstring * A) : bool :=
  match index_of_key (fst p) with Some _ => false | None => true end.

(** OrdinaryOwnPropertyKeys: index keys in ascending order, then the
    others in creation order. *)
Definition own_props (props : list (jsstring * A)) : list (jsstring * A) :=
  map snd (index_props props) ++ filter is_named props.
End Keys.

Definition member (p : jsstring * jsstring) : jsstring :=
  quote (fst p) ++ [58%N] ++ snd p.

(** [JSON.stringify(v)] *)
Fixpoint stringify (v : jsvalue) : jsstring :=
  match v with
  | JNull => lit "null"
  | JBool true => lit "true"
  | JBool false => lit "false"
  | JNumber x => JSNumber.toJSON x
  | JString s => quote s
  | JArray xs => [91%N] ++ join [44%N] (map stringify xs) ++ [93%N]
  | JObject props =>
    [123%N]
    ++ join [44%N]
         (map member
            (own_props (map (fun p => match p with
                                      | (k, x) => (k, stringify x)
                                      end) props)))
    ++ [125%N]
  end.

End JSON.

(** [v?.key] for a property name that is neither inherited nor [length]:
    an own property of an object, an element of an array, a code unit of a
    string; [undefined] on [null], [undefined] and the other primitives. *)
Definition get (v : option jsvalue) (key : jsstring) : option jsvalue :=
  match v with
  | Some (JObject props) =>
    match find (fun p => str_eqb (fst p) key) props with
    | Some (_, x) => Some x
    | None => undefined
    end
  | Some (JArray xs) =>
    match JSON.index_of_key key with
    | Some i => nth_error xs (N.to_nat i)
    | None => undefined
    end
  | Some (JString s) =>
    match JSON.index_of_key key with
    | Some i => option_map (fun c => JString [c]) (nth_error s (N.to_nat i))
    | None => undefined
    end
  | _ => undefined
  end.

(** [a ?? b] *)
Definition nullish (a b : option jsvalue) : option jsvalue :=
  match a with
  | None | Some JNull => b
  | Some _ => a
  end.

(** ToBoolean *)
Definition truthy (v : option jsvalue) : bool :=
  match v with
  | None | Some JNull | Some (JBool false) | Some (JString []) => false
  | Some (JNumber x) => negb (JSNumber.is_zero x)
  | Some _ => true
  end.

(* ===================================================================== *)
(** * Regular expressions *)
(* ===================================================================== *)

Module RegExp.

(** The patterns of the handler: characters (compared without case, as
    under the [i] flag), [\s], the dot, sequence, alternative and star.
    [Never] matches nothing; it only arises in derivatives. *)
Inductive regex :=
| Never
| Empty
| Char (c : code_unit)
| Space
| Dot
| Seq (r1 r2 : regex)
| Alt (r1 r2 : regex)
| Star (r : regex).

Definition plus (r : regex) : regex := Seq r (Star r).

Fixpoint chars (s : jsstring) : regex :=
  match s with
  | [] => Empty
  | [c] => Char c
  | c :: s' => Seq (Char c) (chars s')
  end.

(** The text of a pattern without operators. *)
Definition word (s : string) : regex := chars (lit s).

Fixpoint alternatives (rs : list regex) : regex :=
  match rs with
  | [] => Never
  | [r] => r
  | r :: rs' => Alt r (alternatives rs')
  end.

(** Canonicalize, for ASCII pattern characters: no code unit outside
    ASCII is canonicalized into ASCII. *)
Definition canonicalize (c : code_unit) : code_unit :=
  if ((97 <=? c) && (c <=? 122))%N then (c - 32)%N else c.

Definition is_line_terminator (c : code_unit) : bool :=
  ((c =? 10) || (c =? 13) || (c =? 8232) || (c =? 8233))%N.

Fixpoint nullable (r : regex) : bool :=
  match r with
  | Never | Char _ | Space | Dot => false
  | Empty | Star _ => true
  | Seq r1 r2 => nullable r1 && nullable r2
  | Alt r1 r2 => nullable r1 || nullable r2
  end.

Definition seq (r1 r2 : regex) : regex :=
  match r1, r2 with
  | Never, _ | _, Never => Never
  | Empty, _ => r2
  | _, _ => Seq r1 r2
  end.

Definition alt (r1 r2 : regex) : regex :=
  match r1, r2 with
  | Never, _ => r2
  | _, Never => r1
  | _, _ => Alt r1 r2
  end.

(** What remains of [r] to match after the code unit [c]. *)
Fixpoint deriv (c : code_unit) (r : regex) : regex :=
  match r with
  | Never | Empty => Never
  | Char d => if (canonicalize c =? canonicalize d)%N then Empty else Never
  | Space => if is_space c then Empty else Never
  | Dot => if is_line_terminator c then Never else Empty
  | Seq r1 r2 =>
    if nullable r1 then alt (seq (deriv c r1) r2) (deriv c r2)
    else seq (deriv c r1) r2
  | Alt r1 r2 => alt (deriv c r1) (deriv c r2)
  | Star r1 => seq (deriv c r1) (Star r1)
  end.

(** Does [r] match at the start of [s]? *)
Fixpoint matches_at_start (r : regex) (s : jsstring) : bool :=
  nullable r ||
  match s with
  | [] => false
  | c :: s' => matches_at_start (deriv c r) s'
  end.

(** [/r/i.test(s)]: a match starting at some index of [s]. *)
Fixpoint test (r : regex) (s : jsstring) : bool :=
  matches_at_start r s ||
  match s with
  | [] => false
  | _ :: s' => test r s'
  end.

End RegExp.

(* ===================================================================== *)
(** * The surroundings of the handler *)
(* ===================================================================== *)

(** The inbound request: its method and the text of its body. *)
Record Request := { req_method : jsstring; req_body : jsstring }.

(** The [day] option of the date format. *)
Inductive day_style := TwoDigit | Numeric.

(** What the handler reads from its platform: the credential of the
    process environment, and the text
    [Intl.DateTimeFormat("en-GB", {timeZone: "Europe/London", day, month:
    "long", year: "numeric"})] gives for the instant seven days from now. *)
Record Env := {
  OPENAI_API_KEY : option jsstring;
  format_plus7 : day_style -> jsstring
}.

Inductive Body :=
| Text (t : jsstring)
| EventStream (frames : list jsstring).

Record Response := {
  status : nat;
  headers : list (jsstring * jsstring);
  body : Body
}.

(** The request to the completion API. *)
Record FetchRequest := {
  url : jsstring;
  fetch_method : jsstring;
  fetch_headers : list (jsstring * jsstring);
  fetch_body : jsstring
}.

(** The answer of the completion API: its [ok] flag, the decoded chunks of
    its body up to the end of the stream when it has a body, and what
    [text()] resolves to ([None] where it rejects). *)
Record Upstream := {
  ok : bool;
  chunks : option (list jsstring);
  text : option jsstring
}.

(** The handler resolves to a response or rejects. *)
Inductive outcome :=
| Respond (r : Response)
| Throw.

(** A run of the handler: it finishes on its own, or calls [fetch] once and
    goes on from the result ([None] where [fetch] rejects). *)
Inductive action :=
| Finish (o : outcome)
| Fetch (r : FetchRequest) (k : option Upstream -> outcome).

(** The number of calls to the completion API in a run. *)
Definition fetches (a : action) : nat :=
  match a with
  | Finish _ => 0
  | Fetch _ _ => 1
  end.

(** The run against a given completion API. *)
Definition perform (api : FetchRequest -> option Upstream) (a : action) : outcome :=
  match a with
  | Finish o => o
  | Fetch r k => k (api r)
  end.

Definition dateToken : jsstring := lit "[DATE_PLUS_7]".
Definition DONE : jsstring := lit "[DONE]".

(* ===================================================================== *)
(** * [src/api/chat.ts] *)
(* ===================================================================== *)

Module ChatTs.

Definition SYSTEM_PROMPT : jsstring := quoted "
You are the Cloud29 Discovery AI Assistant.

Your job: run a short, simple discovery chat that feels like a friendly conversation. Keep sentences short, everyday words only (grade 3–4 reading level). Avoid jargon. UK English.

Start as soon as the user types anything.
Greet them:
`Hi, thanks for speaking to the Cloud29 AI Assistant 👋. This will take about 2 minutes. To begin, please share:
1) Your first name
2) Your company name
3) Your contact email`

After they answer those three, ask:
`Great, thanks. Next, what industry are you in?`

Question ladder (one at a time):
1) Industry — `What industry are you in?`
2) Current tools — `What software or tools do you use day to day? If none, do you use spreadsheets or do things by hand?`
   - When they list a tool:
     - Assume it is a software brand/system.
     - Use web search to find the official website only.
     - Do not explain features/marketing. Do not return multiple URLs.
     - Confirm: `I think I found the software you mean. Is this the correct system: [official URL]?`
     - Repeat for each system mentioned. If you cannot find it, ask for the correct website.
3) Problems — `Thinking about those tools, how can we improve your process? For example, are you spending time chasing clients, re-typing data, or manually handling invoices? Please tell me the issues you face day to day.`
4) Digging into processes — If they mention invoices, quotes, proposals, reminders, or documents:
   - Acknowledge.
   - Ask: `How do you currently handle [X] in [tool]? Do you create them inside the system, export them, or track them manually?`
   - Suggest 1–2 plain improvements. Ask a check-back question (`Would that help?` / `Would that save time?`).

Behaviour:
- Acknowledge every answer.
- Ask one question at a time.
- Keep suggestions to 1–2 items at a time.
- Never repeat the same question.
- Use web search only to confirm official software sites or obvious factual checks.
- If they ask `How would you do that?`: say
  `That’s exactly where our Cloud29 AI software comes in. We can connect with [the system you mentioned] and handle it automatically in the background. That means no more manual matching, re-typing, or chasing. One of our AI specialists will show you this live on a demo call once we’ve designed your project.`

FAQ (answer these directly anytime, then resume discovery):
- How long will it take?
  `It depends on your project. On average, it takes 7–10 days to build your demo. Once you approve the demo, it takes around 4–5 weeks to create your live application.`
- How much will it cost?
  `I can’t give precise figures yet because it depends on your project. We’ll discuss exact costs on your demo call with our implementation team. There are two costs:
   • Installation (to install and design everything) — starting at £499
   • License fee (to use the software) — starting at £199/month`

Looping & gating:
- Do not produce the Discovery Summary until the customer clearly says there are no more issues.
  Use checks like:
  `Apart from that, are there any other issues with [tool]?`
  `You also mentioned [other tool] — any problems there too?`
  Proceed to summary only when they say `no` / `that’s everything`.

Closing (only after explicit `no more issues`):
1) Thank them:
   `Thanks, I’ve got a clear picture now. Based on what you’ve told me, here’s a short summary. We’ll use this to prepare your demo.`
2) Show the Discovery Summary:

Discovery Summary

Contact
- First name: [first name]
- Company: [company name]
- Email: [email]

Industry
- [industry details]

Current Tools
- [list of software / spreadsheets / manual steps]

Main Problems
- 1) [short plain sentence]
- 2) [short plain sentence]
- 3) [short plain sentence]

Potential Improvements (Cloud29 AI)
- [improvement 1 in plain words]
- [improvement 2 in plain words]

3) Booking prompt with a dynamic date 7 days from now (Europe/London). IMPORTANT:
   Use the exact token [DATE_PLUS_7] instead of a date. The server will replace it.
   Say:
   `Please click the button below to book your demo call. Make sure to choose a time at least 7 days from today (so from [DATE_PLUS_7] onwards). That gives us enough time to build your tailored demo. On that call, you’ll see your system working and can decide if you’d like to implement it in your business.`
Do not add any text after this. End the conversation.
".

Definition sseHeaders : list (jsstring * jsstring) :=
  [ (lit "Content-Type", lit "text/event-stream; charset=utf-8");
    (lit "Cache-Control", lit "no-cache, no-transform");
    (lit "Connection", lit "keep-alive") ].

(** [fmt.replace(/^0/, ...)] with the empty string: a leading zero is
    dropped. *)
Definition strip_leading_zero (fmt : jsstring) : jsstring :=
  match fmt with
  | c :: r => if (c =? 48)%N then r else fmt
  | [] => []
  end.

Definition computeDatePlus7London (env : Env) : jsstring :=
  strip_leading_zero (format_plus7 env TwoDigit).

(** A string goes out as it is, any other value through
    [JSON.stringify]. *)
Definition sseLine (data : jsvalue) : jsstring :=
  lit "data: "
  ++ match data with
     | JString s => s
     | _ => JSON.stringify data
     end
  ++ [LF; LF].

(** The object [{ delta: t }]. *)
Definition delta_event (t : jsstring) : jsvalue :=
  JObject [(lit "delta", JString t)].

Definition faqTime : RegExp.regex :=
  RegExp.alternatives
    [ RegExp.Seq (RegExp.word "how") (RegExp.Seq (RegExp.plus RegExp.Space) (RegExp.word "long"));
      RegExp.Seq (RegExp.word "time") (RegExp.Seq (RegExp.Star RegExp.Space) (RegExp.word "line"));
      RegExp.Seq (RegExp.word "how")
        (RegExp.Seq (RegExp.plus RegExp.Space)
           (RegExp.Seq (RegExp.word "much")
              (RegExp.Seq (RegExp.plus RegExp.Space) (RegExp.word "time"))));
      RegExp.Seq (RegExp.word "when") (RegExp.Seq (RegExp.Star RegExp.Dot) (RegExp.word "ready")) ].

Definition faqCost : RegExp.regex :=
  RegExp.alternatives
    [ RegExp.Seq (RegExp.word "how") (RegExp.Seq (RegExp.plus RegExp.Space) (RegExp.word "much"));
      RegExp.word "price";
      RegExp.word "pricing";
      RegExp.word "cost";
      RegExp.word "costs";
      RegExp.Seq (RegExp.word "license") (RegExp.Seq (RegExp.Star RegExp.Space) (RegExp.word "fee"));
      RegExp.Seq (RegExp.word "installation") (RegExp.Seq (RegExp.Star RegExp.Space) (RegExp.word "cost")) ].

Definition timeAnswer : jsstring :=
  lit "It depends on your project. On average, it takes 7–10 days to build your demo. Once you approve the demo, it takes around 4–5 weeks to create your live application.".

Definition costAnswer : jsstring :=
  lit "I can’t give precise figures yet because it depends on your project. We’ll discuss exact costs on your demo call with our implementation team. There are two costs:"
  ++ [LF] ++ lit "• Installation (to install and design everything) — starting at £499"
  ++ [LF] ++ lit "• License fee (to use the software) — starting at £199/month".

(** The canned answer, if the text matches a pattern. *)
Definition faq (last : jsstring) : option jsstring :=
  let faqTime := RegExp.test faqTime last in
  let faqCost := RegExp.test faqCost last in
  if faqTime || faqCost
  then Some (if faqTime then timeAnswer else costAnswer)
  else None.

(** [json?.choices?.[0]?.delta?.content ?? json?.delta] *)
Definition delta_of (json : jsvalue) : option jsvalue :=
  nullish
    (get (get (get (get (Some json) (lit "choices")) (lit "0")) (lit "delta"))
       (lit "content"))
    (get (Some json) (lit "delta")).

Definition patched (dateValue d : jsstring) : jsstring :=
  if includes dateToken d
        then join dateValue (split dateToken d)
        else d.

(** The body of the loop over the complete lines; [written] is what the
    writer has been given so far. *)
Definition on_line (dateValue : jsstring) (written : list jsstring)
  (line : jsstring) : list jsstring :=
  if negb (startsWith (lit "data:") line) then written
  else
    let data := trim (slice 5 line) in
    if str_eqb data DONE then written ++ [sseLine (JString DONE)]
    else
      match JSON.parse data with
      | None => written
      | Some json =>
        match delta_of json with
        | Some (JString ((_ :: _) as d)) =>
          written ++ [sseLine (delta_event (patched dateValue d))]
        | _ =>
          (* Forward any other shape unchanged *)
        written ++ [sseLine json]
        end
      end.

Record relay_state := { buffer : jsstring; written : list jsstring }.

(** One turn of the read loop, for a chunk that was read. *)
Definition on_chunk (dateValue : jsstring) (st : relay_state)
  (value : jsstring) : relay_state :=
  let buffer := buffer st ++ value in
  let lines := split [LF] buffer in
  {| buffer := last lines [];
     written := fold_left (on_line dateValue) (removelast lines) (written st) |}.

(** What is left in the buffer when the upstream ends. *)
Definition flush (dateValue : jsstring) (st : relay_state) : list jsstring :=
  match buffer st with
  | [] => written st
  | _ :: _ =>
    match JSON.parse (buffer st) with
    | None => written st
    | Some json =>
      match delta_of json with
      | Some (JString ((_ :: _) as d)) =>
        written st ++ [sseLine (delta_event (patched dateValue d))]
      | _ => written st
      end
    end
  end.

(** The frames written for an upstream body read to its end. *)
Definition relay (dateValue : jsstring) (upstream : list jsstring)
  : list jsstring :=
  let st :=
    fold_left (on_chunk dateValue) upstream {| buffer := []; written := [] |} in
  flush dateValue st ++ [sseLine (JString DONE)].

(** The content of [messages[messages.length - 1]], or the empty string
    where it is falsy, in lower case; [None] where the call of
    [toLowerCase] throws a TypeError. *)
Definition last_content (messages : list jsvalue) : option jsstring :=
  let content := get (last (map Some messages) undefined) (lit "content") in
  if truthy content then
    match content with
    | Some (JString s) => Some (toLowerCase s)
    | _ => None
    end
  else Some (toLowerCase []).

(** [Array.isArray(body?.messages) ? body.messages : []] *)
Definition messages_of (body : jsvalue) : list jsvalue :=
  match get (Some body) (lit "messages") with
  | Some (JArray ms) => ms
  | _ => []
  end.

(** [body?.model || "gpt-4o-mini"] *)
Definition model_of (body : jsvalue) : jsvalue :=
  match get (Some body) (lit "model") with
  | Some m => if truthy (Some m) then m else JString (lit "gpt-4o-mini")
  | None => JString (lit "gpt-4o-mini")
  end.

(** The body of the request, an empty object where [req.json()] throws. *)
Definition body_of (req : Request) : jsvalue :=
  match JSON.parse (req_body req) with
  | Some b => b
  | None => JObject []
  end.

Definition system_turn : jsvalue :=
  JObject [(lit "role", JString (lit "system"));
           (lit "content", JString SYSTEM_PROMPT)].

Definition payload (model : jsvalue) (messages : list jsvalue) : jsvalue :=
  JObject [(lit "model", model);
           (lit "stream", JBool true);
           (lit "messages", JArray (system_turn :: messages))].

Definition plain (code : nat) (t : jsstring) : Response :=
  {| status := code; headers := []; body := Text t |}.

Definition stream (frames : list jsstring) : Response :=
  {| status := 200; headers := sseHeaders; body := EventStream frames |}.

Definition handler (env : Env) (req : Request) : action :=
  if negb (str_eqb (req_method req) (lit "POST"))
  then Finish (Respond (plain 405 (lit "Only POST")))
  else
    match OPENAI_API_KEY env with
    | None | Some [] => Finish (Respond (plain 500 (lit "Missing OPENAI_API_KEY")))
    | Some apiKey =>
      let body := body_of req in
      let messages := messages_of body in
      let model := model_of body in
      match last_content messages with
      | None => Finish Throw
      | Some last =>
        match faq last with
        | Some text =>
          Finish (Respond (stream [sseLine (delta_event text);
                                   sseLine (JString DONE)]))
        | None =>
          Fetch
            {| url := lit "https://api.openai.com/v1/chat/completions";
               fetch_method := lit "POST";
               fetch_headers :=
                 [ (lit "Authorization", lit "Bearer " ++ apiKey);
                   (lit "Content-Type", lit "application/json") ];
               fetch_body := JSON.stringify (payload model messages) |}
            (fun upstream =>
               match upstream with
               | None => Throw
               | Some upstream =>
                 match ok upstream, chunks upstream with
                 | true, Some body =>
                   Respond (stream (relay (computeDatePlus7London env) body))
                 | _, _ =>
                   Respond (plain 502
                              (match text upstream with
                               | Some txt => txt
                               | None => lit "Upstream error"
                               end))
                 end
               end)
        end
      end
    end.

End ChatTs.

(* ===================================================================== *)
(** * [src/unnamed/part_000] *)
(* ===================================================================== *)

Module Part000.

Definition SYSTEM_PROMPT : jsstring := quoted "
You are the Cloud29 Discovery AI Assistant.

Core rules:
- Friendly, UK English, grade 3–4 reading level.
- Greet, collect first name/company/email, then industry → tools → problems.
- One question at a time. Acknowledge each answer.
- Use clickable markdown links [https://url](https://url) when confirming software.
- Confirmation wording: `I found this official website: [URL]. Please confirm if this is the correct system, as it’s important we note the right CRM/software you use.`
- Never repeat the same question exactly. Rotate phrasings for `any other issues` (e.g. `Anything else to note?`, `Any other challenges with [tool]?`, `Apart from that, is there more?`).
- If asked `how will I see what’s going on?` → answer:
  `You’ll get a secure Cloud29 login. Inside, you can see everything we’ve built for you — live and in one place. That means no chasing or guessing; you’ll be able to view your automations and data any time.`
- FAQ answers:
  - How long: `On average, it takes 7–10 days to build your demo. Once you approve it, it takes 4–5 weeks to create your live application.`
  - How much: `There are two costs: Installation — starting at £499. License fee — starting at £199/month. Exact figures depend on your project and are explained in the demo.`
- Do not produce the Discovery Summary until the user clearly says there are no more issues.
- When closing, always use the token [DATE_PLUS_7] (the server replaces this with the real UK date).
".

Definition sseHeaders : list (jsstring * jsstring) :=
  [ (lit "Content-Type", lit "text/event-stream; charset=utf-8");
    (lit "Cache-Control", lit "no-cache, no-transform");
    (lit "Connection", lit "keep-alive") ].

Definition computeDatePlus7London (env : Env) : jsstring :=
  format_plus7 env Numeric.

(** A string goes out as it is, any other value through
    [JSON.stringify]. *)
Definition sseLine (data : jsvalue) : jsstring :=
  lit "data: "
  ++ match data with
     | JString s => s
     | _ => JSON.stringify data
     end
  ++ [LF; LF].

(** The object [{ delta: t }]. *)
Definition delta_event (t : jsstring) : jsvalue :=
  JObject [(lit "delta", JString t)].

Definition faqTime : RegExp.regex :=
  RegExp.alternatives
    [ RegExp.Seq (RegExp.word "how") (RegExp.Seq (RegExp.plus RegExp.Space) (RegExp.word "long"));
      RegExp.word "timeline";
      RegExp.Seq (RegExp.word "how")
        (RegExp.Seq (RegExp.plus RegExp.Space)
           (RegExp.Seq (RegExp.word "much")
              (RegExp.Seq (RegExp.plus RegExp.Space) (RegExp.word "time"))));
      RegExp.Seq (RegExp.word "when") (RegExp.Seq (RegExp.Star RegExp.Dot) (RegExp.word "ready")) ].

Definition faqCost : RegExp.regex :=
  RegExp.alternatives
    [ RegExp.Seq (RegExp.word "how") (RegExp.Seq (RegExp.plus RegExp.Space) (RegExp.word "much"));
      RegExp.word "price";
      RegExp.word "pricing";
      RegExp.word "cost";
      RegExp.word "license";
      RegExp.word "installation" ].

Definition faqVisibility : RegExp.regex :=
  RegExp.alternatives
    [ RegExp.Seq (RegExp.word "how") (RegExp.Seq (RegExp.Star RegExp.Dot) (RegExp.word "see"));
      RegExp.Seq (RegExp.word "how") (RegExp.Seq (RegExp.Star RegExp.Dot) (RegExp.word "going"));
      RegExp.Seq (RegExp.word "how") (RegExp.Seq (RegExp.Star RegExp.Dot) (RegExp.word "track"));
      RegExp.Seq (RegExp.word "how") (RegExp.Seq (RegExp.Star RegExp.Dot) (RegExp.word "watch")) ].

Definition timeAnswer : jsstring :=
  lit "On average, it takes 7–10 days to build your demo. Once you approve it, it takes 4–5 weeks to create your live application.".

Definition costAnswer : jsstring :=
  lit "There are two costs: Installation — starting at £499. License fee — starting at £199/month. Exact figures depend on your project and are explained in the demo.".

Definition visibilityAnswer : jsstring :=
  lit "You’ll get a secure Cloud29 login. Inside, you can see everything we’ve built for you — live and in one place. That means no chasing or guessing; you’ll be able to view your automations and data any time.".

(** The canned answer, if the text matches a pattern. *)
Definition faq (last : jsstring) : option jsstring :=
  let faqTime := RegExp.test faqTime last in
  let faqCost := RegExp.test faqCost last in
  let faqVisibility := RegExp.test faqVisibility last in
  if faqTime || faqCost || faqVisibility
  then Some (if faqTime then timeAnswer
             else if faqCost then costAnswer
             else visibilityAnswer)
  else None.

(** [json?.choices?.[0]?.delta?.content ?? json?.delta] *)
Definition delta_of (json : jsvalue) : option jsvalue :=
  nullish
    (get (get (get (get (Some json) (lit "choices")) (lit "0")) (lit "delta"))
       (lit "content"))
    (get (Some json) (lit "delta")).

Definition patched (dateValue d : jsstring) : jsstring :=
  if includes dateToken d
        then replaceAll dateToken dateValue d
        else d.

(** The body of the loop over the complete lines; [written] is what the
    writer has been given so far. *)
Definition on_line (dateValue : jsstring) (written : list jsstring)
  (line : jsstring) : list jsstring :=
  if negb (startsWith (lit "data:") line) then written
  else
    let data := trim (slice 5 line) in
    if str_eqb data DONE then written ++ [sseLine (JString DONE)]
    else
      match JSON.parse data with
      | None => written
      | Some json =>
        match delta_of json with
        | Some (JString ((_ :: _) as d)) =>
          written ++ [sseLine (delta_event (patched dateValue d))]
        | _ =>
          written
        end
      end.

Record relay_state := { buffer : jsstring; written : list jsstring }.

(** One turn of the read loop, for a chunk that was read. *)
Definition on_chunk (dateValue : jsstring) (st : relay_state)
  (value : jsstring) : relay_state :=
  let buffer := buffer st ++ value in
  let lines := split [LF] buffer in
  {| buffer := last lines [];
     written := fold_left (on_line dateValue) (removelast lines) (written st) |}.

(** What is left in the buffer when the upstream ends. *)
Definition flush (dateValue : jsstring) (st : relay_state) : list jsstring :=
  match buffer st with
  | [] => written st
  | _ :: _ =>
    match JSON.parse (buffer st) with
    | None => written st
    | Some json =>
      match delta_of json with
      | Some (JString ((_ :: _) as d)) =>
        written st ++ [sseLine (delta_event (patched dateValue d))]
      | _ => written st
      end
    end
  end.

(** The frames written for an upstream body read to its end. *)
Definition relay (dateValue : jsstring) (upstream : list jsstring)
  : list jsstring :=
  let st :=
    fold_left (on_chunk dateValue) upstream {| buffer := []; written := [] |} in
  flush dateValue st ++ [sseLine (JString DONE)].

(** The content of [messages[messages.length - 1]], or the empty string
    where it is falsy, in lower case; [None] where the call of
    [toLowerCase] throws a TypeError. *)
Definition last_content (messages : list jsvalue) : option jsstring :=
  let content := get (last (map Some messages) undefined) (lit "content") in
  if truthy content then
    match content with
    | Some (JString s) => Some (toLowerCase s)
    | _ => None
    end
  else Some (toLowerCase []).

(** [Array.isArray(body?.messages) ? body.messages : []] *)
Definition messages_of (body : jsvalue) : list jsvalue :=
  match get (Some body) (lit "messages") with
  | Some (JArray ms) => ms
  | _ => []
  end.

(** [body?.model || "gpt-4o-mini"] *)
Definition model_of (body : jsvalue) : jsvalue :=
  match get (Some body) (lit "model") with
  | Some m => if truthy (Some m) then m else JString (lit "gpt-4o-mini")
  | None => JString (lit "gpt-4o-mini")
  end.

(** The body of the request, an empty object where [req.json()] throws. *)
Definition body_of (req : Request) : jsvalue :=
  match JSON.parse (req_body req) with
  | Some b => b
  | None => JObject []
  end.

Definition system_turn : jsvalue :=
  JObject [(lit "role", JString (lit "system"));
           (lit "content", JString SYSTEM_PROMPT)].

Definition payload (model : jsvalue) (messages : list jsvalue) : jsvalue :=
  JObject [(lit "model", model);
           (lit "stream", JBool true);
           (lit "messages", JArray (system_turn :: messages))].

Definition plain (code : nat) (t : jsstring) : Response :=
  {| status := code; headers := []; body := Text t |}.

Definition stream (frames : list jsstring) : Response :=
  {| status := 200; headers := sseHeaders; body := EventStream frames |}.

Definition handler (env : Env) (req : Request) : action :=
  if negb (str_eqb (req_method req) (lit "POST"))
  then Finish (Respond (plain 405 (lit "Only POST")))
  else
    match OPENAI_API_KEY env with
    | None | Some [] => Finish (Respond (plain 500 (lit "Missing OPENAI_API_KEY")))
    | Some apiKey =>
      let body := body_of req in
      let messages := messages_of body in
      let model := model_of body in
      match last_content messages with
      | None => Finish Throw
      | Some last =>
        match faq last with
        | Some text =>
          Finish (Respond (stream [sseLine (delta_event text);
                                   sseLine (JString DONE)]))
        | None =>
          Fetch
            {| url := lit "https://api.openai.com/v1/chat/completions";
               fetch_method := lit "POST";
               fetch_headers :=
                 [ (lit "Authorization", lit "Bearer " ++ apiKey);
                   (lit "Content-Type", lit "application/json") ];
               fetch_body := JSON.stringify (payload model messages) |}
            (fun upstream =>
               match upstream with
               | None => Throw
               | Some upstream =>
                 match ok upstream, chunks upstream with
                 | true, Some body =>
                   Respond (stream (relay (computeDatePlus7London env) body))
                 | _, _ =>
                   Respond (plain 502
                              (match text upstream with
                               | Some txt => txt
                               | None => lit "Upstream error"
                               end))
                 end
               end)
        end
      end
    end.

End Part000.

(* ===================================================================== *)
(** * Vocabulary of the statements *)
(* ===================================================================== *)

(** The lines of a text: what [text.split("\n")] returns, by recursion on
    the text. *)
Fixpoint lines (s : jsstring) : list jsstring :=
  match s with
  | [] => [[]]
  | c :: s' =>
    if (c =? LF)%N then [] :: lines s'
    else match lines s' with
         | l :: ls => (c :: l) :: ls
         | [] => [[c]]
         end
  end.

(** The lines of an upstream body that a newline ended, and the text left
    after the last newline. *)
Definition complete_lines (body : jsstring) : list jsstring :=
  removelast (lines body).

Definition residual (body : jsstring) : jsstring :=
  last (lines body) [].

(** The terminal sentinel frame. *)
Definition sentinel : jsstring := lit "data: [DONE]" ++ [LF; LF].

Definition count_sentinel (frames : list jsstring) : nat :=
  length (filter (str_eqb sentinel) frames).

(** The payload of a [data:] line. *)
Definition data_of (line : jsstring) : jsstring := trim (slice 5 line).

(** What the loop body makes of a line: nothing, the terminal marker, an
    event with a non-empty string delta, or any other JSON value. *)
Inductive line_kind :=
| Ignored
| Marker
| Delta (d : jsstring)
| Other (json : jsvalue).

(** The non-empty string delta a JSON event carries, if any. *)
Definition string_delta (json : jsvalue) : option jsstring :=
  match ChatTs.delta_of json with
  | Some (JString ((_ :: _) as d)) => Some d
  | _ => None
  end.

Definition classify (line : jsstring) : line_kind :=
  if negb (startsWith (lit "data:") line) then Ignored
  else if str_eqb (data_of line) DONE then Marker
  else match JSON.parse (data_of line) with
       | None => Ignored
       | Some json =>
         match string_delta json with
         | Some d => Delta d
         | None => Other json
         end
       end.

(** A line that is the terminal marker. *)
Definition is_marker (line : jsstring) : bool :=
  match classify line with Marker => true | _ => false end.

(** A [data:] line whose payload is a JSON event with a non-empty string
    delta. *)
Definition carries_delta (line : jsstring) : bool :=
  match classify line with Delta _ => true | _ => false end.

(** A [data:] line, not the marker, whose payload parses as JSON but carries
    no non-empty string delta. *)
Definition other_shape (line : jsstring) : bool :=
  match classify line with Other _ => true | _ => false end.

(** A [data:] line whose payload is the JSON string ["[DONE]"]. *)
Definition quoted_marker (line : jsstring) : bool :=
  match classify line with
  | Other (JString s) => str_eqb s DONE
  | _ => false
  end.

(** The delta found in the text left in the buffer at the end of the
    stream, if any. *)
Definition drain_delta (buffer : jsstring) : option jsstring :=
  match buffer with
  | [] => None
  | _ :: _ =>
    match JSON.parse buffer with
    | Some json => string_delta json
    | None => None
    end
  end.

(** A text in which the date token does not occur. *)
Definition token_free (s : jsstring) : Prop := includes dateToken s = false.

(** A replacement text without a dollar sign, as every rendering of a date
    is: [replaceAll] reads a dollar in its second argument as a pattern. *)
Definition no_dollar (s : jsstring) : Prop := Forall (fun c => c <> 36%N) s.

(** A frame sequence with exactly one sentinel, in the last place. *)
Definition exactly_one_sentinel (frames : list jsstring) : Prop :=
  count_sentinel frames = 1 /\ last frames [] = sentinel.

(** A line that is neither the terminal marker nor an event with a
    non-empty string delta. *)
Definition unrecognised (line : jsstring) : Prop :=
  is_marker line = false /\ carries_delta line = false.

(** A platform and requests for the examples. *)
Definition example_env : Env :=
  {| OPENAI_API_KEY := Some (lit "sk-example");
     format_plus7 := fun style =>
       match style with
       | TwoDigit => lit "08 November 2026"
       | Numeric => lit "8 November 2026"
       end |}.

Definition post (body : jsstring) : Request :=
  {| req_method := lit "POST"; req_body := body |}.

(** The run of the shortcut responder with the answer [text]. *)
Definition chat_shortcut (text : jsstring) : action :=
  Finish (Respond (ChatTs.stream [ChatTs.sseLine (ChatTs.delta_event text);
                                  ChatTs.sseLine (JString DONE)])).

Definition part_shortcut (text : jsstring) : action :=
  Finish (Respond (Part000.stream [Part000.sseLine (Part000.delta_event text);
                                   Part000.sseLine (JString DONE)])).

(** A request that gets past the method and credential checks. *)
Definition admitted (env : Env) (req : Request) : Prop :=
  req_method req = lit "POST" /\
  exists apiKey, OPENAI_API_KEY env = Some apiKey /\ apiKey <> [].

(** Words that match a pattern of the shortcut responder as they stand. *)
Definition chat_keywords : list jsstring :=
  [lit "how long"; lit "timeline"; lit "time line"; lit "how much";
   lit "price"; lit "pricing"; lit "cost"; lit "license fee";
   lit "installation cost"].

Definition part_keywords : list jsstring :=
  [lit "how long"; lit "timeline"; lit "how much"; lit "price";
   lit "pricing"; lit "cost"; lit "license"; lit "installation";
   lit "how do i see"; lit "how is it going"; lit "how can i track";
   lit "how to watch"].

(** A frame that is one event of one line: [data: ], a payload in which
    no code unit is below 32 (so neither a line feed nor a carriage return,
    the line ends of an event stream; DEL and the code units from 128 on
    are not excluded), and an empty line. *)
Definition single_line_frame (frame : jsstring) : Prop :=
  exists payload,
    frame = lit "data: " ++ payload ++ [LF; LF] /\
    Forall (fun c => (32 <= c)%N) payload.

(** The two places where an upstream event may hold its text:
    [choices[0].delta.content] and [delta]. *)
Definition nested_place (json : jsvalue) : option jsvalue :=
  get (get (get (get (Some json) (lit "choices")) (lit "0")) (lit "delta"))
    (lit "content").

Definition flat_place (json : jsvalue) : option jsvalue :=
  get (Some json) (lit "delta").

(** An event that carries the text [d]: in the nested place, or in the flat
    one when the nested one is absent or [null]. *)
Definition event_carries (json : jsvalue) (d : jsstring) : Prop :=
  nested_place json = Some (JString d) \/
  ((nested_place json = None \/ nested_place json = Some JNull) /\
   flat_place json = Some (JString d)).

(** The frame of a delta event with the text [t], written out:
    [data: {"delta":t}] and an empty line. *)
Definition delta_frame (t : jsstring) : jsstring :=
  lit "data: " ++ JSON.stringify (JObject [(lit "delta", JString t)])
  ++ [LF; LF].

(** The model a request body asks for: its [model] when that is truthy,
    [gpt-4o-mini] otherwise. *)
Definition chosen_model (body model : jsvalue) : Prop :=
  (get (Some body) (lit "model") = Some model /\ truthy (Some model) = true) \/
  (truthy (get (Some body) (lit "model")) = false /\
   model = JString (lit "gpt-4o-mini")).

(** The request to the completion API, with the credential [apiKey], for
    the model [model] and the message list [messages]. *)
Definition completion_request (apiKey : jsstring) (model : jsvalue)
  (messages : list jsvalue) : FetchRequest :=
  {| url := lit "https://api.openai.com/v1/chat/completions";
     fetch_method := lit "POST";
     fetch_headers :=
       [ (lit "Authorization", lit "Bearer " ++ apiKey);
         (lit "Content-Type", lit "application/json") ];
     fetch_body :=
       JSON.stringify
         (JObject [(lit "model", model);
                   (lit "stream", JBool true);
                   (lit "messages", JArray messages)]) |}.

(** The system turn, with the prompt of each file. *)
Definition system_message (prompt : jsstring) : jsvalue :=
  JObject [(lit "role", JString (lit "system"));
           (lit "content", JString prompt)].

(** A code unit that is neither an opening bracket nor a capital D. *)
Definition plain_unit (c : code_unit) : Prop := c <> 91%N /\ c <> 68%N.

(* ===================================================================== *)
(** * Strings *)
(* ===================================================================== *)

Lemma str_eqb_eq (a b : jsstring) : str_eqb a b = true <-> a = b.
Proof.
  revert b; induction a as [|x a IH]; intros [|y b]; simpl; split;
    try discriminate; try reflexivity.
  - intros H. apply andb_true_iff in H as [H1 H2].
    apply N.eqb_eq in H1. apply IH in H2. congruence.
  - intros H. injection H as -> ->. rewrite N.eqb_refl. simpl. now apply IH.
Qed.

Lemma str_eqb_refl (a : jsstring) : str_eqb a a = true.
Proof. now apply str_eqb_eq. Qed.

Lemma str_eqb_neq (a b : jsstring) : str_eqb a b = false <-> a <> b.
Proof.
  split.
  - intros H E. apply str_eqb_eq in E. congruence.
  - intros H. destruct (str_eqb a b) eqn:E; [|reflexivity].
    apply str_eqb_eq in E. contradiction.
Qed.

Lemma startsWith_app (p s : jsstring) : startsWith p (p ++ s) = true.
Proof. induction p as [|a p IH]; simpl; [reflexivity|]. now rewrite N.eqb_refl. Qed.

Lemma startsWith_inv (p s : jsstring) :
  startsWith p s = true -> s = p ++ skipn (length p) s.
Proof.
  revert s; induction p as [|a p IH]; intros s H; simpl in *; [reflexivity|].
  destruct s as [|b s]; [discriminate|].
  apply andb_true_iff in H as [H1 H2]. apply N.eqb_eq in H1. subst b.
  simpl. f_equal. now apply IH.
Qed.

Lemma startsWith_extend (p s t : jsstring) :
  startsWith p s = true -> startsWith p (s ++ t) = true.
Proof.
  revert s; induction p as [|a p IH]; intros s H; simpl in *; [reflexivity|].
  destruct s as [|b s]; [discriminate|]. simpl.
  apply andb_true_iff in H as [H1 H2]. rewrite H1. simpl. now apply IH.
Qed.

Lemma includes_false_cons (p : jsstring) (c : code_unit) (s : jsstring) :
  includes p (c :: s) = false -> includes p s = false.
Proof. simpl. intros H. apply orb_false_iff in H. tauto. Qed.

(** ** The first occurrence of a separator *)

Lemma cut_Some (sep s b a : jsstring) :
  cut sep s = Some (b, a) -> s = b ++ sep ++ a.
Proof.
  revert b; induction s as [|c s IH]; intros b H.
  - simpl in H. destruct (startsWith sep []) eqn:E; [|discriminate].
    injection H as <- <-. now apply startsWith_inv in E.
  - simpl in H. destruct (startsWith sep (c :: s)) eqn:E.
    + injection H as <- <-. now apply startsWith_inv in E.
    + destruct (cut sep s) as [[b' a']|]; [|discriminate].
      injection H as <- <-. simpl. f_equal. now apply IH.
Qed.

Lemma cut_None (sep s : jsstring) :
  cut sep s = None <-> includes sep s = false.
Proof.
  induction s as [|c s IH]; simpl.
  - destruct (startsWith sep []); simpl; split; congruence.
  - destruct (startsWith sep (c :: s)); simpl; [split; congruence|].
    destruct (cut sep s) as [[b a]|].
    + split; [discriminate|]. intros H. apply IH in H. discriminate.
    + split; [|reflexivity]. intros _. now apply IH.
Qed.

Lemma cut_before_free (sep s b a : jsstring) :
  cut sep s = Some (b, a) -> sep <> [] -> includes sep b = false.
Proof.
  intros H Hsep. revert b H; induction s as [|c s IH]; intros b H.
  - simpl in H. destruct sep; [contradiction|discriminate].
  - simpl in H. destruct (startsWith sep (c :: s)) eqn:E.
    + injection H as <- <-. destruct sep; [contradiction|reflexivity].
    + destruct (cut sep s) as [[b' a']|] eqn:C; [|discriminate].
      injection H as <- <-. change (includes sep (c :: b'))
        with (startsWith sep (c :: b') || includes sep b').
      rewrite (IH b' eq_refl), orb_false_r.
      destruct (startsWith sep (c :: b')) eqn:E'; [|reflexivity].
      apply cut_Some in C. subst s.
      apply (startsWith_extend _ _ (sep ++ a')) in E'.
      simpl in E'. simpl in E. congruence.
Qed.

Lemma cut_shorter (sep s b a : jsstring) :
  cut sep s = Some (b, a) -> sep <> [] -> length a < length s.
Proof.
  intros H Hsep. apply cut_Some in H. subst s.
  rewrite !length_app. destruct sep; [contradiction|]. simpl. lia.
Qed.

(** ** Pieces and their reassembly *)

Lemma join_cons (sep p : jsstring) (q : jsstring) (rest : list jsstring) :
  join sep (p :: q :: rest) = p ++ sep ++ join sep (q :: rest).
Proof. reflexivity. Qed.

Lemma pieces_nonempty (n : nat) (sep s : jsstring) : pieces n sep s <> [].
Proof.
  destruct n; simpl; [discriminate|].
  destruct (cut sep s) as [[b a]|]; discriminate.
Qed.

Lemma join_pieces (n : nat) (sep s : jsstring) : join sep (pieces n sep s) = s.
Proof.
  revert s; induction n as [|n IH]; intros s; simpl; [reflexivity|].
  destruct (cut sep s) as [[b a]|] eqn:C; [|reflexivity].
  apply cut_Some in C. subst s.
  specialize (IH a). destruct (pieces n sep a) as [|q rest] eqn:P.
  - now apply pieces_nonempty in P.
  - rewrite join_cons, IH. reflexivity.
Qed.

Lemma pieces_free (n : nat) (sep s : jsstring) :
  sep <> [] -> length s <= n ->
  Forall (fun p => includes sep p = false) (pieces n sep s).
Proof.
  intros Hsep. revert s; induction n as [|n IH]; intros s Hn; simpl.
  - destruct s; [|simpl in Hn; lia]. constructor; [|constructor].
    destruct sep; [contradiction|reflexivity].
  - destruct (cut sep s) as [[b a]|] eqn:C.
    + constructor; [now apply (cut_before_free _ C)|].
      apply IH. pose proof (cut_shorter _ C Hsep). lia.
    + constructor; [|constructor]. now apply cut_None.
Qed.

Lemma join_split (sep s : jsstring) : sep <> [] -> join sep (split sep s) = s.
Proof.
  intros H. unfold split. destruct sep; [contradiction|]. apply join_pieces.
Qed.

Lemma split_free (sep s : jsstring) :
  sep <> [] -> Forall (fun p => includes sep p = false) (split sep s).
Proof.
  intros H. unfold split. destruct sep; [contradiction|].
  apply pieces_free; [discriminate|lia].
Qed.

Lemma split_absent (sep s : jsstring) :
  sep <> [] -> includes sep s = false -> split sep s = [s].
Proof.
  intros H Hs. unfold split. destruct sep; [contradiction|].
  destruct s; simpl; [reflexivity|].
  apply cut_None in Hs. simpl in Hs. now rewrite Hs.
Qed.

(** ** Lines *)

Lemma lines_nonempty (s : jsstring) : lines s <> [].
Proof.
  destruct s as [|c s]; simpl; [discriminate|].
  destruct (c =? LF)%N; [discriminate|]. destruct (lines s); discriminate.
Qed.

Lemma cut_LF_cons (c : code_unit) (s : jsstring) :
  cut [LF] (c :: s) =
  if (c =? LF)%N then Some ([], s)
  else match cut [LF] s with
       | Some (b, a) => Some (c :: b, a)
       | None => None
       end.
Proof.
  change (cut [LF] (c :: s)) with
    (if (LF =? c)%N && true then Some (@nil code_unit, s)
     else match cut [LF] s with
          | Some (b, a) => Some (c :: b, a)
          | None => None
          end).
  now rewrite andb_true_r, N.eqb_sym.
Qed.

Lemma cut_LF_None (s : jsstring) : cut [LF] s = None -> lines s = [s].
Proof.
  induction s as [|c s IH]; [reflexivity|].
  rewrite cut_LF_cons. simpl.
  destruct (c =? LF)%N; [discriminate|].
  destruct (cut [LF] s) as [[b a]|]; [discriminate|].
  intros _. now rewrite IH.
Qed.

Lemma cut_LF_Some (s b a : jsstring) :
  cut [LF] s = Some (b, a) -> lines s = b :: lines a.
Proof.
  revert b; induction s as [|c s IH]; intros b; [discriminate|].
  rewrite cut_LF_cons. simpl.
  destruct (c =? LF)%N.
  - intros H. injection H as <- <-. reflexivity.
  - destruct (cut [LF] s) as [[b' a']|]; [|discriminate].
    intros H. injection H as <- <-. now rewrite (IH b' eq_refl).
Qed.

Lemma pieces_lines (n : nat) (s : jsstring) :
  length s <= n -> pieces n [LF] s = lines s.
Proof.
  revert s; induction n as [|n IH]; intros s Hn; simpl.
  - destruct s; [reflexivity|simpl in Hn; lia].
  - destruct (cut [LF] s) as [[b a]|] eqn:C.
    + rewrite (cut_LF_Some _ C). f_equal. apply IH.
      assert (length a < length s) by (apply (cut_shorter _ C); discriminate).
      lia.
    + now rewrite (cut_LF_None _ C).
Qed.

(** [split("\n")] gives the lines. *)
Lemma split_lines (s : jsstring) : split [LF] s = lines s.
Proof. unfold split. apply pieces_lines. lia. Qed.

Lemma last_cons_nonempty (A : Type) (x : A) (l : list A) (d : A) :
  l <> [] -> last (x :: l) d = last l d.
Proof. destruct l; [contradiction|reflexivity]. Qed.

Lemma removelast_cons_nonempty (A : Type) (x : A) (l : list A) :
  l <> [] -> removelast (x :: l) = x :: removelast l.
Proof. destruct l; [contradiction|reflexivity]. Qed.

Lemma lines_cons_other (c : code_unit) (s : jsstring) :
  (c =? LF)%N = false ->
  exists l ls, lines s = l :: ls /\ lines (c :: s) = (c :: l) :: ls.
Proof.
  intros H. simpl. rewrite H.
  destruct (lines s) as [|l ls] eqn:E; [now apply lines_nonempty in E|].
  now exists l, ls.
Qed.

(** Reading more text only touches the last, unfinished line. *)
Lemma lines_app (s t : jsstring) :
  lines (s ++ t) = complete_lines s ++ lines (residual s ++ t).
Proof.
  unfold complete_lines, residual.
  induction s as [|c s IH]; [reflexivity|].
  destruct (c =? LF)%N eqn:E.
  - simpl. rewrite E. rewrite IH.
    destruct (lines s) as [|l ls] eqn:L; [now apply lines_nonempty in L|].
    reflexivity.
  - destruct (lines_cons_other c s E) as (l & ls & L1 & L2).
    destruct (lines_cons_other c (s ++ t) E) as (l' & ls' & L1' & L2').
    change ((c :: s) ++ t) with (c :: s ++ t). rewrite L2', L2.
    rewrite L1 in IH. rewrite IH in L1'.
    destruct ls as [|l2 ls].
    + cbn [removelast last app] in *.
      destruct (lines_cons_other c (l ++ t) E) as (m & ms & M1 & M2).
      rewrite M2. rewrite M1 in L1'. now injection L1' as <- <-.
    + cbn [removelast last app] in *. injection L1' as <- <-. reflexivity.
Qed.

Lemma last_app_nonempty (A : Type) (l l' : list A) (d : A) :
  l' <> [] -> last (l ++ l') d = last l' d.
Proof.
  intros H. induction l as [|x l IH]; [reflexivity|].
  change ((x :: l) ++ l') with (x :: (l ++ l')).
  rewrite last_cons_nonempty; [exact IH|].
  destruct l; [exact H|discriminate].
Qed.

Lemma residual_app (s t : jsstring) : residual (s ++ t) = residual (residual s ++ t).
Proof.
  unfold residual at 1 2. rewrite lines_app.
  apply last_app_nonempty. apply lines_nonempty.
Qed.

Lemma complete_lines_app (s t : jsstring) :
  complete_lines (s ++ t) = complete_lines s ++ complete_lines (residual s ++ t).
Proof.
  unfold complete_lines at 1 3. rewrite lines_app.
  apply removelast_app. apply lines_nonempty.
Qed.

Lemma lines_no_LF (s : jsstring) : ~ In LF s -> lines s = [s].
Proof.
  induction s as [|c s IH]; intros H; [reflexivity|].
  simpl. destruct (N.eqb_spec c LF) as [->|_].
  - exfalso. apply H. now left.
  - rewrite IH; [reflexivity|]. intros H'. apply H. now right.
Qed.

Lemma lines_line (l t : jsstring) :
  ~ In LF l -> lines (l ++ LF :: t) = l :: lines t.
Proof.
  induction l as [|c l IH]; intros H; [reflexivity|].
  simpl. destruct (N.eqb_spec c LF) as [->|_].
  - exfalso. apply H. now left.
  - rewrite IH; [reflexivity|]. intros H'. apply H. now right.
Qed.

(** A text ends at a line boundary when nothing follows its last newline. *)
Lemma residual_boundary (pre t : jsstring) :
  residual pre = [] -> residual (pre ++ t) = residual t.
Proof. intros H. rewrite residual_app, H. reflexivity. Qed.

Lemma complete_lines_boundary (pre t : jsstring) :
  residual pre = [] ->
  complete_lines (pre ++ t) = complete_lines pre ++ complete_lines t.
Proof. intros H. rewrite complete_lines_app, H. reflexivity. Qed.

Lemma complete_lines_line (l t : jsstring) :
  ~ In LF l -> complete_lines (l ++ LF :: t) = l :: complete_lines t.
Proof.
  intros H. unfold complete_lines. rewrite lines_line by assumption.
  apply removelast_cons_nonempty, lines_nonempty.
Qed.

Lemma residual_line (l t : jsstring) :
  ~ In LF l -> residual (l ++ LF :: t) = residual t.
Proof.
  intros H. unfold residual. rewrite lines_line by assumption.
  apply last_cons_nonempty, lines_nonempty.
Qed.

Lemma residual_no_LF (s : jsstring) : ~ In LF s -> residual s = s.
Proof. intros H. unfold residual. now rewrite lines_no_LF. Qed.

Lemma complete_lines_no_LF (s : jsstring) : ~ In LF s -> complete_lines s = [].
Proof. intros H. unfold complete_lines. now rewrite lines_no_LF. Qed.

(* ===================================================================== *)
(** * The shape of a relay run *)
(* ===================================================================== *)

(** Case analysis on the tests of a handler body, outermost first. *)
Ltac branch :=
  match goal with
  | |- context [if ?b then _ else _] => destruct b eqn:?
  | |- context [match ?x with _ => _ end] => destruct x eqn:?
  end.

Ltac branches := cbv zeta; repeat branch.

Lemma sentinel_chat : ChatTs.sseLine (JString DONE) = sentinel.
Proof. reflexivity. Qed.

Lemma sentinel_part : Part000.sseLine (JString DONE) = sentinel.
Proof. reflexivity. Qed.

(** Both files read the delta of an event with the same expression, and
    frame their events alike. *)
Lemma delta_of_same : Part000.delta_of = ChatTs.delta_of.
Proof. reflexivity. Qed.

Lemma sseLine_same : Part000.sseLine = ChatTs.sseLine.
Proof. reflexivity. Qed.

(** ** [src/api/chat.ts] *)

Lemma chat_on_line_app (dv : jsstring) (w : list jsstring) (line : jsstring) :
  ChatTs.on_line dv w line = w ++ ChatTs.on_line dv [] line.
Proof.
  unfold ChatTs.on_line. branches; rewrite ?app_nil_r; reflexivity.
Qed.

Lemma chat_fold_lines (dv : jsstring) (ls : list jsstring) (w : list jsstring) :
  fold_left (ChatTs.on_line dv) ls w = w ++ flat_map (ChatTs.on_line dv []) ls.
Proof.
  revert w; induction ls as [|l ls IH]; intros w; simpl.
  - now rewrite app_nil_r.
  - rewrite IH, chat_on_line_app, app_assoc. reflexivity.
Qed.

Lemma chat_flush_app (dv : jsstring) (b : jsstring) (w : list jsstring) :
  ChatTs.flush dv {| ChatTs.buffer := b; ChatTs.written := w |} =
  w ++ ChatTs.flush dv {| ChatTs.buffer := b; ChatTs.written := [] |}.
Proof.
  unfold ChatTs.flush. cbn [ChatTs.buffer ChatTs.written].
  branches; rewrite ?app_nil_r; reflexivity.
Qed.

Lemma chat_loop (dv : jsstring) (cs : list jsstring) :
  fold_left (ChatTs.on_chunk dv) cs
    {| ChatTs.buffer := []; ChatTs.written := [] |} =
  {| ChatTs.buffer := residual (concat cs);
     ChatTs.written :=
       flat_map (ChatTs.on_line dv []) (complete_lines (concat cs)) |}.
Proof.
  induction cs as [|c cs IH] using rev_ind; [reflexivity|].
  rewrite fold_left_app, IH. cbn [fold_left]. unfold ChatTs.on_chunk.
  cbn [ChatTs.buffer ChatTs.written].
  rewrite split_lines, chat_fold_lines, concat_app. cbn [concat app].
  rewrite app_nil_r.
  rewrite (residual_app (concat cs) c), (complete_lines_app (concat cs) c).
  rewrite flat_map_app. reflexivity.
Qed.

(** The frames of a run: those of each complete line in turn, those of the
    text left in the buffer, and the closing sentinel. *)
Lemma chat_relay_frames (dv : jsstring) (cs : list jsstring) :
  ChatTs.relay dv cs =
  flat_map (ChatTs.on_line dv []) (complete_lines (concat cs))
  ++ ChatTs.flush dv {| ChatTs.buffer := residual (concat cs);
                        ChatTs.written := [] |}
  ++ [sentinel].
Proof.
  unfold ChatTs.relay. rewrite chat_loop, chat_flush_app, sentinel_chat.
  now rewrite app_assoc.
Qed.

(** ** [src/unnamed/part_000] *)

Lemma part_on_line_app (dv : jsstring) (w : list jsstring) (line : jsstring) :
  Part000.on_line dv w line = w ++ Part000.on_line dv [] line.
Proof.
  unfold Part000.on_line. branches; rewrite ?app_nil_r; reflexivity.
Qed.

Lemma part_fold_lines (dv : jsstring) (ls : list jsstring) (w : list jsstring) :
  fold_left (Part000.on_line dv) ls w = w ++ flat_map (Part000.on_line dv []) ls.
Proof.
  revert w; induction ls as [|l ls IH]; intros w; simpl.
  - now rewrite app_nil_r.
  - rewrite IH, part_on_line_app, app_assoc. reflexivity.
Qed.

Lemma part_flush_app (dv : jsstring) (b : jsstring) (w : list jsstring) :
  Part000.flush dv {| Part000.buffer := b; Part000.written := w |} =
  w ++ Part000.flush dv {| Part000.buffer := b; Part000.written := [] |}.
Proof.
  unfold Part000.flush. cbn [Part000.buffer Part000.written].
  branches; rewrite ?app_nil_r; reflexivity.
Qed.

Lemma part_loop (dv : jsstring) (cs : list jsstring) :
  fold_left (Part000.on_chunk dv) cs
    {| Part000.buffer := []; Part000.written := [] |} =
  {| Part000.buffer := residual (concat cs);
     Part000.written :=
       flat_map (Part000.on_line dv []) (complete_lines (concat cs)) |}.
Proof.
  induction cs as [|c cs IH] using rev_ind; [reflexivity|].
  rewrite fold_left_app, IH. cbn [fold_left]. unfold Part000.on_chunk.
  cbn [Part000.buffer Part000.written].
  rewrite split_lines, part_fold_lines, concat_app. cbn [concat app].
  rewrite app_nil_r.
  rewrite (residual_app (concat cs) c), (complete_lines_app (concat cs) c).
  rewrite flat_map_app. reflexivity.
Qed.

Lemma part_relay_frames (dv : jsstring) (cs : list jsstring) :
  Part000.relay dv cs =
  flat_map (Part000.on_line dv []) (complete_lines (concat cs))
  ++ Part000.flush dv {| Part000.buffer := residual (concat cs);
                         Part000.written := [] |}
  ++ [sentinel].
Proof.
  unfold Part000.relay. rewrite part_loop, part_flush_app, sentinel_part.
  now rewrite app_assoc.
Qed.

(** ** The frames of a line, by its kind *)

Lemma chat_line_frames (dv : jsstring) (line : jsstring) :
  ChatTs.on_line dv [] line =
  match classify line with
  | Ignored => []
  | Marker => [sentinel]
  | Delta d => [ChatTs.sseLine (ChatTs.delta_event (ChatTs.patched dv d))]
  | Other json => [ChatTs.sseLine json]
  end.
Proof.
  unfold ChatTs.on_line, classify, string_delta, data_of.
  branches; try reflexivity; congruence.
Qed.

Lemma part_line_frames (dv : jsstring) (line : jsstring) :
  Part000.on_line dv [] line =
  match classify line with
  | Ignored => []
  | Marker => [sentinel]
  | Delta d => [Part000.sseLine (Part000.delta_event (Part000.patched dv d))]
  | Other json => []
  end.
Proof.
  unfold Part000.on_line, classify, string_delta, data_of.
  rewrite delta_of_same.
  branches; try reflexivity; congruence.
Qed.

Lemma chat_flush_frames (dv : jsstring) (r : jsstring) :
  ChatTs.flush dv {| ChatTs.buffer := r; ChatTs.written := [] |} =
  match drain_delta r with
  | Some d => [ChatTs.sseLine (ChatTs.delta_event (ChatTs.patched dv d))]
  | None => []
  end.
Proof.
  unfold ChatTs.flush, drain_delta, string_delta.
  cbn [ChatTs.buffer ChatTs.written].
  branches; try reflexivity; congruence.
Qed.

Lemma part_flush_frames (dv : jsstring) (r : jsstring) :
  Part000.flush dv {| Part000.buffer := r; Part000.written := [] |} =
  match drain_delta r with
  | Some d => [Part000.sseLine (Part000.delta_event (Part000.patched dv d))]
  | None => []
  end.
Proof.
  unfold Part000.flush, drain_delta, string_delta.
  rewrite delta_of_same.
  cbn [Part000.buffer Part000.written].
  branches; try reflexivity; congruence.
Qed.

(* ===================================================================== *)
(** * The date token *)
(* ===================================================================== *)

Lemma dateToken_units :
  dateToken = [91; 68; 65; 84; 69; 95; 80; 76; 85; 83; 95; 55; 93]%N.
Proof. reflexivity. Qed.

Lemma dateToken_nonempty : dateToken <> [].
Proof. rewrite dateToken_units. discriminate. Qed.

(** The token does not overlap itself: an occurrence that starts before
    another one ends before it starts. *)
Lemma dateToken_no_overlap (q rest : jsstring) :
  q <> [] ->
  startsWith dateToken (q ++ dateToken ++ rest) = true ->
  startsWith dateToken q = true.
Proof.
  rewrite dateToken_units. intros Hq H.
  destruct q as [|c0 q]; [contradiction|].
  do 12 (destruct q as [|? q];
         [ exfalso; cbn [app startsWith] in H;
           repeat (apply andb_true_iff in H; destruct H as [?E H]);
           repeat match goal with
                  | E : (_ =? _)%N = true |- _ => apply N.eqb_eq in E
                  end;
           congruence | ]).
  cbn [app startsWith] in *. exact H.
Qed.

Lemma cut_unfold (sep s : jsstring) :
  cut sep s =
  if startsWith sep s then Some ([], skipn (length sep) s)
  else match s with
       | [] => None
       | c :: s' =>
         match cut sep s' with
         | Some (b, a) => Some (c :: b, a)
         | None => None
         end
       end.
Proof. destruct s; reflexivity. Qed.

Lemma skipn_app_exact (A : Type) (l r : list A) : skipn (length l) (l ++ r) = r.
Proof. induction l; simpl; auto. Qed.

(** The first token of a text that begins with a token-free part is the
    one that follows this part. *)
Lemma cut_token (p rest : jsstring) :
  token_free p -> cut dateToken (p ++ dateToken ++ rest) = Some (p, rest).
Proof.
  unfold token_free. induction p as [|c p IH]; intros Hp.
  - rewrite cut_unfold. cbn [app]. rewrite startsWith_app.
    now rewrite skipn_app_exact.
  - rewrite cut_unfold.
    destruct (startsWith dateToken ((c :: p) ++ dateToken ++ rest)) eqn:E.
    + apply dateToken_no_overlap in E; [|discriminate].
      change (includes dateToken (c :: p))
        with (startsWith dateToken (c :: p) || includes dateToken p) in Hp.
      rewrite E in Hp. discriminate.
    + cbn [app]. rewrite IH; [reflexivity|].
      now apply includes_false_cons in Hp.
Qed.

Lemma length_join_cons (sep p : jsstring) (q : jsstring) (rest : list jsstring) :
  length (join sep (p :: q :: rest)) =
  length p + length sep + length (join sep (q :: rest)).
Proof. rewrite join_cons, !length_app. lia. Qed.

Lemma pieces_join (parts : list jsstring) (n : nat) :
  parts <> [] -> Forall token_free parts ->
  length (join dateToken parts) <= n ->
  pieces n dateToken (join dateToken parts) = parts.
Proof.
  revert n; induction parts as [|p parts IH]; intros n Hne Hfree Hn;
    [contradiction|].
  inversion Hfree as [|? ? Hp Hrest]; subst.
  destruct parts as [|q rest].
  - cbn [join] in *. destruct n; [reflexivity|]. cbn [pieces].
    apply cut_None in Hp. now rewrite Hp.
  - rewrite length_join_cons in Hn. rewrite join_cons.
    pose proof (f_equal (@length _) dateToken_units) as L.
    cbn [length] in L.
    destruct n as [|n]; [lia|].
    cbn [pieces]. rewrite (cut_token _ Hp). f_equal.
    apply IH; [discriminate|assumption|lia].
Qed.

(** Splitting at the token gives back the token-free parts a text was
    built from. *)
Lemma split_join (parts : list jsstring) :
  parts <> [] -> Forall token_free parts ->
  split dateToken (join dateToken parts) = parts.
Proof.
  intros Hne Hfree. unfold split.
  destruct dateToken eqn:E; [now apply dateToken_nonempty in E|].
  rewrite <- E. now apply pieces_join.
Qed.

Lemma no_dollar_check (s : jsstring) :
  forallb (fun c => negb (c =? 36)%N) s = true -> no_dollar s.
Proof.
  intros H. apply Forall_forall. intros c Hc.
  rewrite forallb_forall in H. specialize (H c Hc).
  apply negb_true_iff, N.eqb_neq in H. exact H.
Qed.

Lemma GetSubstitution_plain (m b a t : jsstring) :
  no_dollar t -> GetSubstitution m b a t = t.
Proof.
  induction 1 as [|c t Hc Ht IH]; [reflexivity|].
  cbn [GetSubstitution]. apply N.eqb_neq in Hc. rewrite Hc. now rewrite IH.
Qed.

Lemma weave_plain (search repl done : jsstring) (ps : list jsstring) :
  no_dollar repl -> weave search repl done ps = join repl ps.
Proof.
  intros H. revert done; induction ps as [|p ps IH]; intros done; [reflexivity|].
  destruct ps as [|q rest]; [reflexivity|].
  change (weave search repl done (p :: q :: rest)) with
    (p ++ GetSubstitution search (done ++ p) (join search (q :: rest)) repl
       ++ weave search repl (done ++ p ++ search) (q :: rest)).
  now rewrite GetSubstitution_plain, IH.
Qed.

Lemma chat_patched (dv d : jsstring) :
  ChatTs.patched dv d = join dv (split dateToken d).
Proof.
  unfold ChatTs.patched. destruct (includes dateToken d) eqn:E; [reflexivity|].
  now rewrite (@split_absent dateToken d dateToken_nonempty E).
Qed.

Lemma part_patched (dv d : jsstring) :
  no_dollar dv -> Part000.patched dv d = join dv (split dateToken d).
Proof.
  intros H. unfold Part000.patched, replaceAll.
  destruct (includes dateToken d) eqn:E.
  - now apply weave_plain.
  - now rewrite (@split_absent dateToken d dateToken_nonempty E).
Qed.

(** With a date text, both files patch a delta alike. *)
Lemma patched_same (dv d : jsstring) :
  no_dollar dv -> Part000.patched dv d = ChatTs.patched dv d.
Proof. intros H. now rewrite part_patched, chat_patched. Qed.

(* ===================================================================== *)
(** * What [JSON.stringify] cannot write *)
(* ===================================================================== *)

Lemma digits_fuel_plain (fuel : nat) (n : Z) (acc : jsstring) :
  Forall plain_unit acc -> Forall plain_unit (JSNumber.digits_fuel fuel n acc).
Proof.
  revert n acc; induction fuel as [|fuel IH]; intros n acc H; simpl; [exact H|].
  assert (Forall plain_unit (Z.to_N (48 + n mod 10) :: acc)) as H'.
  { constructor; [|exact H].
    pose proof (Z.mod_pos_bound n 10 ltac:(lia)). unfold plain_unit. lia. }
  destruct (n <? 10)%Z; [exact H'|]. now apply IH.
Qed.

Lemma digits_fuel_nonempty (fuel : nat) (n : Z) (acc : jsstring) :
  JSNumber.digits_fuel (S fuel) n acc <> [].
Proof.
  revert n acc; induction fuel as [|fuel IH]; intros n acc.
  - simpl. destruct (n <? 10)%Z; discriminate.
  - change (JSNumber.digits_fuel (S (S fuel)) n acc) with
      (if (n <? 10)%Z then Z.to_N (48 + n mod 10) :: acc
       else JSNumber.digits_fuel (S fuel) (n / 10) (Z.to_N (48 + n mod 10) :: acc)).
    destruct (n <? 10)%Z; [discriminate|apply IH].
Qed.

Lemma digits_plain (n : Z) : Forall plain_unit (JSNumber.digits n).
Proof. apply digits_fuel_plain. constructor. Qed.

Lemma digits_nonempty (n : Z) : JSNumber.digits n <> [].
Proof. apply digits_fuel_nonempty. Qed.

Lemma zeros_plain (n : nat) : Forall plain_unit (JSNumber.zeros n).
Proof.
  induction n; simpl; constructor; [|assumption]. unfold plain_unit. lia.
Qed.

Lemma firstn_plain (n : nat) (l : jsstring) :
  Forall plain_unit l -> Forall plain_unit (firstn n l).
Proof.
  intros H. rewrite <- (firstn_skipn n l) in H. now apply Forall_app in H.
Qed.

Lemma skipn_plain (n : nat) (l : jsstring) :
  Forall plain_unit l -> Forall plain_unit (skipn n l).
Proof.
  intros H. rewrite <- (firstn_skipn n l) in H. now apply Forall_app in H.
Qed.

Ltac plain_units :=
  repeat first
    [ apply Forall_nil
    | apply Forall_cons; [first [assumption | unfold plain_unit; lia]|]
    | apply Forall_app; split
    | apply digits_plain
    | apply zeros_plain
    | apply firstn_plain
    | apply skipn_plain
    | assumption ].

Lemma toString_pos_plain (m e : Z) : Forall plain_unit (JSNumber.toString_pos m e).
Proof.
  unfold JSNumber.toString_pos.
  destruct (JSNumber.shortest _ _ _ _ _ _ _) as [[s k] n].
  pose proof (digits_plain s) as Hs.
  repeat match goal with
         | |- context [if ?b then _ else _] => destruct b
         end;
    try solve [plain_units].
  all: destruct (JSNumber.digits s) as [|d [|d' rest]]; plain_units.
  all: inversion Hs as [|? ? Hd Hr]; subst; try assumption.
  all: inversion Hr; subst; plain_units.
Qed.

Lemma toString_pos_nonempty (m e : Z) : JSNumber.toString_pos m e <> [].
Proof.
  unfold JSNumber.toString_pos.
  destruct (JSNumber.shortest _ _ _ _ _ _ _) as [[s k] n].
  pose proof (digits_nonempty s) as Hs.
  repeat match goal with
         | |- context [if ?b then _ else _] => destruct b
         end.
  all: destruct (JSNumber.digits s) as [|d [|d' rest]];
    try contradiction; try discriminate.
  all: destruct (Z.to_nat n); discriminate.
Qed.

Lemma toJSON_plain (x : JSNumber.double) : Forall plain_unit (JSNumber.toJSON x).
Proof.
  destruct x as [neg m e|neg]; unfold JSNumber.toJSON.
  - destruct (m =? 0)%Z; [plain_units|].
    pose proof (toString_pos_plain m e). destruct neg; plain_units.
  - change (lit "null") with [110; 117; 108; 108]%N. plain_units.
Qed.

Lemma toJSON_nonempty (x : JSNumber.double) : JSNumber.toJSON x <> [].
Proof.
  destruct x as [neg m e|neg]; unfold JSNumber.toJSON.
  - destruct (m =? 0)%Z; [discriminate|].
    pose proof (toString_pos_nonempty m e) as H.
    destruct neg; [discriminate|exact H].
  - discriminate.
Qed.

Lemma stringify_array (xs : list jsvalue) :
  JSON.stringify (JArray xs) =
  91%N :: join [44%N] (map JSON.stringify xs) ++ [93%N].
Proof. reflexivity. Qed.

(** A serialised value never begins with a capital D. *)
Lemma stringify_head (v : jsvalue) :
  exists c r, JSON.stringify v = c :: r /\ c <> 68%N.
Proof.
  destruct v as [|[|]|x|s|xs|props].
  - exists 110%N, [117; 108; 108]%N. split; [reflexivity|lia].
  - exists 116%N, [114; 117; 101]%N. split; [reflexivity|lia].
  - exists 102%N, [97; 108; 115; 101]%N. split; [reflexivity|lia].
  - pose proof (toJSON_plain x) as H. pose proof (toJSON_nonempty x) as H'.
    change (JSON.stringify (JNumber x)) with (JSNumber.toJSON x).
    destruct (JSNumber.toJSON x) as [|c r]; [contradiction|].
    exists c, r. split; [reflexivity|]. inversion H as [|? ? [_ Hc] _]. exact Hc.
  - exists 34%N, (JSON.quote_units s ++ [QUOTE]). split; [reflexivity|lia].
  - rewrite stringify_array. eexists _, _. split; [reflexivity|lia].
  - eexists 123%N, _. split; [reflexivity|lia].
Qed.

Lemma join_head (sep a : jsstring) (rest : list jsstring) :
  exists tl, join sep (a :: rest) = a ++ tl.
Proof.
  destruct rest as [|b rest].
  - exists []. simpl. now rewrite app_nil_r.
  - exists (sep ++ join sep (b :: rest)). reflexivity.
Qed.

(** Only the string ["[DONE]"] is written as [[DONE]]. *)
Lemma stringify_not_DONE (v : jsvalue) :
  (forall s, v <> JString s) -> JSON.stringify v <> DONE.
Proof.
  intros Hv. change DONE with [91; 68; 79; 78; 69; 93]%N.
  destruct v as [|[|]|x|s|xs|props].
  - change (JSON.stringify JNull) with [110; 117; 108; 108]%N. discriminate.
  - change (JSON.stringify (JBool true)) with [116; 114; 117; 101]%N.
    discriminate.
  - change (JSON.stringify (JBool false)) with [102; 97; 108; 115; 101]%N.
    discriminate.
  - change (JSON.stringify (JNumber x)) with (JSNumber.toJSON x).
    intros E. pose proof (toJSON_plain x) as H. rewrite E in H.
    inversion H as [|? ? [Hc _] _]. now apply Hc.
  - now destruct (Hv s).
  - rewrite stringify_array. intros E. injection E as E.
    destruct xs as [|x xs]; [discriminate|].
    cbn [map] in E.
    destruct (join_head [44%N] (JSON.stringify x) (map JSON.stringify xs))
      as [tl Htl].
    destruct (stringify_head x) as (c & r & Hx & Hc).
    rewrite Htl, Hx in E. injection E as E _. congruence.
  - destruct (stringify_head (JObject props)) as (c & r & Hx & Hc).
    intros E. destruct props; discriminate E.
Qed.

Lemma sentinel_unfold : sentinel = lit "data: " ++ DONE ++ [LF; LF].
Proof. reflexivity. Qed.

(** A frame is the sentinel only if it frames the string ["[DONE]"]. *)
Lemma sseLine_sentinel (v : jsvalue) :
  ChatTs.sseLine v = sentinel -> v = JString DONE.
Proof.
  unfold ChatTs.sseLine. rewrite sentinel_unfold. intros E.
  apply app_inv_head, app_inv_tail in E.
  destruct v as [| | |s| |]; try (exfalso; revert E; apply stringify_not_DONE;
                                   discriminate).
  now subst.
Qed.

Lemma count_sentinel_app (a b : list jsstring) :
  count_sentinel (a ++ b) = count_sentinel a + count_sentinel b.
Proof. unfold count_sentinel. now rewrite filter_app, length_app. Qed.

Lemma count_sentinel_delta (t : jsstring) :
  count_sentinel [ChatTs.sseLine (ChatTs.delta_event t)] = 0.
Proof.
  unfold count_sentinel. cbn [filter].
  destruct (str_eqb sentinel (ChatTs.sseLine (ChatTs.delta_event t))) eqn:E;
    [|reflexivity].
  apply str_eqb_eq in E. symmetry in E. apply sseLine_sentinel in E.
  discriminate.
Qed.

Lemma count_sentinel_other (v : jsvalue) :
  count_sentinel [ChatTs.sseLine v] =
  match v with
  | JString s => if str_eqb s DONE then 1 else 0
  | _ => 0
  end.
Proof.
  unfold count_sentinel. cbn [filter].
  destruct (str_eqb sentinel (ChatTs.sseLine v)) eqn:E.
  - apply str_eqb_eq in E. symmetry in E. apply sseLine_sentinel in E.
    subst v. reflexivity.
  - destruct v as [| | |s| |]; try reflexivity.
    destruct (str_eqb s DONE) eqn:E'; [|reflexivity].
    apply str_eqb_eq in E'. subst s. discriminate.
Qed.

(* ===================================================================== *)
(** * The sentinel frames of a run *)
(* ===================================================================== *)

Lemma count_sentinel_single : count_sentinel [sentinel] = 1.
Proof. reflexivity. Qed.

Lemma chat_count_line (dv line : jsstring) :
  count_sentinel (ChatTs.on_line dv [] line) =
  if is_marker line || quoted_marker line then 1 else 0.
Proof.
  rewrite chat_line_frames. unfold is_marker, quoted_marker.
  destruct (classify line) as [| |d|json].
  - reflexivity.
  - reflexivity.
  - apply count_sentinel_delta.
  - rewrite count_sentinel_other. destruct json; reflexivity.
Qed.

Lemma part_count_line (dv line : jsstring) :
  count_sentinel (Part000.on_line dv [] line) =
  if is_marker line then 1 else 0.
Proof.
  rewrite part_line_frames. unfold is_marker.
  destruct (classify line) as [| |d|json].
  - reflexivity.
  - reflexivity.
  - apply count_sentinel_delta.
  - reflexivity.
Qed.

Lemma count_flat_map (f : jsstring -> list jsstring) (p : jsstring -> bool)
  (ls : list jsstring) :
  (forall l, count_sentinel (f l) = if p l then 1 else 0) ->
  count_sentinel (flat_map f ls) = length (filter p ls).
Proof.
  intros H. induction ls as [|l ls IH]; [reflexivity|].
  cbn [flat_map filter]. rewrite count_sentinel_app, H, IH.
  destruct (p l); reflexivity.
Qed.

Lemma chat_count_flush (dv r : jsstring) :
  count_sentinel
    (ChatTs.flush dv {| ChatTs.buffer := r; ChatTs.written := [] |}) = 0.
Proof.
  rewrite chat_flush_frames. destruct (drain_delta r); [|reflexivity].
  apply count_sentinel_delta.
Qed.

Lemma part_count_flush (dv r : jsstring) :
  count_sentinel
    (Part000.flush dv {| Part000.buffer := r; Part000.written := [] |}) = 0.
Proof.
  rewrite part_flush_frames. destruct (drain_delta r); [|reflexivity].
  apply count_sentinel_delta.
Qed.

Lemma last_closing (a b : list jsstring) (x : jsstring) :
  last (a ++ b ++ [x]) [] = x.
Proof. rewrite app_assoc. apply last_last. Qed.

(** C1, as the claim has it, fails: an upstream that sends its terminal
    marker line gets two sentinel frames, the forwarded one and the closing
    one. *)
Lemma marker_line_gives_two_sentinels :
  ~ exactly_one_sentinel
      (ChatTs.relay (lit "8 November 2026") [lit "data: [DONE]" ++ [LF]]) /\
  ~ exactly_one_sentinel
      (Part000.relay (lit "8 November 2026") [lit "data: [DONE]" ++ [LF]]).
Proof.
  split; intros [H _]; vm_compute in H; discriminate H.
Qed.

(** C1 (amended).  Every completed run ends with the sentinel frame, and
    holds one sentinel frame more than the upstream had complete marker
    lines: in [part_000] the lines whose payload is [[DONE]], in [chat.ts]
    also those whose payload is the JSON string ["[DONE]"], which it forwards
    as any other JSON.  So a run has exactly one sentinel frame when the
    upstream closed without such a line. *)
Theorem sentinel_closes_every_run (dateValue : jsstring) (upstream : list jsstring) :
  (last (ChatTs.relay dateValue upstream) [] = sentinel /\
   count_sentinel (ChatTs.relay dateValue upstream) =
   1 + length (filter (fun l => is_marker l || quoted_marker l)
                 (complete_lines (concat upstream)))) /\
  (last (Part000.relay dateValue upstream) [] = sentinel /\
   count_sentinel (Part000.relay dateValue upstream) =
   1 + length (filter is_marker (complete_lines (concat upstream)))).
Proof.
  split; split.
  - rewrite chat_relay_frames. apply last_closing.
  - rewrite chat_relay_frames, !count_sentinel_app, chat_count_flush,
      count_sentinel_single.
    rewrite (count_flat_map _ _ _ (chat_count_line dateValue)). lia.
  - rewrite part_relay_frames. apply last_closing.
  - rewrite part_relay_frames, !count_sentinel_app, part_count_flush,
      count_sentinel_single.
    rewrite (count_flat_map _ _ _ (part_count_line dateValue)). lia.
Qed.

(* ===================================================================== *)
(** * Lines that are not events *)
(* ===================================================================== *)

Lemma unrecognised_kind (line : jsstring) :
  unrecognised line ->
  classify line = Ignored \/ exists json, classify line = Other json.
Proof.
  unfold unrecognised, is_marker, carries_delta. intros [H1 H2].
  destruct (classify line) as [| |d|json]; try discriminate.
  - now left.
  - right. now exists json.
Qed.

(** The frames of a body that has [line] as one of its lines: those of the
    lines before it, its own, and those of what follows. *)
Lemma complete_lines_insert (pre line post : jsstring) :
  residual pre = [] -> ~ In LF line ->
  complete_lines (pre ++ line ++ LF :: post) =
  complete_lines pre ++ line :: complete_lines post.
Proof.
  intros Hpre Hline.
  now rewrite complete_lines_boundary, complete_lines_line.
Qed.

Lemma residual_insert (pre line post : jsstring) :
  residual pre = [] -> ~ In LF line ->
  residual (pre ++ line ++ LF :: post) = residual post.
Proof.
  intros Hpre Hline. now rewrite residual_boundary, residual_line.
Qed.

Lemma chat_relay_skip (dv : jsstring) (cs cs' : list jsstring)
  (pre line post : jsstring) :
  residual pre = [] -> ~ In LF line ->
  concat cs = pre ++ line ++ LF :: post -> concat cs' = pre ++ post ->
  ChatTs.on_line dv [] line = [] ->
  ChatTs.relay dv cs = ChatTs.relay dv cs'.
Proof.
  intros Hpre Hline E E' Hskip. rewrite !chat_relay_frames, E, E'.
  rewrite complete_lines_insert, residual_insert by assumption.
  rewrite complete_lines_boundary, residual_boundary by assumption.
  rewrite !flat_map_app. cbn [flat_map]. now rewrite Hskip.
Qed.

Lemma part_relay_skip (dv : jsstring) (cs cs' : list jsstring)
  (pre line post : jsstring) :
  residual pre = [] -> ~ In LF line ->
  concat cs = pre ++ line ++ LF :: post -> concat cs' = pre ++ post ->
  Part000.on_line dv [] line = [] ->
  Part000.relay dv cs = Part000.relay dv cs'.
Proof.
  intros Hpre Hline E E' Hskip. rewrite !part_relay_frames, E, E'.
  rewrite complete_lines_insert, residual_insert by assumption.
  rewrite complete_lines_boundary, residual_boundary by assumption.
  rewrite !flat_map_app. cbn [flat_map]. now rewrite Hskip.
Qed.

(** C4, as the claim has it, fails in [chat.ts]: a line whose payload is
    JSON of another shape is forwarded. *)
Lemma other_json_is_forwarded :
  unrecognised (lit "data: {}") /\
  ChatTs.on_line (lit "8 November 2026") [] (lit "data: {}") =
  [lit "data: {}" ++ [LF; LF]].
Proof. split; [split|]; reflexivity. Qed.

(** C4 (amended).  For a line that is neither the terminal marker nor an
    event with a non-empty string delta: [part_000] writes no frame;
    [chat.ts] writes no frame when the line is not a [data:] line or its
    payload is not JSON, and otherwise forwards the parsed JSON as one
    frame.  Where no frame is written for it, the run is the run of the
    same upstream without that line: the other lines are forwarded as they
    were, in their order. *)
Theorem unrecognised_line_frames (dateValue line : jsstring) :
  unrecognised line ->
  (forall written, Part000.on_line dateValue written line = written) /\
  (forall written,
      ChatTs.on_line dateValue written line =
      match classify line with
      | Other json => written ++ [ChatTs.sseLine json]
      | _ => written
      end) /\
  (forall (upstream upstream' : list jsstring) (pre post : jsstring),
      residual pre = [] -> ~ In LF line ->
      concat upstream = pre ++ line ++ LF :: post ->
      concat upstream' = pre ++ post ->
      Part000.relay dateValue upstream = Part000.relay dateValue upstream' /\
      (other_shape line = false ->
       ChatTs.relay dateValue upstream = ChatTs.relay dateValue upstream')).
Proof.
  intros Hline.
  assert (Part000.on_line dateValue [] line = []) as HB.
  { rewrite part_line_frames.
    destruct (unrecognised_kind Hline) as [->|[json ->]]; reflexivity. }
  split; [|split].
  - intros w. now rewrite part_on_line_app, HB, app_nil_r.
  - intros w. rewrite chat_on_line_app, chat_line_frames.
    destruct (unrecognised_kind Hline) as [->|[json ->]];
      [apply app_nil_r|reflexivity].
  - intros cs cs' pre post Hpre HLF E E'. split.
    + now apply (@part_relay_skip dateValue cs cs' pre line post).
    + intros Hother.
      apply (@chat_relay_skip dateValue cs cs' pre line post); try assumption.
      rewrite chat_line_frames. unfold other_shape in Hother.
      destruct (unrecognised_kind Hline) as [->|[json Hj]]; [reflexivity|].
      rewrite Hj in Hother. discriminate.
Qed.

Lemma unrecognised_line_frames_witness :
  Part000.on_line (lit "8 November 2026") [] (lit "data: {oops") = [] /\
  ChatTs.on_line (lit "8 November 2026") [] (lit "data: {oops") = [] /\
  Part000.relay (lit "8 November 2026")
    [quoted "data: {`delta`:`a`}" ++ [LF] ++ lit "data: {oops" ++ [LF];
     quoted "data: {`delta`:`b`}" ++ [LF]] =
  Part000.relay (lit "8 November 2026")
    [quoted "data: {`delta`:`a`}" ++ [LF] ++ quoted "data: {`delta`:`b`}" ++ [LF]].
Proof.
  assert (unrecognised (lit "data: {oops")) as H by (split; reflexivity).
  destruct (unrecognised_line_frames (lit "8 November 2026") H) as (HB & HA & HS).
  split; [apply HB|]. split; [apply HA|].
  apply (HS _ _ (quoted "data: {`delta`:`a`}" ++ [LF])
            (quoted "data: {`delta`:`b`}" ++ [LF])).
  - reflexivity.
  - vm_compute. intros H'. repeat (destruct H' as [H'|H']; [discriminate H'|]).
    exact H'.
  - reflexivity.
  - reflexivity.
Defined.

(* ===================================================================== *)
(** * The two files side by side *)
(* ===================================================================== *)

Lemma length_single_frames (f g : jsstring -> list jsstring)
  (p : jsstring -> bool) (ls : list jsstring) :
  (forall l, length (f l) = length (g l) + if p l then 1 else 0) ->
  length (flat_map f ls) = length (flat_map g ls) + length (filter p ls).
Proof.
  intros H. induction ls as [|l ls IH]; [reflexivity|].
  cbn [flat_map filter]. rewrite !length_app, H, IH.
  destruct (p l); simpl; lia.
Qed.

Lemma lines_differ_in_length (dv line : jsstring) :
  length (ChatTs.on_line dv [] line) =
  length (Part000.on_line dv [] line) + if other_shape line then 1 else 0.
Proof.
  rewrite chat_line_frames, part_line_frames. unfold other_shape.
  destruct (classify line); reflexivity.
Qed.

Lemma lines_agree (dv line : jsstring) :
  no_dollar dv -> other_shape line = false ->
  ChatTs.on_line dv [] line = Part000.on_line dv [] line.
Proof.
  intros Hd H. rewrite chat_line_frames, part_line_frames.
  unfold other_shape in H.
  destruct (classify line); try reflexivity; [|discriminate].
  now rewrite patched_same.
Qed.

Lemma flush_agree (dv r : jsstring) :
  no_dollar dv ->
  ChatTs.flush dv {| ChatTs.buffer := r; ChatTs.written := [] |} =
  Part000.flush dv {| Part000.buffer := r; Part000.written := [] |}.
Proof.
  intros Hd. rewrite chat_flush_frames, part_flush_frames.
  destruct (drain_delta r); [|reflexivity]. now rewrite patched_same.
Qed.

Lemma filter_none (A : Type) (p : A -> bool) (l : list A) :
  length (filter p l) = 0 <-> Forall (fun x => p x = false) l.
Proof.
  induction l as [|x l IH]; simpl.
  - split; [constructor|reflexivity].
  - destruct (p x) eqn:E; simpl.
    + split; [discriminate|]. intros H. inversion H. congruence.
    + rewrite IH. split; [now constructor|]. intros H. now inversion H.
Qed.

Lemma flat_map_agree (A B : Type) (f g : A -> list B) (l : list A) :
  Forall (fun x => f x = g x) l -> flat_map f l = flat_map g l.
Proof. induction 1; simpl; congruence. Qed.

(** C10, as the claim has it, fails: an event may hold a non-empty string
    in its flat [delta] field and still have no delta for the handler, which
    reads [choices[0].delta.content ?? delta] and so stops at a nested
    content that is an empty string.  On such a line the two files differ. *)
Lemma flat_delta_behind_empty_content :
  get (JSON.parse
         (quoted "{`choices`:[{`delta`:{`content`:``}}],`delta`:`hi`}"))
      (lit "delta") = Some (JString (lit "hi")) /\
  ChatTs.relay (lit "8 November 2026")
    [quoted "data: {`choices`:[{`delta`:{`content`:``}}],`delta`:`hi`}" ++ [LF]]
  <>
  Part000.relay (lit "8 November 2026")
    [quoted "data: {`choices`:[{`delta`:{`content`:``}}],`delta`:`hi`}" ++ [LF]].
Proof.
  split; [reflexivity|]. intros H. vm_compute in H. discriminate H.
Qed.

(** C10 (amended).  With the same date text the two files write the same
    frames exactly when no complete line of the upstream is a [data:] line
    whose payload parses as JSON without a non-empty string delta, the delta
    being read as [choices[0].delta.content ?? delta]: such a line is
    forwarded by [chat.ts], which frames the parsed value as it is, and
    dropped by [part_000].  So they agree whenever every complete [data:]
    line is the terminal marker or carries such a delta. *)
Theorem variants_differ_on_other_shapes (dateValue : jsstring)
  (upstream : list jsstring) :
  no_dollar dateValue ->
  (ChatTs.relay dateValue upstream = Part000.relay dateValue upstream <->
   Forall (fun line => other_shape line = false)
     (complete_lines (concat upstream))) /\
  ((forall line, In line (complete_lines (concat upstream)) ->
                 startsWith (lit "data:") line = true ->
                 is_marker line = true \/ carries_delta line = true) ->
   ChatTs.relay dateValue upstream = Part000.relay dateValue upstream) /\
  (forall line, other_shape line = true ->
     exists json,
       classify line = Other json /\
       forall written,
         ChatTs.on_line dateValue written line =
         written ++ [ChatTs.sseLine json] /\
         Part000.on_line dateValue written line = written).
Proof.
  intros Hd.
  assert (Forall (fun line => other_shape line = false)
            (complete_lines (concat upstream)) ->
          ChatTs.relay dateValue upstream = Part000.relay dateValue upstream)
    as Hagree.
  { intros H. rewrite chat_relay_frames, part_relay_frames.
    rewrite (flush_agree _ Hd). f_equal. apply flat_map_agree.
    eapply Forall_impl; [|exact H]. intros l Hl. now apply lines_agree. }
  split; [split|split].
  - intros E. apply filter_none.
    apply (f_equal (@length _)) in E.
    rewrite chat_relay_frames, part_relay_frames, !length_app in E.
    rewrite (flush_agree _ Hd) in E.
    rewrite (length_single_frames _ _ _ _ (lines_differ_in_length dateValue))
      in E.
    lia.
  - exact Hagree.
  - intros H. apply Hagree. apply Forall_forall. intros line Hin.
    specialize (H line Hin). unfold other_shape, is_marker, carries_delta in *.
    unfold classify in *.
    destruct (startsWith (lit "data:") line); [|reflexivity].
    destruct (H eq_refl) as [H'|H']; revert H'; cbn [negb];
      repeat branch; congruence.
  - intros line H. unfold other_shape in H.
    destruct (classify line) as [| | |json] eqn:E; try discriminate.
    exists json. split; [reflexivity|]. intros w.
    rewrite chat_on_line_app, part_on_line_app.
    rewrite chat_line_frames, part_line_frames, E, app_nil_r. now split.
Qed.

Lemma variants_differ_on_other_shapes_witness :
  ChatTs.relay (lit "8 November 2026")
    [quoted "data: {`choices`:[{`delta`:{`content`:`see you on [DATE_"; 
     quoted "PLUS_7]`}}]}" ++ [LF] ++ lit "data: [DONE]" ++ [LF]] =
  Part000.relay (lit "8 November 2026")
    [quoted "data: {`choices`:[{`delta`:{`content`:`see you on [DATE_"; 
     quoted "PLUS_7]`}}]}" ++ [LF] ++ lit "data: [DONE]" ++ [LF]] /\
  ChatTs.on_line (lit "8 November 2026") []
    (quoted "data: {`choices`:[{`delta`:{`role`:`assistant`}}]}") <>
  Part000.on_line (lit "8 November 2026") []
    (quoted "data: {`choices`:[{`delta`:{`role`:`assistant`}}]}").
Proof.
  assert (no_dollar (lit "8 November 2026")) as Hd
    by now apply no_dollar_check.
  split.
  - destruct (variants_differ_on_other_shapes
                [quoted "data: {`choices`:[{`delta`:{`content`:`see you on [DATE_"; 
                 quoted "PLUS_7]`}}]}" ++ [LF] ++ lit "data: [DONE]" ++ [LF]] Hd)
      as ([_ H] & _ & _).
    apply H. repeat constructor.
  - destruct (variants_differ_on_other_shapes [] Hd) as (_ & _ & H).
    destruct (H (quoted "data: {`choices`:[{`delta`:{`role`:`assistant`}}]}")
                eq_refl) as (json & _ & Hw).
    destruct (Hw []) as [HA HB]. rewrite HA, HB. discriminate.
Defined.

(* ===================================================================== *)
(** * Lines that carry an event *)
(* ===================================================================== *)

Lemma data_prefix_units : lit "data:" = [100; 97; 116; 97; 58]%N.
Proof. reflexivity. Qed.

Lemma data_of_data_line (payload : jsstring) :
  data_of (lit "data:" ++ payload) = trim payload.
Proof. unfold data_of, slice. rewrite data_prefix_units. reflexivity. Qed.

Lemma parse_DONE : JSON.parse DONE = None.
Proof. reflexivity. Qed.

Lemma classify_delta (payload : jsstring) (json : jsvalue) (d : jsstring) :
  JSON.parse (trim payload) = Some json ->
  ChatTs.delta_of json = Some (JString d) -> d <> [] ->
  classify (lit "data:" ++ payload) = Delta d.
Proof.
  intros Hp Hd Hne. unfold classify.
  rewrite startsWith_app, data_of_data_line. cbn [negb].
  destruct (str_eqb (trim payload) DONE) eqn:E.
  - apply str_eqb_eq in E. rewrite E, parse_DONE in Hp. discriminate.
  - rewrite Hp. unfold string_delta. rewrite Hd.
    destruct d; [contradiction|reflexivity].
Qed.

Lemma data_line_no_LF (payload : jsstring) :
  ~ In LF payload -> ~ In LF (lit "data:" ++ payload).
Proof.
  intros H Hin. apply in_app_or in Hin as [Hin|Hin]; [|contradiction].
  rewrite data_prefix_units in Hin.
  repeat (destruct Hin as [Hin|Hin]; [discriminate Hin|]). exact Hin.
Qed.

Lemma drain_nothing : drain_delta [] = None.
Proof. reflexivity. Qed.

(* ===================================================================== *)
(** * The text left in the buffer *)
(* ===================================================================== *)

(** A text that begins with [data:] is not JSON. *)
Lemma parse_data_prefix (x : jsstring) : JSON.parse (lit "data:" ++ x) = None.
Proof. rewrite data_prefix_units. reflexivity. Qed.

Lemma drain_data_prefix (r : jsstring) :
  startsWith (lit "data:") r = true -> drain_delta r = None.
Proof.
  intros H. apply startsWith_inv in H. rewrite H.
  unfold drain_delta. rewrite parse_data_prefix.
  rewrite data_prefix_units. reflexivity.
Qed.

Lemma concat_single (s : jsstring) : concat [s] = s.
Proof. simpl. apply app_nil_r. Qed.

(** C9.  The text left after the last newline is parsed as JSON as it
    stands: a frame is written for it only when it is JSON with a non-empty
    string delta.  A last line that begins with [data:] (an event, or the
    marker) and has no newline after it is therefore lost: the run is the
    run of the upstream without it.  The closing sentinel is written in any
    case. *)
Theorem unterminated_data_line_is_dropped (dateValue : jsstring)
  (upstream : list jsstring) (pre rest : jsstring) :
  concat upstream = pre ++ rest ->
  residual pre = [] -> ~ In LF rest ->
  startsWith (lit "data:") rest = true ->
  (JSON.parse rest = None /\
   ChatTs.relay dateValue upstream = ChatTs.relay dateValue [pre] /\
   Part000.relay dateValue upstream = Part000.relay dateValue [pre]) /\
  (forall buffer written,
      ChatTs.flush dateValue
        {| ChatTs.buffer := buffer; ChatTs.written := written |} =
      written ++
      match drain_delta buffer with
      | Some d => [ChatTs.sseLine (ChatTs.delta_event (ChatTs.patched dateValue d))]
      | None => []
      end /\
      Part000.flush dateValue
        {| Part000.buffer := buffer; Part000.written := written |} =
      written ++
      match drain_delta buffer with
      | Some d => [Part000.sseLine (Part000.delta_event (Part000.patched dateValue d))]
      | None => []
      end) /\
  last (ChatTs.relay dateValue upstream) [] = sentinel /\
  last (Part000.relay dateValue upstream) [] = sentinel.
Proof.
  intros E Hpre HLF Hdata.
  assert (residual (pre ++ rest) = rest) as Hr
    by (rewrite residual_boundary by assumption; now apply residual_no_LF).
  assert (complete_lines (pre ++ rest) = complete_lines pre) as Hc.
  { rewrite complete_lines_boundary by assumption.
    rewrite (@complete_lines_no_LF rest HLF). apply app_nil_r. }
  split; [split; [|split]|split; [|split]].
  - apply startsWith_inv in Hdata. rewrite Hdata. apply parse_data_prefix.
  - rewrite !chat_relay_frames, E, Hr, Hc, concat_single, Hpre.
    rewrite !chat_flush_frames, (drain_data_prefix _ Hdata). reflexivity.
  - rewrite !part_relay_frames, E, Hr, Hc, concat_single, Hpre.
    rewrite !part_flush_frames, (drain_data_prefix _ Hdata). reflexivity.
  - intros b w. split.
    + now rewrite chat_flush_app, chat_flush_frames.
    + now rewrite part_flush_app, part_flush_frames.
  - rewrite chat_relay_frames. apply last_closing.
  - rewrite part_relay_frames. apply last_closing.
Qed.

Lemma unterminated_data_line_is_dropped_witness :
  ChatTs.relay (lit "8 November 2026")
    [quoted "data: {`delta`:`one`}" ++ [LF] ++ quoted "data: {`delta`:`two`}"] =
  [quoted "data: {`delta`:`one`}" ++ [LF; LF]; sentinel] /\
  Part000.relay (lit "8 November 2026")
    [quoted "data: {`delta`:`one`}" ++ [LF] ++ quoted "data: {`delta`:`two`}"] =
  [quoted "data: {`delta`:`one`}" ++ [LF; LF]; sentinel].
Proof.
  destruct (@unterminated_data_line_is_dropped (lit "8 November 2026")
              [quoted "data: {`delta`:`one`}" ++ [LF]
               ++ quoted "data: {`delta`:`two`}"]
              (quoted "data: {`delta`:`one`}" ++ [LF])
              (quoted "data: {`delta`:`two`}"))
    as ((_ & HA & HB) & _).
  - reflexivity.
  - reflexivity.
  - vm_compute. intros H. repeat (destruct H as [H|H]; [discriminate H|]).
    exact H.
  - reflexivity.
  - split; [rewrite HA|rewrite HB]; reflexivity.
Defined.

(* ===================================================================== *)
(** * The handler before the relay *)
(* ===================================================================== *)

Lemma admitted_chat (env : Env) (req : Request) :
  admitted env req ->
  ChatTs.handler env req =
  match ChatTs.last_content (ChatTs.messages_of (ChatTs.body_of req)) with
  | None => Finish Throw
  | Some last =>
    match ChatTs.faq last with
    | Some text => chat_shortcut text
    | None => ChatTs.handler env req
    end
  end.
Proof.
  intros [Hm (key & Hk & Hne)]. unfold ChatTs.handler.
  rewrite Hm, str_eqb_refl, Hk. cbn [negb].
  destruct key; [contradiction|].
  destruct (ChatTs.last_content _); [|reflexivity].
  destruct (ChatTs.faq _); reflexivity.
Qed.

Lemma admitted_part (env : Env) (req : Request) :
  admitted env req ->
  Part000.handler env req =
  match Part000.last_content (Part000.messages_of (Part000.body_of req)) with
  | None => Finish Throw
  | Some last =>
    match Part000.faq last with
    | Some text => part_shortcut text
    | None => Part000.handler env req
    end
  end.
Proof.
  intros [Hm (key & Hk & Hne)]. unfold Part000.handler.
  rewrite Hm, str_eqb_refl, Hk. cbn [negb].
  destruct key; [contradiction|].
  destruct (Part000.last_content _); [|reflexivity].
  destruct (Part000.faq _); reflexivity.
Qed.

(** ** The request of a call *)

Lemma Fetch_request (r r' : FetchRequest) (k k' : option Upstream -> outcome) :
  Fetch r k = Fetch r' k' -> r = r'.
Proof. intros H. now injection H. Qed.


(** ** The shortcut responder *)

(** C6, as the claim has it, fails: a message that matches the cost pattern
    and the time pattern gets the time answer, the time pattern being tested
    first. *)
Lemma cost_question_gets_time_answer :
  RegExp.test ChatTs.faqCost (lit "how much time will it take") = true /\
  ChatTs.handler example_env
    (post (quoted "{`messages`:[{`role`:`user`,`content`:`How much time will it take`}]}"))
  = chat_shortcut ChatTs.timeAnswer /\
  chat_shortcut ChatTs.timeAnswer <> chat_shortcut ChatTs.costAnswer /\
  RegExp.test Part000.faqCost (lit "how much time will it take") = true /\
  Part000.handler example_env
    (post (quoted "{`messages`:[{`role`:`user`,`content`:`How much time will it take`}]}"))
  = part_shortcut Part000.timeAnswer /\
  part_shortcut Part000.timeAnswer <> part_shortcut Part000.costAnswer.
Proof.
  repeat split; try (vm_compute; reflexivity).
  - intros H. vm_compute in H. discriminate H.
  - intros H. vm_compute in H. discriminate H.
Qed.

(** C6 (amended).  For a request past the method and credential checks
    whose inspected text matches the cost pattern and not the time pattern,
    the handler writes one delta frame with the cost answer, then the
    sentinel frame, and does not call the completion API. *)
Theorem cost_question_is_answered_at_once (env : Env) (req : Request) :
  admitted env req ->
  (forall last,
      ChatTs.last_content (ChatTs.messages_of (ChatTs.body_of req)) = Some last ->
      RegExp.test ChatTs.faqCost last = true ->
      RegExp.test ChatTs.faqTime last = false ->
      ChatTs.handler env req = chat_shortcut ChatTs.costAnswer /\
      fetches (ChatTs.handler env req) = 0) /\
  (forall last,
      Part000.last_content (Part000.messages_of (Part000.body_of req)) = Some last ->
      RegExp.test Part000.faqCost last = true ->
      RegExp.test Part000.faqTime last = false ->
      Part000.handler env req = part_shortcut Part000.costAnswer /\
      fetches (Part000.handler env req) = 0).
Proof.
  intros Hadm. split; intros last Hlast Hcost Htime.
  - assert (ChatTs.handler env req = chat_shortcut ChatTs.costAnswer) as E.
    { rewrite (admitted_chat Hadm), Hlast. unfold ChatTs.faq.
      now rewrite Hcost, Htime. }
    split; [exact E|]. now rewrite E.
  - assert (Part000.handler env req = part_shortcut Part000.costAnswer) as E.
    { rewrite (admitted_part Hadm), Hlast. unfold Part000.faq.
      now rewrite Hcost, Htime. }
    split; [exact E|]. now rewrite E.
Qed.

Lemma example_admitted (body : jsstring) : admitted example_env (post body).
Proof. split; [reflexivity|]. exists (lit "sk-example"). split; [reflexivity|discriminate]. Qed.

Lemma cost_question_is_answered_at_once_witness :
  ChatTs.handler example_env
    (post (quoted "{`messages`:[{`role`:`user`,`content`:`What is your pricing?`}]}"))
  = chat_shortcut ChatTs.costAnswer /\
  Part000.handler example_env
    (post (quoted "{`messages`:[{`role`:`user`,`content`:`What is your pricing?`}]}"))
  = part_shortcut Part000.costAnswer.
Proof.
  destruct (cost_question_is_answered_at_once
              (example_admitted
                 (quoted "{`messages`:[{`role`:`user`,`content`:`What is your pricing?`}]}")))
    as [HA HB].
  split.
  - apply (HA (lit "what is your pricing?")); vm_compute; reflexivity.
  - apply (HB (lit "what is your pricing?")); vm_compute; reflexivity.
Defined.

(** C7, as the claim has it, fails: with an assistant turn after the user's
    question about pricing, the text inspected is that of the assistant
    turn, no pattern matches, and the completion API is called. *)
Lemma last_entry_need_not_be_the_user :
  ChatTs.faq (lit "pricing") = Some ChatTs.costAnswer /\
  ChatTs.last_content
    [JObject [(lit "role", JString (lit "user"));
              (lit "content", JString (lit "pricing"))];
     JObject [(lit "role", JString (lit "assistant"));
              (lit "content", JString (lit "Anything else?"))]]
  = Some (lit "anything else?") /\
  fetches
    (ChatTs.handler example_env
       (post (quoted "{`messages`:[{`role`:`user`,`content`:`pricing`},{`role`:`assistant`,`content`:`Anything else?`}]}")))
  = 1 /\
  fetches
    (Part000.handler example_env
       (post (quoted "{`messages`:[{`role`:`user`,`content`:`pricing`},{`role`:`assistant`,`content`:`Anything else?`}]}")))
  = 1.
Proof. repeat split; vm_compute; reflexivity. Qed.

Lemma last_snoc (A : Type) (l : list A) (x d : A) : last (l ++ [x]) d = x.
Proof. apply last_last. Qed.

(** ** A body that is not JSON *)

(** C8.  A request past the method and credential checks whose body is not
    JSON is handled as the request with an empty message list and no model:
    the handler goes on to call the completion API, with the default model
    and the system turn alone. *)
Theorem unparseable_body_is_empty_input (env : Env) (req : Request) :
  JSON.parse (req_body req) = None ->
  (ChatTs.handler env req =
   ChatTs.handler env
     {| req_method := req_method req; req_body := quoted "{`messages`:[]}" |} /\
   Part000.handler env req =
   Part000.handler env
     {| req_method := req_method req; req_body := quoted "{`messages`:[]}" |}) /\
  (admitted env req ->
   (exists sent k,
       ChatTs.handler env req = Fetch sent k /\
       fetch_body sent =
       JSON.stringify (ChatTs.payload (JString (lit "gpt-4o-mini")) [])) /\
   (exists sent k,
       Part000.handler env req = Fetch sent k /\
       fetch_body sent =
       JSON.stringify (Part000.payload (JString (lit "gpt-4o-mini")) []))).
Proof.
  intros Hp.
  assert (ChatTs.body_of req = JObject []) as EA
    by (unfold ChatTs.body_of; now rewrite Hp).
  assert (Part000.body_of req = JObject []) as EB
    by (unfold Part000.body_of; now rewrite Hp).
  split; [split|].
  - unfold ChatTs.handler. rewrite EA. reflexivity.
  - unfold Part000.handler. rewrite EB. reflexivity.
  - intros [Hm (key & Hk & Hne)]. split.
    + unfold ChatTs.handler. rewrite Hm, str_eqb_refl, Hk, EA. cbn [negb].
      destruct key; [contradiction|].
      eexists _, _. split; reflexivity.
    + unfold Part000.handler. rewrite Hm, str_eqb_refl, Hk, EB. cbn [negb].
      destruct key; [contradiction|].
      eexists _, _. split; reflexivity.
Qed.

Lemma unparseable_body_is_empty_input_witness :
  ChatTs.handler example_env (post (lit "messages=hello")) =
  ChatTs.handler example_env (post (quoted "{`messages`:[]}")) /\
  Part000.handler example_env (post (lit "messages=hello")) =
  Part000.handler example_env (post (quoted "{`messages`:[]}")).
Proof.
  apply (@unparseable_body_is_empty_input example_env
           (post (lit "messages=hello"))).
  reflexivity.
Defined.

(* ===================================================================== *)
(** * The read loop *)
(* ===================================================================== *)

Lemma lines_have_no_LF (s : jsstring) : Forall (fun l => ~ In LF l) (lines s).
Proof.
  induction s as [|c s IH]; [repeat constructor; intros []|].
  simpl. destruct (N.eqb_spec c LF) as [->|Hc].
  - constructor; [intros []|exact IH].
  - destruct (lines s) as [|l ls]; [repeat constructor; now intros [?|[]]|].
    inversion IH as [|? ? Hl Hls]; subst. constructor; [|exact Hls].
    intros [E|Hin]; [now apply Hc|now apply Hl].
Qed.

Lemma lines_parts (s : jsstring) : lines s = complete_lines s ++ [residual s].
Proof. apply app_removelast_last, lines_nonempty. Qed.

Lemma residual_has_no_LF (s : jsstring) : ~ In LF (residual s).
Proof.
  pose proof (lines_have_no_LF s) as H. rewrite lines_parts in H.
  apply Forall_app in H as [_ H]. now inversion H.
Qed.

Lemma join_lines (s : jsstring) : join [LF] (lines s) = s.
Proof. rewrite <- split_lines. apply join_split. discriminate. Qed.

(** X3.  A run depends on the upstream body only, not on how the body was
    cut into chunks. *)
Theorem relay_ignores_chunking (dateValue : jsstring) (upstream : list jsstring) :
  ChatTs.relay dateValue upstream = ChatTs.relay dateValue [concat upstream] /\
  Part000.relay dateValue upstream = Part000.relay dateValue [concat upstream].
Proof.
  split.
  - now rewrite !chat_relay_frames, concat_single.
  - now rewrite !part_relay_frames, concat_single.
Qed.

(** X4.  After any number of chunks the buffer holds the text read since
    the last newline, without a newline in it; the lines before it and the
    buffer make up exactly what was read; and what was written stays as it
    is when more chunks are read, followed by the frames of the lines they
    complete. *)
Theorem read_loop_invariant (dateValue : jsstring) (read more : list jsstring) :
  (let st := fold_left (ChatTs.on_chunk dateValue) read
               {| ChatTs.buffer := []; ChatTs.written := [] |} in
   ~ In LF (ChatTs.buffer st) /\
   join [LF] (complete_lines (concat read) ++ [ChatTs.buffer st]) = concat read /\
   ChatTs.written (fold_left (ChatTs.on_chunk dateValue) more st) =
   ChatTs.written st ++
   flat_map (ChatTs.on_line dateValue [])
     (complete_lines (ChatTs.buffer st ++ concat more))) /\
  (let st := fold_left (Part000.on_chunk dateValue) read
               {| Part000.buffer := []; Part000.written := [] |} in
   ~ In LF (Part000.buffer st) /\
   join [LF] (complete_lines (concat read) ++ [Part000.buffer st]) = concat read /\
   Part000.written (fold_left (Part000.on_chunk dateValue) more st) =
   Part000.written st ++
   flat_map (Part000.on_line dateValue [])
     (complete_lines (Part000.buffer st ++ concat more))).
Proof.
  split; cbv zeta.
  - rewrite <- fold_left_app, !chat_loop. cbn [ChatTs.buffer ChatTs.written].
    split; [apply residual_has_no_LF|]. split.
    + rewrite <- lines_parts. apply join_lines.
    + now rewrite concat_app, complete_lines_app, flat_map_app.
  - rewrite <- fold_left_app, !part_loop. cbn [Part000.buffer Part000.written].
    split; [apply residual_has_no_LF|]. split.
    + rewrite <- lines_parts. apply join_lines.
    + now rewrite concat_app, complete_lines_app, flat_map_app.
Qed.

Lemma chat_frames_by_kind (dv : jsstring) (cs : list jsstring) :
  ChatTs.relay dv cs =
  flat_map (fun line =>
              match classify line with
              | Ignored => []
              | Marker => [sentinel]
              | Delta d => [ChatTs.sseLine (ChatTs.delta_event (ChatTs.patched dv d))]
              | Other json => [ChatTs.sseLine json]
              end) (complete_lines (concat cs))
  ++ match drain_delta (residual (concat cs)) with
     | Some d => [ChatTs.sseLine (ChatTs.delta_event (ChatTs.patched dv d))]
     | None => []
     end
  ++ [sentinel].
Proof.
  rewrite chat_relay_frames, chat_flush_frames. f_equal.
  apply flat_map_ext. intros l. apply chat_line_frames.
Qed.

Lemma part_frames_by_kind (dv : jsstring) (cs : list jsstring) :
  Part000.relay dv cs =
  flat_map (fun line =>
              match classify line with
              | Marker => [sentinel]
              | Delta d =>
                [Part000.sseLine (Part000.delta_event (Part000.patched dv d))]
              | Ignored | Other _ => []
              end) (complete_lines (concat cs))
  ++ match drain_delta (residual (concat cs)) with
     | Some d => [Part000.sseLine (Part000.delta_event (Part000.patched dv d))]
     | None => []
     end
  ++ [sentinel].
Proof.
  rewrite part_relay_frames, part_flush_frames. f_equal.
  apply flat_map_ext. intros l. apply part_line_frames.
Qed.

(** X5.  The frames of a run follow the upstream line by line: nothing for
    a line that is ignored, the sentinel for a marker line, one delta frame
    for an event with a delta ([chat.ts] also one frame for any other JSON),
    then at most one delta frame for the text after the last newline, then
    the closing sentinel.  So a run has at most one frame per complete line
    and two more. *)
Theorem frames_follow_the_lines (dateValue : jsstring) (upstream : list jsstring) :
  (ChatTs.relay dateValue upstream =
   flat_map (fun line =>
               match classify line with
               | Ignored => []
               | Marker => [sentinel]
               | Delta d =>
                 [ChatTs.sseLine (ChatTs.delta_event (ChatTs.patched dateValue d))]
               | Other json => [ChatTs.sseLine json]
               end) (complete_lines (concat upstream))
   ++ match drain_delta (residual (concat upstream)) with
      | Some d =>
        [ChatTs.sseLine (ChatTs.delta_event (ChatTs.patched dateValue d))]
      | None => []
      end
   ++ [sentinel]) /\
  (Part000.relay dateValue upstream =
   flat_map (fun line =>
               match classify line with
               | Marker => [sentinel]
               | Delta d =>
                 [Part000.sseLine
                    (Part000.delta_event (Part000.patched dateValue d))]
               | Ignored | Other _ => []
               end) (complete_lines (concat upstream))
   ++ match drain_delta (residual (concat upstream)) with
      | Some d =>
        [Part000.sseLine (Part000.delta_event (Part000.patched dateValue d))]
      | None => []
      end
   ++ [sentinel]) /\
  length (Part000.relay dateValue upstream)
  <= length (ChatTs.relay dateValue upstream)
  <= length (complete_lines (concat upstream)) + 2.
Proof.
  assert (forall (f : jsstring -> list jsstring) ls,
             (forall l, length (f l) <= 1) ->
             length (flat_map f ls) <= length ls) as Hbound.
  { intros f ls Hf. induction ls as [|l ls IH]; [reflexivity|].
    cbn [flat_map length]. rewrite length_app. specialize (Hf l). lia. }
  split; [|split].
  - apply chat_frames_by_kind.
  - apply part_frames_by_kind.
  - rewrite chat_relay_frames, part_relay_frames, !length_app.
    rewrite chat_flush_frames, part_flush_frames.
    rewrite (length_single_frames _ _ _ _ (lines_differ_in_length dateValue)).
    assert (length (flat_map (ChatTs.on_line dateValue [])
                      (complete_lines (concat upstream)))
            <= length (complete_lines (concat upstream))) as H1.
    { apply Hbound. intros l. rewrite chat_line_frames.
      destruct (classify l); simpl; lia. }
    rewrite (length_single_frames _ _ _ _ (lines_differ_in_length dateValue))
      in H1.
    destruct (drain_delta _); simpl; lia.
Qed.

(* ===================================================================== *)
(** * The handler around the relay *)
(* ===================================================================== *)

Lemma Fetch_continuation (r r' : FetchRequest)
  (k k' : option Upstream -> outcome) :
  Fetch r k = Fetch r' k' -> k = k'.
Proof. intros H. now injection H. Qed.

(** X1.  The method is checked before anything else and the credential
    next: a request that is not a POST gets 405 [Only POST] whatever the
    credential, and a POST without a credential (none, or the empty
    string) gets 500, whatever the body; neither reaches the completion
    API. *)
Theorem guards_come_first (env : Env) (req : Request) :
  (req_method req <> lit "POST" ->
   ChatTs.handler env req =
   Finish (Respond {| status := 405; headers := []; body := Text (lit "Only POST") |})
   /\
   Part000.handler env req =
   Finish (Respond {| status := 405; headers := []; body := Text (lit "Only POST") |}))
  /\
  (req_method req = lit "POST" ->
   OPENAI_API_KEY env = None \/ OPENAI_API_KEY env = Some [] ->
   ChatTs.handler env req =
   Finish (Respond {| status := 500; headers := [];
                      body := Text (lit "Missing OPENAI_API_KEY") |})
   /\
   Part000.handler env req =
   Finish (Respond {| status := 500; headers := [];
                      body := Text (lit "Missing OPENAI_API_KEY") |})).
Proof.
  split.
  - intros Hm. apply str_eqb_neq in Hm.
    unfold ChatTs.handler, Part000.handler. rewrite Hm. now split.
  - intros Hm Hk. unfold ChatTs.handler, Part000.handler.
    rewrite Hm, str_eqb_refl. cbn [negb].
    destruct Hk as [-> | ->]; now split.
Qed.

Lemma guards_come_first_witness :
  ChatTs.handler {| OPENAI_API_KEY := None; format_plus7 := fun _ => [] |}
    {| req_method := lit "GET"; req_body := [] |} =
  Finish (Respond {| status := 405; headers := []; body := Text (lit "Only POST") |})
  /\
  Part000.handler {| OPENAI_API_KEY := Some []; format_plus7 := fun _ => [] |}
    (post (quoted "{`messages`:[]}")) =
  Finish (Respond {| status := 500; headers := [];
                     body := Text (lit "Missing OPENAI_API_KEY") |}).
Proof.
  split.
  - apply (proj1 (guards_come_first
                    {| OPENAI_API_KEY := None; format_plus7 := fun _ => [] |}
                    {| req_method := lit "GET"; req_body := [] |})).
    discriminate.
  - apply (proj2 (guards_come_first
                    {| OPENAI_API_KEY := Some []; format_plus7 := fun _ => [] |}
                    (post (quoted "{`messages`:[]}")))).
    + reflexivity.
    + now right.
Defined.

(** X2.  Once the handler has called the completion API: it rejects if the
    call rejects; an answer that is not [ok] or has no body gives 502 with
    the text of the answer, or [Upstream error] where the text cannot be
    read; an [ok] answer with a body gives status 200, the event-stream
    headers and the frames of the relay run over that body. *)
Theorem upstream_outcomes (env : Env) (req : Request) (sent : FetchRequest)
  (k : option Upstream -> outcome) :
  (ChatTs.handler env req = Fetch sent k ->
   k None = Throw /\
   (forall u, ok u = false \/ chunks u = None ->
      k (Some u) =
      Respond {| status := 502; headers := [];
                 body := Text (match text u with
                               | Some txt => txt
                               | None => lit "Upstream error"
                               end) |}) /\
   (forall u upstream, ok u = true -> chunks u = Some upstream ->
      k (Some u) =
      Respond {| status := 200; headers := ChatTs.sseHeaders;
                 body := EventStream
                           (ChatTs.relay (ChatTs.computeDatePlus7London env)
                              upstream) |})) /\
  (Part000.handler env req = Fetch sent k ->
   k None = Throw /\
   (forall u, ok u = false \/ chunks u = None ->
      k (Some u) =
      Respond {| status := 502; headers := [];
                 body := Text (match text u with
                               | Some txt => txt
                               | None => lit "Upstream error"
                               end) |}) /\
   (forall u upstream, ok u = true -> chunks u = Some upstream ->
      k (Some u) =
      Respond {| status := 200; headers := Part000.sseHeaders;
                 body := EventStream
                           (Part000.relay (Part000.computeDatePlus7London env)
                              upstream) |})).
Proof.
  split.
  - unfold ChatTs.handler.
    destruct (negb _); [discriminate|].
    destruct (OPENAI_API_KEY env) as [[|c key]|]; try discriminate.
    destruct (ChatTs.last_content _); [|discriminate].
    destruct (ChatTs.faq _); [discriminate|].
    intros H. apply Fetch_continuation in H. rewrite <- H.
    split; [reflexivity|]. split.
    + intros u [Hu|Hu]; rewrite Hu; [reflexivity|]. now destruct (ok u).
    + intros u up Hok Hc. now rewrite Hok, Hc.
  - unfold Part000.handler.
    destruct (negb _); [discriminate|].
    destruct (OPENAI_API_KEY env) as [[|c key]|]; try discriminate.
    destruct (Part000.last_content _); [|discriminate].
    destruct (Part000.faq _); [discriminate|].
    intros H. apply Fetch_continuation in H. rewrite <- H.
    split; [reflexivity|]. split.
    + intros u [Hu|Hu]; rewrite Hu; [reflexivity|]. now destruct (ok u).
    + intros u up Hok Hc. now rewrite Hok, Hc.
Qed.

Lemma upstream_outcomes_witness :
  match ChatTs.handler example_env (post (quoted "{`messages`:[]}")) with
  | Finish _ => False
  | Fetch _ k =>
    k None = Throw /\
    k (Some {| ok := false; chunks := Some []; text := Some (lit "quota") |}) =
    Respond {| status := 502; headers := []; body := Text (lit "quota") |}
  end.
Proof.
  destruct (ChatTs.handler example_env (post (quoted "{`messages`:[]}")))
    as [o|sent k] eqn:E.
  - apply (f_equal fetches) in E. vm_compute in E. discriminate E.
  - destruct (proj1 (upstream_outcomes example_env _ sent k) E) as (H1 & H2 & _).
    split; [exact H1|].
    apply (H2 {| ok := false; chunks := Some []; text := Some (lit "quota") |}).
    now left.
Defined.

Lemma chat_fetches (env : Env) (req : Request) (last : jsstring) :
  admitted env req ->
  ChatTs.last_content (ChatTs.messages_of (ChatTs.body_of req)) = Some last ->
  fetches (ChatTs.handler env req) =
  match ChatTs.faq last with Some _ => 0 | None => 1 end.
Proof.
  intros [Hm (key & Hk & Hne)] Hlast. unfold ChatTs.handler.
  rewrite Hm, str_eqb_refl, Hk. cbn [negb].
  destruct key; [contradiction|]. cbv zeta. rewrite Hlast.
  destruct (ChatTs.faq last); reflexivity.
Qed.

Lemma part_fetches (env : Env) (req : Request) (last : jsstring) :
  admitted env req ->
  Part000.last_content (Part000.messages_of (Part000.body_of req)) = Some last ->
  fetches (Part000.handler env req) =
  match Part000.faq last with Some _ => 0 | None => 1 end.
Proof.
  intros [Hm (key & Hk & Hne)] Hlast. unfold Part000.handler.
  rewrite Hm, str_eqb_refl, Hk. cbn [negb].
  destruct key; [contradiction|]. cbv zeta. rewrite Hlast.
  destruct (Part000.faq last); reflexivity.
Qed.

Lemma chat_answer (env : Env) (req : Request) (last text : jsstring) :
  admitted env req ->
  ChatTs.last_content (ChatTs.messages_of (ChatTs.body_of req)) = Some last ->
  ChatTs.faq last = Some text ->
  ChatTs.handler env req = chat_shortcut text.
Proof. intros Hadm Hlast Hfaq. now rewrite (admitted_chat Hadm), Hlast, Hfaq. Qed.

Lemma part_answer (env : Env) (req : Request) (last text : jsstring) :
  admitted env req ->
  Part000.last_content (Part000.messages_of (Part000.body_of req)) = Some last ->
  Part000.faq last = Some text ->
  Part000.handler env req = part_shortcut text.
Proof. intros Hadm Hlast Hfaq. now rewrite (admitted_part Hadm), Hlast, Hfaq. Qed.


(** X6.  For a request past the method and credential checks whose
    inspected text is [last]: the completion API is called exactly when no
    pattern matches [last]; a text that matches the time pattern gets the
    time answer whatever else it matches; and in [part_000] a text that
    matches neither the time nor the cost pattern but the visibility pattern
    gets the visibility answer. *)
Theorem shortcut_or_upstream (env : Env) (req : Request) (last : jsstring) :
  admitted env req ->
  (ChatTs.last_content (ChatTs.messages_of (ChatTs.body_of req)) = Some last ->
   (fetches (ChatTs.handler env req) = 1 <->
    RegExp.test ChatTs.faqTime last = false /\
    RegExp.test ChatTs.faqCost last = false) /\
   (RegExp.test ChatTs.faqTime last = true ->
    ChatTs.handler env req = chat_shortcut ChatTs.timeAnswer)) /\
  (Part000.last_content (Part000.messages_of (Part000.body_of req)) = Some last ->
   (fetches (Part000.handler env req) = 1 <->
    RegExp.test Part000.faqTime last = false /\
    RegExp.test Part000.faqCost last = false /\
    RegExp.test Part000.faqVisibility last = false) /\
   (RegExp.test Part000.faqTime last = true ->
    Part000.handler env req = part_shortcut Part000.timeAnswer) /\
   (RegExp.test Part000.faqTime last = false ->
    RegExp.test Part000.faqCost last = false ->
    RegExp.test Part000.faqVisibility last = true ->
    Part000.handler env req = part_shortcut Part000.visibilityAnswer)).
Proof.
  intros Hadm. split; intros Hlast.
  - split.
    + rewrite (chat_fetches Hadm Hlast). unfold ChatTs.faq.
      destruct (RegExp.test ChatTs.faqTime last);
        destruct (RegExp.test ChatTs.faqCost last); cbn [orb];
        split; try discriminate; try tauto; intros [? ?]; discriminate.
    + intros Ht. apply (chat_answer Hadm Hlast).
      unfold ChatTs.faq. now rewrite Ht.
  - split; [|split].
    + rewrite (part_fetches Hadm Hlast). unfold Part000.faq.
      destruct (RegExp.test Part000.faqTime last);
        destruct (RegExp.test Part000.faqCost last);
        destruct (RegExp.test Part000.faqVisibility last); cbn [orb];
        split; try discriminate; try tauto; intros (? & ? & ?); discriminate.
    + intros Ht. apply (part_answer Hadm Hlast).
      unfold Part000.faq. now rewrite Ht.
    + intros Ht Hc Hv. apply (part_answer Hadm Hlast).
      unfold Part000.faq. now rewrite Ht, Hc, Hv.
Qed.

Lemma shortcut_or_upstream_witness :
  Part000.handler example_env
    (post (quoted "{`messages`:[{`role`:`user`,`content`:`How will I track progress?`}]}"))
  = part_shortcut Part000.visibilityAnswer /\
  ChatTs.handler example_env
    (post (quoted "{`messages`:[{`role`:`user`,`content`:`When will the price list be ready?`}]}"))
  = chat_shortcut ChatTs.timeAnswer.
Proof.
  split.
  - destruct (shortcut_or_upstream (lit "how will i track progress?")
                (example_admitted
                   (quoted "{`messages`:[{`role`:`user`,`content`:`How will I track progress?`}]}")))
      as [_ H].
    destruct (H eq_refl) as (_ & _ & Hv).
    apply Hv; vm_compute; reflexivity.
  - destruct (shortcut_or_upstream (lit "when will the price list be ready?")
                (example_admitted
                   (quoted "{`messages`:[{`role`:`user`,`content`:`When will the price list be ready?`}]}")))
      as [H _].
    destruct (H eq_refl) as (_ & Ht).
    apply Ht; vm_compute; reflexivity.
Defined.

(** X7.  A last entry whose content is truthy and not a string (a number
    other than zero, [true], an array, an object) makes the handler reject,
    [toLowerCase] not being a function of such a value: no response is
    built and the completion API is not called. *)
Theorem non_text_content_throws (env : Env) (req : Request)
  (earlier : list jsvalue) (entry content : jsvalue) :
  admitted env req ->
  ChatTs.messages_of (ChatTs.body_of req) = earlier ++ [entry] ->
  get (Some entry) (lit "content") = Some content ->
  truthy (Some content) = true ->
  (forall s, content <> JString s) ->
  ChatTs.handler env req = Finish Throw /\
  Part000.handler env req = Finish Throw.
Proof.
  intros Hadm Hm Hc Ht Hs.
  assert (ChatTs.last_content (earlier ++ [entry]) = None) as E.
  { unfold ChatTs.last_content. rewrite map_app. cbn [map].
    rewrite last_snoc, Hc, Ht. destruct content; try reflexivity.
    now destruct (Hs s). }
  split.
  - now rewrite (admitted_chat Hadm), Hm, E.
  - rewrite (admitted_part Hadm).
    change (Part000.last_content (Part000.messages_of (Part000.body_of req)))
      with (ChatTs.last_content (ChatTs.messages_of (ChatTs.body_of req))).
    now rewrite Hm, E.
Qed.

Lemma non_text_content_throws_witness :
  ChatTs.handler example_env
    (post (quoted "{`messages`:[{`role`:`user`,`content`:[{`type`:`text`,`text`:`hello`}]}]}"))
  = Finish Throw /\
  Part000.handler example_env
    (post (quoted "{`messages`:[{`role`:`user`,`content`:[{`type`:`text`,`text`:`hello`}]}]}"))
  = Finish Throw.
Proof.
  apply (@non_text_content_throws example_env
           (post (quoted "{`messages`:[{`role`:`user`,`content`:[{`type`:`text`,`text`:`hello`}]}]}"))
           []
           (JObject [(lit "role", JString (lit "user"));
                     (lit "content",
                      JArray [JObject [(lit "type", JString (lit "text"));
                                       (lit "text", JString (lit "hello"))]])])
           (JArray [JObject [(lit "type", JString (lit "text"));
                             (lit "text", JString (lit "hello"))]])).
  - apply example_admitted.
  - reflexivity.
  - reflexivity.
  - reflexivity.
  - discriminate.
Defined.

Lemma messages_key_is_no_index : JSON.index_of_key (lit "messages") = None.
Proof. reflexivity. Qed.

Lemma model_key_is_no_index : JSON.index_of_key (lit "model") = None.
Proof. reflexivity. Qed.

(** X9.  A body that is JSON but not an object ([null], a boolean, a
    number, a string, an array) is handled as the empty object: no messages,
    the default model. *)
Theorem non_object_body_is_empty_input (env : Env) (req : Request) (b : jsvalue) :
  JSON.parse (req_body req) = Some b ->
  (forall props, b <> JObject props) ->
  ChatTs.handler env req =
  ChatTs.handler env {| req_method := req_method req; req_body := lit "{}" |} /\
  Part000.handler env req =
  Part000.handler env {| req_method := req_method req; req_body := lit "{}" |}.
Proof.
  intros Hp Hb.
  assert (ChatTs.messages_of b = [] /\
          ChatTs.model_of b = JString (lit "gpt-4o-mini")) as [Hms Hmo].
  { unfold ChatTs.messages_of, ChatTs.model_of, get.
    rewrite messages_key_is_no_index, model_key_is_no_index.
    destruct b; try (now split). now destruct (Hb props). }
  assert (ChatTs.body_of req = b) as EA
    by (unfold ChatTs.body_of; now rewrite Hp).
  split.
  - unfold ChatTs.handler. cbv zeta. rewrite EA, Hms, Hmo. reflexivity.
  - unfold Part000.handler. cbv zeta.
    change (Part000.body_of req) with (ChatTs.body_of req).
    change Part000.messages_of with ChatTs.messages_of.
    change Part000.model_of with ChatTs.model_of.
    rewrite EA, Hms, Hmo. reflexivity.
Qed.

Lemma non_object_body_is_empty_input_witness :
  ChatTs.handler example_env (post (quoted "[{`role`:`user`,`content`:`pricing`}]")) =
  ChatTs.handler example_env (post (lit "{}")) /\
  Part000.handler example_env (post (quoted "[{`role`:`user`,`content`:`pricing`}]")) =
  Part000.handler example_env (post (lit "{}")).
Proof.
  apply (@non_object_body_is_empty_input example_env
           (post (quoted "[{`role`:`user`,`content`:`pricing`}]"))
           (JArray [JObject [(lit "role", JString (lit "user"));
                             (lit "content", JString (lit "pricing"))]])).
  - reflexivity.
  - discriminate.
Defined.

(* ===================================================================== *)
(** * The date text *)
(* ===================================================================== *)

(** X10.  Where the platform writes a day with two digits as the plain day
    with at most one zero before it, and no plain day begins with a zero,
    the two files resolve the same date text: dropping the leading zero of
    the two-digit form gives the plain form. *)
Theorem date_texts_agree (env : Env) :
  format_plus7 env TwoDigit = format_plus7 env Numeric \/
  format_plus7 env TwoDigit = 48%N :: format_plus7 env Numeric ->
  (forall rest, format_plus7 env Numeric <> 48%N :: rest) ->
  ChatTs.computeDatePlus7London env = Part000.computeDatePlus7London env.
Proof.
  intros Hpad Hday.
  unfold ChatTs.computeDatePlus7London, Part000.computeDatePlus7London.
  destruct Hpad as [-> | ->].
  - unfold ChatTs.strip_leading_zero.
    destruct (format_plus7 env Numeric) as [|c r] eqn:E; [reflexivity|].
    destruct (N.eqb_spec c 48) as [->|_]; [|reflexivity].
    now destruct (Hday r).
  - reflexivity.
Qed.

Lemma date_texts_agree_witness :
  ChatTs.computeDatePlus7London example_env = lit "8 November 2026" /\
  Part000.computeDatePlus7London example_env = lit "8 November 2026".
Proof.
  assert (ChatTs.computeDatePlus7London example_env =
          Part000.computeDatePlus7London example_env) as E.
  { apply date_texts_agree.
    - right. reflexivity.
    - intros rest. discriminate. }
  split; [rewrite E|]; reflexivity.
Defined.

(* ===================================================================== *)
(** * White space around a payload *)
(* ===================================================================== *)

Lemma trimStart_spaces (a s : jsstring) :
  forallb is_space a = true -> trimStart (a ++ s) = trimStart s.
Proof.
  induction a as [|c a IH]; [reflexivity|].
  cbn [forallb app trimStart]. intros H.
  apply andb_true_iff in H as [Hc Ha]. rewrite Hc. now apply IH.
Qed.

Lemma trimStart_all_spaces (b : jsstring) :
  forallb is_space b = true -> trimStart b = [].
Proof.
  intros H. rewrite <- (app_nil_r b). now rewrite trimStart_spaces.
Qed.

Lemma trimStart_app (s b : jsstring) :
  trimStart s <> [] -> trimStart (s ++ b) = trimStart s ++ b.
Proof.
  induction s as [|c s IH]; [contradiction|].
  cbn [app trimStart]. destruct (is_space c); [exact IH|reflexivity].
Qed.

Lemma forallb_rev (A : Type) (p : A -> bool) (l : list A) :
  forallb p (rev l) = forallb p l.
Proof.
  induction l as [|x l IH]; [reflexivity|].
  cbn [rev forallb]. rewrite forallb_app, IH. cbn [forallb].
  rewrite andb_true_r. apply andb_comm.
Qed.

(** [trim] drops the white space around a text. *)
Lemma trim_spaces (a p b : jsstring) :
  forallb is_space a = true -> forallb is_space b = true ->
  trim (a ++ p ++ b) = trim p.
Proof.
  intros Ha Hb. unfold trim. rewrite trimStart_spaces by exact Ha.
  destruct (trimStart p) as [|c r] eqn:E.
  - assert (trimStart (p ++ b) = []) as ->; [|reflexivity].
    clear Ha. induction p as [|x p IH]; [now apply trimStart_all_spaces|].
    cbn [app trimStart] in *. destruct (is_space x); [now apply IH|discriminate].
  - rewrite trimStart_app by (rewrite E; discriminate).
    rewrite E, rev_app_distr. rewrite trimStart_spaces; [reflexivity|].
    now rewrite forallb_rev.
Qed.

Lemma startsWith_data_CR (line : jsstring) :
  startsWith (lit "data:") (line ++ [13%N]) = startsWith (lit "data:") line.
Proof.
  rewrite data_prefix_units.
  do 5 (destruct line as [|? line];
        [cbn [app startsWith]; rewrite ?andb_false_r; reflexivity|];
        cbn [app startsWith]; f_equal).
Qed.

Lemma classify_CR (line : jsstring) : classify (line ++ [13%N]) = classify line.
Proof.
  unfold classify. rewrite startsWith_data_CR.
  destruct (startsWith (lit "data:") line) eqn:E; [|reflexivity].
  apply startsWith_inv in E. rewrite E, <- app_assoc, !data_of_data_line.
  set (p := skipn (length (lit "data:")) line).
  change (p ++ [13%N]) with ([] ++ p ++ [13%N]).
  now rewrite trim_spaces.
Qed.

Lemma classify_spaces (a p b : jsstring) :
  forallb is_space a = true -> forallb is_space b = true ->
  classify (lit "data:" ++ a ++ p ++ b) = classify (lit "data:" ++ p).
Proof.
  intros Ha Hb. unfold classify.
  now rewrite !startsWith_app, !data_of_data_line, trim_spaces.
Qed.

(** X11.  A carriage return at the end of a line changes nothing, so an
    upstream with CR LF line ends is read like one with LF; and the white
    space around the payload of a [data:] line does not count. *)
Theorem line_ends_and_padding (dateValue : jsstring) (written : list jsstring) :
  (forall line,
      ChatTs.on_line dateValue written (line ++ [13%N]) =
      ChatTs.on_line dateValue written line /\
      Part000.on_line dateValue written (line ++ [13%N]) =
      Part000.on_line dateValue written line) /\
  (forall before payload after,
      forallb is_space before = true -> forallb is_space after = true ->
      ChatTs.on_line dateValue written (lit "data:" ++ before ++ payload ++ after) =
      ChatTs.on_line dateValue written (lit "data:" ++ payload) /\
      Part000.on_line dateValue written (lit "data:" ++ before ++ payload ++ after) =
      Part000.on_line dateValue written (lit "data:" ++ payload)).
Proof.
  split.
  - intros line. split.
    + rewrite (chat_on_line_app _ _ (line ++ [13%N])), (chat_on_line_app _ _ line).
      now rewrite !chat_line_frames, classify_CR.
    + rewrite (part_on_line_app _ _ (line ++ [13%N])), (part_on_line_app _ _ line).
      now rewrite !part_line_frames, classify_CR.
  - intros a p b Ha Hb. split.
    + rewrite (chat_on_line_app _ _ (lit "data:" ++ a ++ p ++ b)),
        (chat_on_line_app _ _ (lit "data:" ++ p)).
      now rewrite !chat_line_frames, classify_spaces.
    + rewrite (part_on_line_app _ _ (lit "data:" ++ a ++ p ++ b)),
        (part_on_line_app _ _ (lit "data:" ++ p)).
      now rewrite !part_line_frames, classify_spaces.
Qed.

Lemma line_ends_and_padding_witness :
  Part000.on_line (lit "8 November 2026") []
    (lit "data:" ++ [9%N; 32%N] ++ lit "[DONE]" ++ [32%N; 13%N]) = [sentinel].
Proof.
  etransitivity.
  - exact (proj2 (proj2 (line_ends_and_padding (lit "8 November 2026") [])
                    [9%N; 32%N] (lit "[DONE]") [32%N; 13%N] eq_refl eq_refl)).
  - reflexivity.
Defined.

(* ===================================================================== *)
(** * Patterns and the texts around a match *)
(* ===================================================================== *)

Lemma matches_at_start_more (r : RegExp.regex) (s b : jsstring) :
  RegExp.matches_at_start r s = true ->
  RegExp.matches_at_start r (s ++ b) = true.
Proof.
  revert r; induction s as [|c s IH]; intros r H.
  - cbn [RegExp.matches_at_start] in H. rewrite orb_false_r in H.
    destruct b; cbn [app RegExp.matches_at_start]; now rewrite H.
  - cbn [app RegExp.matches_at_start] in *.
    apply orb_true_iff in H as [H|H]; [now rewrite H|].
    rewrite (IH _ H). apply orb_true_r.
Qed.

Lemma test_unfold (r : RegExp.regex) (s : jsstring) :
  RegExp.test r s =
  RegExp.matches_at_start r s ||
  match s with [] => false | _ :: s' => RegExp.test r s' end.
Proof. destruct s; reflexivity. Qed.

Lemma test_after (r : RegExp.regex) (a s : jsstring) :
  RegExp.test r s = true -> RegExp.test r (a ++ s) = true.
Proof.
  intros H. induction a as [|c a IH]; [exact H|].
  cbn [app]. rewrite test_unfold, IH. apply orb_true_r.
Qed.

Lemma test_before (r : RegExp.regex) (s b : jsstring) :
  RegExp.test r s = true -> RegExp.test r (s ++ b) = true.
Proof.
  induction s as [|c s IH]; intros H.
  - rewrite test_unfold in H. rewrite orb_false_r in H.
    rewrite test_unfold.
    now rewrite (matches_at_start_more _ [] b H).
  - rewrite test_unfold in H. cbn [app]. rewrite test_unfold.
    apply orb_true_iff in H as [H|H].
    + pose proof (matches_at_start_more _ (c :: s) b H) as H'.
      cbn [app] in H'. now rewrite H'.
    + rewrite (IH H). apply orb_true_r.
Qed.

(** A text that holds a match is matched. *)
Lemma test_inside (r : RegExp.regex) (a w b : jsstring) :
  RegExp.test r w = true -> RegExp.test r (a ++ w ++ b) = true.
Proof. intros H. now apply test_after, test_before. Qed.

Lemma toLowerCase_app (a b : jsstring) :
  toLowerCase (a ++ b) = toLowerCase a ++ toLowerCase b.
Proof. apply flat_map_app. Qed.

Lemma chat_keywords_match :
  forallb (fun k => match ChatTs.faq k with Some _ => true | None => false end)
    chat_keywords = true.
Proof. vm_compute. reflexivity. Qed.

Lemma part_keywords_match :
  forallb (fun k => match Part000.faq k with Some _ => true | None => false end)
    part_keywords = true.
Proof. vm_compute. reflexivity. Qed.

Lemma chat_faq_inside (a w b : jsstring) :
  ChatTs.faq w <> None -> ChatTs.faq (a ++ w ++ b) <> None.
Proof.
  unfold ChatTs.faq.
  destruct (RegExp.test ChatTs.faqTime w) eqn:Et.
  - intros _. now rewrite (test_inside _ a w b Et).
  - destruct (RegExp.test ChatTs.faqCost w) eqn:Ec; [|now intros H].
    intros _. rewrite (test_inside _ a w b Ec), orb_true_r. discriminate.
Qed.

Lemma part_faq_inside (a w b : jsstring) :
  Part000.faq w <> None -> Part000.faq (a ++ w ++ b) <> None.
Proof.
  unfold Part000.faq.
  destruct (RegExp.test Part000.faqTime w) eqn:Et.
  - intros _. now rewrite (test_inside _ a w b Et).
  - destruct (RegExp.test Part000.faqCost w) eqn:Ec.
    + intros _. rewrite (test_inside _ a w b Ec), orb_true_r. discriminate.
    + destruct (RegExp.test Part000.faqVisibility w) eqn:Ev; [|now intros H].
      intros _. rewrite (test_inside _ a w b Ev), !orb_true_r. discriminate.
Qed.

Lemma toLowerCase_nonempty (w : jsstring) : toLowerCase w <> [] -> w <> [].
Proof. intros H ->. now apply H. Qed.

(** The answers of the shortcut responder come from its table. *)
Lemma chat_faq_table (last answer : jsstring) :
  ChatTs.faq last = Some answer ->
  In answer [ChatTs.timeAnswer; ChatTs.costAnswer].
Proof.
  unfold ChatTs.faq.
  destruct (RegExp.test ChatTs.faqTime last);
    destruct (RegExp.test ChatTs.faqCost last);
    cbv beta iota delta [orb]; intros H; try discriminate H;
    injection H as <-; [left|left|right; left]; reflexivity.
Qed.

Lemma part_faq_table (last answer : jsstring) :
  Part000.faq last = Some answer ->
  In answer [Part000.timeAnswer; Part000.costAnswer; Part000.visibilityAnswer].
Proof.
  unfold Part000.faq.
  destruct (RegExp.test Part000.faqTime last);
    destruct (RegExp.test Part000.faqCost last);
    destruct (RegExp.test Part000.faqVisibility last);
    cbv beta iota delta [orb]; intros H; try discriminate H;
    injection H as <-;
    [left|left|left|left|right; left|right; left|right; right; left];
    reflexivity.
Qed.

(** X12.  A last message whose text holds one of the key words, in any
    letter case and with any text around it, is answered by the shortcut
    responder: the response is the delta frame of one of the canned
    answers of the file followed by the sentinel, and the completion API
    is not called. *)
Theorem keyword_means_no_upstream_call (env : Env) (req : Request)
  (earlier : list jsvalue) (entry : jsvalue) (before word after : jsstring) :
  admitted env req ->
  ChatTs.messages_of (ChatTs.body_of req) = earlier ++ [entry] ->
  get (Some entry) (lit "content") = Some (JString (before ++ word ++ after)) ->
  (In (toLowerCase word) chat_keywords ->
   (exists answer,
       In answer [ChatTs.timeAnswer; ChatTs.costAnswer] /\
       ChatTs.handler env req = chat_shortcut answer) /\
   fetches (ChatTs.handler env req) = 0) /\
  (In (toLowerCase word) part_keywords ->
   (exists answer,
       In answer [Part000.timeAnswer; Part000.costAnswer;
                  Part000.visibilityAnswer] /\
       Part000.handler env req = part_shortcut answer) /\
   fetches (Part000.handler env req) = 0).
Proof.
  intros Hadm Hm Hc.
  assert (forall ks, In (toLowerCase word) ks -> ~ In [] ks ->
                     ChatTs.last_content (earlier ++ [entry]) =
                     Some (toLowerCase before ++ toLowerCase word
                             ++ toLowerCase after)) as Hlast.
  { intros ks Hin Hne. unfold ChatTs.last_content. rewrite map_app. cbn [map].
    rewrite last_snoc, Hc.
    assert (word <> []) as Hw.
    { apply toLowerCase_nonempty. intros E. rewrite E in Hin. contradiction. }
    destruct (before ++ word ++ after) eqn:E.
    - apply app_eq_nil in E as [_ E]. apply app_eq_nil in E as [E _].
      contradiction.
    - cbn [truthy]. rewrite <- E. now rewrite !toLowerCase_app. }
  assert (~ In [] chat_keywords /\ ~ In [] part_keywords) as [HneA HneB].
  { split; vm_compute; intros H;
      repeat (destruct H as [H|H]; [discriminate H|]); exact H. }
  split; intros Hin.
  - pose proof (Hlast _ Hin HneA) as Hl. rewrite <- Hm in Hl.
    pose proof chat_keywords_match as Hk. rewrite forallb_forall in Hk.
    specialize (Hk _ Hin).
    pose proof (@chat_faq_inside (toLowerCase before) (toLowerCase word)
                  (toLowerCase after)) as Hf.
    destruct (ChatTs.faq (toLowerCase word)); [|discriminate].
    destruct (ChatTs.faq (toLowerCase before ++ toLowerCase word
                            ++ toLowerCase after)) as [answer|] eqn:Hfaq;
      [|now destruct Hf].
    pose proof (@chat_answer env req _ answer Hadm Hl Hfaq) as E.
    split.
    + exists answer. split; [exact (chat_faq_table _ Hfaq)|exact E].
    + now rewrite E.
  - pose proof (Hlast _ Hin HneB) as Hl. rewrite <- Hm in Hl.
    change (ChatTs.last_content (ChatTs.messages_of (ChatTs.body_of req)))
      with (Part000.last_content (Part000.messages_of (Part000.body_of req)))
      in Hl.
    pose proof part_keywords_match as Hk. rewrite forallb_forall in Hk.
    specialize (Hk _ Hin).
    pose proof (@part_faq_inside (toLowerCase before) (toLowerCase word)
                  (toLowerCase after)) as Hf.
    destruct (Part000.faq (toLowerCase word)); [|discriminate].
    destruct (Part000.faq (toLowerCase before ++ toLowerCase word
                             ++ toLowerCase after)) as [answer|] eqn:Hfaq;
      [|now destruct Hf].
    pose proof (@part_answer env req _ answer Hadm Hl Hfaq) as E.
    split.
    + exists answer. split; [exact (part_faq_table _ Hfaq)|exact E].
    + now rewrite E.
Qed.

Lemma keyword_means_no_upstream_call_witness :
  (exists answer,
      In answer [ChatTs.timeAnswer; ChatTs.costAnswer] /\
      ChatTs.handler example_env
        (post (quoted "{`messages`:[{`role`:`user`,`content`:`We do not mind the COST at all`}]}"))
      = chat_shortcut answer) /\
  fetches
    (ChatTs.handler example_env
       (post (quoted "{`messages`:[{`role`:`user`,`content`:`We do not mind the COST at all`}]}")))
  = 0.
Proof.
  apply (proj1 (@keyword_means_no_upstream_call example_env
                  (post (quoted "{`messages`:[{`role`:`user`,`content`:`We do not mind the COST at all`}]}"))
                  []
                  (JObject [(lit "role", JString (lit "user"));
                            (lit "content",
                             JString (lit "We do not mind the COST at all"))])
                  (lit "We do not mind the ") (lit "COST") (lit " at all")
                  (example_admitted _) eq_refl eq_refl)).
  vm_compute. tauto.
Defined.

(* ===================================================================== *)
(** * Reading back what [JSON.stringify] wrote *)
(* ===================================================================== *)

Lemma scan_close (acc s : jsstring) :
  JSON.scan (JSON.InString acc) (34%N :: s) =
  JSON.emit (JSON.TString (rev acc)) (JSON.scan JSON.Between s).
Proof. reflexivity. Qed.

Lemma scan_backslash (acc s : jsstring) :
  JSON.scan (JSON.InString acc) (92%N :: s) = JSON.scan (JSON.InEscape acc) s.
Proof. reflexivity. Qed.

Lemma scan_plain (acc : jsstring) (c : code_unit) (s : jsstring) :
  c <> 34%N -> c <> 92%N -> (32 <= c)%N ->
  JSON.scan (JSON.InString acc) (c :: s) = JSON.scan (JSON.InString (c :: acc)) s.
Proof.
  intros H1 H2 H3. cbn [JSON.scan].
  apply N.eqb_neq in H1, H2. rewrite H1, H2.
  apply N.ltb_ge in H3. now rewrite H3.
Qed.

Lemma scan_escape (acc : jsstring) (e u : code_unit) (s : jsstring) :
  JSON.escape e = Some u ->
  JSON.scan (JSON.InEscape acc) (e :: s) = JSON.scan (JSON.InString (u :: acc)) s.
Proof. intros H. cbn [JSON.scan]. now rewrite H. Qed.

Lemma scan_u (acc s : jsstring) :
  JSON.scan (JSON.InEscape acc) (117%N :: s) =
  JSON.scan (JSON.InHex acc 0%N 4) s.
Proof. reflexivity. Qed.

Lemma scan_hex (acc : jsstring) (v : N) (n : nat) (c : code_unit) (d : N)
  (s : jsstring) :
  JSON.hex c = Some d ->
  JSON.scan (JSON.InHex acc v (S (S n))) (c :: s) =
  JSON.scan (JSON.InHex acc (v * 16 + d)%N (S n)) s.
Proof. intros H. cbn [JSON.scan]. now rewrite H. Qed.

Lemma scan_hex_last (acc : jsstring) (v : N) (c : code_unit) (d : N)
  (s : jsstring) :
  JSON.hex c = Some d ->
  JSON.scan (JSON.InHex acc v 1) (c :: s) =
  JSON.scan (JSON.InString ((v * 16 + d)%N :: acc)) s.
Proof. intros H. cbn [JSON.scan]. now rewrite H. Qed.

Lemma hex_of_hex_digit (d : N) : (d < 16)%N -> JSON.hex (JSON.hex_digit d) = Some d.
Proof.
  intros H. destruct d as [|p]; [reflexivity|].
  do 4 (destruct p as [p|p|]; try reflexivity); lia.
Qed.

(** A [\u] escape is read back as the code unit it was written for. *)
Lemma scan_unicode_escape (acc : jsstring) (c : code_unit) (s : jsstring) :
  (c < 65536)%N ->
  JSON.scan (JSON.InString acc) (JSON.unicode_escape c ++ s) =
  JSON.scan (JSON.InString (c :: acc)) s.
Proof.
  intros Hc. unfold JSON.unicode_escape. cbn [app].
  rewrite scan_backslash, scan_u.
  assert (c / 4096 < 16)%N as H3 by (apply N.Div0.div_lt_upper_bound; lia).
  assert (c / 256 mod 16 < 16)%N as H2 by (apply N.mod_lt; lia).
  assert (c / 16 mod 16 < 16)%N as H1 by (apply N.mod_lt; lia).
  assert (c mod 16 < 16)%N as H0 by (apply N.mod_lt; lia).
  rewrite scan_hex with (d := (c / 4096)%N) by now apply hex_of_hex_digit.
  rewrite scan_hex with (d := (c / 256 mod 16)%N) by now apply hex_of_hex_digit.
  rewrite scan_hex with (d := (c / 16 mod 16)%N) by now apply hex_of_hex_digit.
  rewrite scan_hex_last with (d := (c mod 16)%N) by now apply hex_of_hex_digit.
  pose proof (N.div_mod c 16 ltac:(lia)) as E0.
  pose proof (N.div_mod (c / 16) 16 ltac:(lia)) as E1.
  pose proof (N.div_mod (c / 256) 16 ltac:(lia)) as E2.
  assert (c / 16 / 16 = c / 256)%N as D1 by (rewrite N.Div0.div_div; reflexivity).
  assert (c / 256 / 16 = c / 4096)%N as D2 by (rewrite N.Div0.div_div; reflexivity).
  rewrite D1 in E1. rewrite D2 in E2.
  assert (((((0 * 16 + c / 4096) * 16 + (c / 256) mod 16) * 16
            + (c / 16) mod 16) * 16 + c mod 16)%N = c) as -> by lia.
  reflexivity.
Qed.

Lemma rev_push (A : Type) (c : A) (acc t : list A) :
  rev (c :: acc) ++ t = rev acc ++ c :: t.
Proof. cbn [rev]. now rewrite <- app_assoc. Qed.

Lemma is_high_range (c : code_unit) :
  JSON.is_high c = true -> (55296 <= c <= 56319)%N.
Proof.
  unfold JSON.is_high. intros H. apply andb_true_iff in H as [H1 H2].
  apply N.leb_le in H1, H2. lia.
Qed.

Lemma is_low_range (c : code_unit) :
  JSON.is_low c = true -> (56320 <= c <= 57343)%N.
Proof.
  unfold JSON.is_low. intros H. apply andb_true_iff in H as [H1 H2].
  apply N.leb_le in H1, H2. lia.
Qed.

(** The scanner reads a quoted text back, code unit for code unit. *)
Lemma scan_quote_units (n : nat) (t : jsstring) :
  length t <= n ->
  forall acc rest,
    JSON.scan (JSON.InString acc) (JSON.quote_units t ++ 34%N :: rest) =
    JSON.emit (JSON.TString (rev acc ++ t)) (JSON.scan JSON.Between rest).
Proof.
  revert t; induction n as [|n IH]; intros t Hn acc rest.
  { destruct t; [|simpl in Hn; lia]. cbn [JSON.quote_units app].
    now rewrite scan_close, app_nil_r. }
  destruct t as [|c t].
  { cbn [JSON.quote_units app]. now rewrite scan_close, app_nil_r. }
  assert (length t <= n) as Ht by (simpl in Hn; lia).
  cbn [JSON.quote_units].
  destruct (N.eqb_spec c 34) as [->|H34].
  { cbn [app]. rewrite scan_backslash, scan_escape with (u := 34%N) by reflexivity.
    now rewrite IH, rev_push. }
  destruct (N.eqb_spec c 92) as [->|H92].
  { cbn [app]. rewrite scan_backslash, scan_escape with (u := 92%N) by reflexivity.
    now rewrite IH, rev_push. }
  destruct (N.eqb_spec c 8) as [->|H8].
  { cbn [app]. rewrite scan_backslash, scan_escape with (u := 8%N) by reflexivity.
    now rewrite IH, rev_push. }
  destruct (N.eqb_spec c 9) as [->|H9].
  { cbn [app]. rewrite scan_backslash, scan_escape with (u := 9%N) by reflexivity.
    now rewrite IH, rev_push. }
  destruct (N.eqb_spec c 10) as [->|H10].
  { cbn [app]. rewrite scan_backslash, scan_escape with (u := 10%N) by reflexivity.
    now rewrite IH, rev_push. }
  destruct (N.eqb_spec c 12) as [->|H12].
  { cbn [app]. rewrite scan_backslash, scan_escape with (u := 12%N) by reflexivity.
    now rewrite IH, rev_push. }
  destruct (N.eqb_spec c 13) as [->|H13].
  { cbn [app]. rewrite scan_backslash, scan_escape with (u := 13%N) by reflexivity.
    now rewrite IH, rev_push. }
  destruct (N.ltb_spec c 32) as [H32|H32].
  { rewrite <- app_assoc, scan_unicode_escape by lia.
    now rewrite IH, rev_push. }
  destruct (JSON.is_high c) eqn:Hh.
  { apply is_high_range in Hh. destruct t as [|d t].
    - rewrite scan_unicode_escape by lia. now rewrite scan_close.
    - destruct (JSON.is_low d) eqn:Hl.
      + apply is_low_range in Hl. cbn [app].
        rewrite !scan_plain by lia.
        rewrite IH by (simpl in Ht; lia). now rewrite !rev_push.
      + rewrite <- app_assoc, scan_unicode_escape by lia.
        now rewrite IH, rev_push. }
  destruct (JSON.is_low c) eqn:Hl.
  { apply is_low_range in Hl.
    rewrite <- app_assoc, scan_unicode_escape by lia.
    now rewrite IH, rev_push. }
  cbn [app]. rewrite scan_plain by assumption. now rewrite IH, rev_push.
Qed.

Lemma scan_quote (t rest : jsstring) :
  JSON.scan JSON.Between (JSON.quote t ++ rest) =
  JSON.emit (JSON.TString t) (JSON.scan JSON.Between rest).
Proof.
  unfold JSON.quote. cbn [app].
  change (JSON.scan JSON.Between (QUOTE :: (JSON.quote_units t ++ [QUOTE]) ++ rest))
    with (JSON.scan (JSON.InString []) ((JSON.quote_units t ++ [QUOTE]) ++ rest)).
  rewrite <- app_assoc. cbn [app].
  now rewrite (@scan_quote_units (length t) t (le_n _)).
Qed.

Lemma stringify_delta_event (t : jsstring) :
  JSON.stringify (ChatTs.delta_event t) =
  [123; 34; 100; 101; 108; 116; 97; 34; 58]%N ++ JSON.quote t ++ [125%N].
Proof. reflexivity. Qed.

(** The payload of a delta frame is JSON for the object it was made from. *)
Lemma parse_delta_event (t : jsstring) :
  JSON.parse (JSON.stringify (ChatTs.delta_event t)) = Some (ChatTs.delta_event t).
Proof.
  rewrite stringify_delta_event. unfold JSON.parse.
  change (JSON.scan JSON.Between
            ([123; 34; 100; 101; 108; 116; 97; 34; 58]%N
               ++ JSON.quote t ++ [125%N]))
    with (JSON.emit JSON.TLBrace
            (JSON.emit (JSON.TString (lit "delta"))
               (JSON.emit JSON.TColon
                  (JSON.scan JSON.Between (JSON.quote t ++ [125%N]))))).
  rewrite scan_quote. reflexivity.
Qed.

Lemma trim_tight (c : code_unit) (mid : jsstring) (d : code_unit) :
  is_space c = false -> is_space d = false ->
  trim (c :: mid ++ [d]) = c :: mid ++ [d].
Proof.
  intros Hc Hd. unfold trim. cbn [trimStart]. rewrite Hc.
  change (c :: mid ++ [d]) with ((c :: mid) ++ [d]).
  rewrite rev_app_distr. cbn [rev app trimStart]. rewrite Hd.
  change (d :: rev mid ++ [c]) with ([d] ++ rev (c :: mid)).
  rewrite rev_app_distr, rev_involutive. reflexivity.
Qed.

Lemma string_delta_of_event (c : code_unit) (t : jsstring) :
  string_delta (ChatTs.delta_event (c :: t)) = Some (c :: t).
Proof. reflexivity. Qed.

Lemma stringify_delta_event_shape (t : jsstring) :
  JSON.stringify (ChatTs.delta_event t) =
  123%N :: ([34; 100; 101; 108; 116; 97; 34; 58]%N ++ JSON.quote t) ++ [125%N].
Proof. rewrite stringify_delta_event. reflexivity. Qed.

Lemma classify_delta_frame (c : code_unit) (t : jsstring) :
  classify (lit "data: " ++ JSON.stringify (ChatTs.delta_event (c :: t))) =
  Delta (c :: t).
Proof.
  assert (lit "data: " ++ JSON.stringify (ChatTs.delta_event (c :: t)) =
          lit "data:" ++ [32%N]
            ++ JSON.stringify (ChatTs.delta_event (c :: t)) ++ []) as ->
    by (rewrite app_nil_r; reflexivity).
  rewrite classify_spaces by reflexivity.
  unfold classify. rewrite startsWith_app, data_of_data_line. cbn [negb].
  rewrite stringify_delta_event_shape, trim_tight by reflexivity.
  rewrite <- stringify_delta_event_shape.
  destruct (str_eqb (JSON.stringify (ChatTs.delta_event (c :: t))) DONE) eqn:E.
  - apply str_eqb_eq in E. exfalso. revert E. apply stringify_not_DONE.
    discriminate.
  - now rewrite parse_delta_event, string_delta_of_event.
Qed.

(** X13.  A delta frame is [data: ], the JSON text of the object
    [{ delta: text }] and an empty line: its payload parses back to that
    object, so two frames are equal only for equal texts; and read as an
    upstream line by the rule of the relay itself, the frame is a delta
    line with the same text.  This holds for the frames of the shortcut
    responder as for those of the relay. *)
Theorem delta_frame_round_trip (text : jsstring) :
  (exists payload,
      ChatTs.sseLine (ChatTs.delta_event text) = lit "data: " ++ payload ++ [LF; LF] /\
      Part000.sseLine (Part000.delta_event text) = lit "data: " ++ payload ++ [LF; LF] /\
      JSON.parse payload = Some (JObject [(lit "delta", JString text)]) /\
      (text <> [] -> classify (lit "data: " ++ payload) = Delta text)) /\
  (forall text',
      ChatTs.sseLine (ChatTs.delta_event text) =
      ChatTs.sseLine (ChatTs.delta_event text') ->
      text = text').
Proof.
  split.
  - exists (JSON.stringify (ChatTs.delta_event text)).
    split; [reflexivity|]. split; [reflexivity|].
    split; [apply parse_delta_event|].
    intros Hne. destruct text as [|c t]; [contradiction|].
    apply classify_delta_frame.
  - intros text' E. unfold ChatTs.sseLine in E.
    cbn [ChatTs.delta_event] in E.
    apply app_inv_head, app_inv_tail in E.
    pose proof (parse_delta_event text) as P.
    change (JSON.stringify (JObject [(lit "delta", JString text)]))
      with (JSON.stringify (ChatTs.delta_event text)) in E.
    rewrite E, parse_delta_event in P. now injection P.
Qed.

Lemma delta_frame_round_trip_witness :
  classify
    (quoted "data: {`delta`:`She said \`8 November\`\nand left`}") =
  Delta (lit "She said " ++ [QUOTE] ++ lit "8 November" ++ [QUOTE; LF]
           ++ lit "and left").
Proof.
  destruct (delta_frame_round_trip
              (lit "She said " ++ [QUOTE] ++ lit "8 November" ++ [QUOTE; LF]
                 ++ lit "and left")) as [(payload & E & _ & _ & H) _].
  apply app_inv_head, app_inv_tail in E. subst payload.
  apply H. discriminate.
Defined.

(* ===================================================================== *)
(** * Frames of one line *)
(* ===================================================================== *)

Lemma hex_digit_printable (d : N) : (32 <= JSON.hex_digit d)%N.
Proof. unfold JSON.hex_digit. destruct (d <? 10)%N; lia. Qed.

Lemma unicode_escape_printable (c : code_unit) :
  Forall (fun u => (32 <= u)%N) (JSON.unicode_escape c).
Proof.
  unfold JSON.unicode_escape.
  repeat constructor; try lia; apply hex_digit_printable.
Qed.

(** A quoted text has no code unit below 32 in it. *)
Lemma quote_units_printable (n : nat) (t : jsstring) :
  length t <= n -> Forall (fun u => (32 <= u)%N) (JSON.quote_units t).
Proof.
  revert t; induction n as [|n IH]; intros t Hn.
  { destruct t; [constructor|simpl in Hn; lia]. }
  destruct t as [|c t]; [constructor|].
  assert (length t <= n) as Ht by (simpl in Hn; lia).
  pose proof (IH t Ht) as Hrest.
  cbn [JSON.quote_units].
  repeat match goal with
         | |- context [if (c =? ?k)%N then _ else _] =>
           destruct (c =? k)%N;
           [apply Forall_app; split; [repeat constructor; lia|exact Hrest]|]
         end.
  destruct (N.ltb_spec c 32) as [H32|H32].
  { apply Forall_app; split; [apply unicode_escape_printable|exact Hrest]. }
  destruct (JSON.is_high c) eqn:Hh.
  { destruct t as [|d t]; [apply unicode_escape_printable|].
    destruct (JSON.is_low d) eqn:Hl.
    - apply is_low_range in Hl. constructor; [exact H32|].
      constructor; [lia|]. apply IH. simpl in Ht. lia.
    - apply Forall_app; split; [apply unicode_escape_printable|exact Hrest]. }
  destruct (JSON.is_low c).
  { apply Forall_app; split; [apply unicode_escape_printable|exact Hrest]. }
  constructor; assumption.
Qed.

Lemma delta_frame_single_line (t : jsstring) :
  single_line_frame (ChatTs.sseLine (ChatTs.delta_event t)).
Proof.
  exists (JSON.stringify (ChatTs.delta_event t)). split; [reflexivity|].
  rewrite stringify_delta_event. unfold JSON.quote.
  repeat (apply Forall_app; split); try (repeat constructor; unfold QUOTE; lia).
  apply (@quote_units_printable (length t) t (le_n _)).
Qed.

Lemma sentinel_single_line : single_line_frame sentinel.
Proof.
  exists DONE. split; [reflexivity|].
  change DONE with [91; 68; 79; 78; 69; 93]%N. repeat constructor; lia.
Qed.

Lemma Forall_flat_map (A B : Type) (P : B -> Prop) (f : A -> list B)
  (l : list A) :
  (forall x, Forall P (f x)) -> Forall P (flat_map f l).
Proof.
  intros H. induction l as [|x l IH]; [constructor|].
  cbn [flat_map]. apply Forall_app. now split.
Qed.

(** X14.  Every frame of a [part_000] run is an event of one line: [data: ],
    a payload in which no code unit is below 32, so that it holds neither a
    line feed nor a carriage return, and an empty line.  (Code units from
    127 on are written as they are: nothing is said about them.)  So is
    every frame of a [chat.ts] run in which no line of another shape is
    forwarded; but [chat.ts] forwards a JSON string as its raw text, and a
    line feed in that text breaks the frame in two. *)
Theorem frames_are_single_line (dateValue : jsstring) (upstream : list jsstring) :
  Forall single_line_frame (Part000.relay dateValue upstream) /\
  (Forall (fun line => other_shape line = false)
     (complete_lines (concat upstream)) ->
   Forall single_line_frame (ChatTs.relay dateValue upstream)) /\
  ~ Forall single_line_frame
      (ChatTs.relay dateValue [quoted "data: `a\nb`" ++ [LF]]).
Proof.
  assert (forall d, Forall single_line_frame
                      match d with
                      | Some t =>
                        [ChatTs.sseLine (ChatTs.delta_event (ChatTs.patched dateValue t))]
                      | None => []
                      end) as Hflush.
  { intros [t|]; repeat constructor. apply delta_frame_single_line. }
  split; [|split].
  - rewrite part_frames_by_kind.
    repeat (apply Forall_app; split).
    + apply Forall_flat_map. intros l.
      destruct (classify l); repeat constructor.
      * apply sentinel_single_line.
      * apply delta_frame_single_line.
    + destruct (drain_delta _); repeat constructor.
      apply delta_frame_single_line.
    + repeat constructor. apply sentinel_single_line.
  - intros Hno. rewrite chat_frames_by_kind.
    repeat (apply Forall_app; split).
    + induction Hno as [|l ls Hl Hls IH]; [constructor|].
      cbn [flat_map]. apply Forall_app. split; [|exact IH].
      unfold other_shape in Hl.
      destruct (classify l); repeat constructor; try discriminate.
      * apply sentinel_single_line.
      * apply delta_frame_single_line.
    + apply Hflush.
    + repeat constructor. apply sentinel_single_line.
  - intros H.
    assert (ChatTs.relay dateValue [quoted "data: `a\nb`" ++ [LF]] =
            [lit "data: " ++ [97; 10; 98]%N ++ [LF; LF]; sentinel]) as E.
    { rewrite chat_frames_by_kind. reflexivity. }
    rewrite E in H. apply Forall_inv in H. destruct H as (p & Hp & Hall).
    apply app_inv_head, app_inv_tail in Hp. subst p.
    apply Forall_inv_tail, Forall_inv in Hall. lia.
Qed.

Lemma frames_are_single_line_witness :
  Forall single_line_frame
    (ChatTs.relay (lit "8 November 2026")
       [quoted "data: {`delta`:`line one\nline two`}" ++ [LF]]).
Proof.
  apply (proj1 (proj2 (frames_are_single_line (lit "8 November 2026")
                         [quoted "data: {`delta`:`line one\nline two`}" ++ [LF]]))).
  repeat constructor.
Defined.

(* ===================================================================== *)
(** * Runs put together *)
(* ===================================================================== *)

Lemma residual_after_LF (p : jsstring) : residual (p ++ [LF]) = [].
Proof.
  rewrite residual_app.
  rewrite residual_line by apply residual_has_no_LF.
  reflexivity.
Qed.

Lemma ends_at_boundary (pre : jsstring) :
  pre = [] \/ (exists p, pre = p ++ [LF]) -> residual pre = [].
Proof. intros [->|[p ->]]; [reflexivity|apply residual_after_LF]. Qed.

(** X15.  At a line boundary a run splits: the frames for an upstream that
    continues after a complete line are the frames written for the first
    part, without its closing sentinel, followed by the run of the rest. *)
Theorem runs_compose_at_line_ends (dateValue pre post : jsstring) :
  pre = [] \/ (exists p, pre = p ++ [LF]) ->
  ChatTs.relay dateValue [pre ++ post] =
  removelast (ChatTs.relay dateValue [pre]) ++ ChatTs.relay dateValue [post] /\
  Part000.relay dateValue [pre ++ post] =
  removelast (Part000.relay dateValue [pre]) ++ Part000.relay dateValue [post].
Proof.
  intros Hpre. apply ends_at_boundary in Hpre.
  assert (drain_delta [] = None) as Hd by reflexivity.
  split.
  - rewrite !chat_relay_frames, !concat_single.
    rewrite complete_lines_boundary, residual_boundary by assumption.
    rewrite Hpre, !chat_flush_frames, Hd. cbn [app].
    rewrite removelast_last, flat_map_app, <- app_assoc. reflexivity.
  - rewrite !part_relay_frames, !concat_single.
    rewrite complete_lines_boundary, residual_boundary by assumption.
    rewrite Hpre, !part_flush_frames, Hd. cbn [app].
    rewrite removelast_last, flat_map_app, <- app_assoc. reflexivity.
Qed.

Lemma runs_compose_at_line_ends_witness :
  Part000.relay (lit "8 November 2026")
    [(quoted "data: {`delta`:`a`}" ++ [LF]) ++ quoted "data: {`delta`:`b`}" ++ [LF]] =
  removelast
    (Part000.relay (lit "8 November 2026") [quoted "data: {`delta`:`a`}" ++ [LF]])
  ++ Part000.relay (lit "8 November 2026") [quoted "data: {`delta`:`b`}" ++ [LF]].
Proof.
  apply (proj2 (@runs_compose_at_line_ends (lit "8 November 2026")
                  (quoted "data: {`delta`:`a`}" ++ [LF])
                  (quoted "data: {`delta`:`b`}" ++ [LF])
                  (or_intror (ex_intro _ (quoted "data: {`delta`:`a`}") eq_refl)))).
Defined.

Lemma sseLine_no_LF_inside (t : jsstring) :
  ~ In LF (lit "data: " ++ JSON.stringify (ChatTs.delta_event t)).
Proof.
  destruct (delta_frame_single_line t) as (p & Hp & Hall).
  apply app_inv_head, app_inv_tail in Hp. subst p.
  intros Hin. apply in_app_or in Hin as [Hin|Hin].
  - change (lit "data: ") with [100; 97; 116; 97; 58; 32]%N in Hin.
    repeat (destruct Hin as [Hin|Hin]; [discriminate Hin|]). exact Hin.
  - rewrite Forall_forall in Hall. specialize (Hall _ Hin). unfold LF in Hall. lia.
Qed.

(** X16.  A delta frame with a non-empty text free of the date token, given
    to the relay as an upstream of its own, comes out as it is, followed by
    the sentinel: the relay reads what it writes.  The answer of the
    shortcut responder is thus the run over the upstream that carries the
    canned text as its only event. *)
Theorem relay_reads_its_own_frames (dateValue text : jsstring) :
  text <> [] -> token_free text ->
  ChatTs.relay dateValue [ChatTs.sseLine (ChatTs.delta_event text)] =
  [ChatTs.sseLine (ChatTs.delta_event text); sentinel] /\
  Part000.relay dateValue [Part000.sseLine (Part000.delta_event text)] =
  [Part000.sseLine (Part000.delta_event text); sentinel].
Proof.
  intros Hne Hfree. destruct text as [|c t]; [contradiction|].
  assert (ChatTs.sseLine (ChatTs.delta_event (c :: t)) =
          (lit "data: " ++ JSON.stringify (ChatTs.delta_event (c :: t)))
            ++ LF :: [] ++ LF :: []) as E
    by (unfold ChatTs.sseLine; now rewrite <- app_assoc).
  pose proof (@sseLine_no_LF_inside (c :: t)) as HLF.
  assert (~ In LF (@nil code_unit)) as HLF0 by (intros []).
  assert (classify [] = Ignored) as Hk0 by reflexivity.
  assert (drain_delta [] = None) as Hd by reflexivity.
  unfold token_free in Hfree.
  split.
  - rewrite chat_relay_frames, concat_single. rewrite E at 1 2.
    rewrite complete_lines_line, residual_line by exact HLF.
    rewrite complete_lines_line, residual_line by exact HLF0.
    cbn [flat_map complete_lines lines removelast residual last app].
    rewrite chat_flush_frames, Hd, !chat_line_frames, Hk0, classify_delta_frame.
    unfold ChatTs.patched. rewrite Hfree. reflexivity.
  - change (Part000.sseLine (Part000.delta_event (c :: t)))
      with (ChatTs.sseLine (ChatTs.delta_event (c :: t))).
    rewrite part_relay_frames, concat_single. rewrite E at 1 2.
    rewrite complete_lines_line, residual_line by exact HLF.
    rewrite complete_lines_line, residual_line by exact HLF0.
    cbn [flat_map complete_lines lines removelast residual last app].
    rewrite part_flush_frames, Hd, !part_line_frames, Hk0, classify_delta_frame.
    unfold Part000.patched. rewrite Hfree. reflexivity.
Qed.

Lemma relay_reads_its_own_frames_witness :
  Finish (Respond (Part000.stream
                     (Part000.relay (lit "8 November 2026")
                        [Part000.sseLine (Part000.delta_event Part000.costAnswer)])))
  = part_shortcut Part000.costAnswer.
Proof.
  unfold part_shortcut.
  rewrite (proj2 (@relay_reads_its_own_frames (lit "8 November 2026")
                    Part000.costAnswer ltac:(discriminate) eq_refl)).
  reflexivity.
Defined.

(* ===================================================================== *)
(** * Events and the frames written for them *)
(* ===================================================================== *)

Lemma delta_frame_chat (t : jsstring) :
  ChatTs.sseLine (ChatTs.delta_event t) = delta_frame t.
Proof. reflexivity. Qed.

Lemma delta_frame_part (t : jsstring) :
  Part000.sseLine (Part000.delta_event t) = delta_frame t.
Proof. reflexivity. Qed.

(** The delta the handler reads from an event that carries a text. *)
Lemma event_delta (json : jsvalue) (d : jsstring) :
  event_carries json d -> ChatTs.delta_of json = Some (JString d).
Proof.
  unfold event_carries, nested_place, flat_place, ChatTs.delta_of.
  intros [H|[[H|H] H']]; rewrite H; cbn [nullish];
    [reflexivity|exact H'|exact H'].
Qed.

Lemma parse_nothing : JSON.parse [] = None.
Proof. reflexivity. Qed.

Lemma classify_event (payload : jsstring) (json : jsvalue) (d : jsstring) :
  JSON.parse (trim payload) = Some json ->
  event_carries json d -> d <> [] ->
  classify (lit "data:" ++ payload) = Delta d.
Proof.
  intros Hp Hc Hne. exact (@classify_delta payload json d Hp (@event_delta json d Hc) Hne).
Qed.

Lemma drain_event (buffer : jsstring) (json : jsvalue) (d : jsstring) :
  JSON.parse buffer = Some json ->
  event_carries json d -> d <> [] ->
  drain_delta buffer = Some d.
Proof.
  intros Hp Hc Hne. unfold drain_delta.
  destruct buffer as [|c buffer]; [rewrite parse_nothing in Hp; discriminate|].
  rewrite Hp. unfold string_delta. rewrite (@event_delta json d Hc).
  destruct d; [contradiction|reflexivity].
Qed.

Lemma join_parts_nonempty (sep : jsstring) (parts : list jsstring) :
  join sep parts <> [] -> parts <> [].
Proof. intros H E. apply H. now rewrite E. Qed.

Lemma chat_patched_parts (dv : jsstring) (parts : list jsstring) :
  parts <> [] -> Forall token_free parts ->
  ChatTs.patched dv (join dateToken parts) = join dv parts.
Proof. intros Hne Hfree. now rewrite chat_patched, split_join. Qed.

Lemma part_patched_parts (dv : jsstring) (parts : list jsstring) :
  no_dollar dv -> parts <> [] -> Forall token_free parts ->
  Part000.patched dv (join dateToken parts) = join dv parts.
Proof. intros Hd Hne Hfree. now rewrite part_patched, split_join. Qed.

Lemma patched_token_free (dv d : jsstring) :
  token_free d -> ChatTs.patched dv d = d /\ Part000.patched dv d = d.
Proof.
  unfold token_free, ChatTs.patched, Part000.patched. intros H.
  now rewrite H.
Qed.

(** What the loop body and the drain step write for an event with the
    delta [d]. *)
Lemma chat_event_line (dv : jsstring) (payload : jsstring) (json : jsvalue)
  (d : jsstring) (written : list jsstring) :
  JSON.parse (trim payload) = Some json ->
  event_carries json d -> d <> [] ->
  ChatTs.on_line dv written (lit "data:" ++ payload) =
  written ++ [delta_frame (ChatTs.patched dv d)].
Proof.
  intros Hp Hc Hne.
  rewrite chat_on_line_app, chat_line_frames, (@classify_event payload json d Hp Hc Hne).
  now rewrite delta_frame_chat.
Qed.

Lemma part_event_line (dv : jsstring) (payload : jsstring) (json : jsvalue)
  (d : jsstring) (written : list jsstring) :
  JSON.parse (trim payload) = Some json ->
  event_carries json d -> d <> [] ->
  Part000.on_line dv written (lit "data:" ++ payload) =
  written ++ [delta_frame (Part000.patched dv d)].
Proof.
  intros Hp Hc Hne.
  rewrite part_on_line_app, part_line_frames, (@classify_event payload json d Hp Hc Hne).
  now rewrite delta_frame_part.
Qed.

Lemma chat_event_flush (dv : jsstring) (buffer : jsstring) (json : jsvalue)
  (d : jsstring) (written : list jsstring) :
  JSON.parse buffer = Some json ->
  event_carries json d -> d <> [] ->
  ChatTs.flush dv {| ChatTs.buffer := buffer; ChatTs.written := written |} =
  written ++ [delta_frame (ChatTs.patched dv d)].
Proof.
  intros Hp Hc Hne.
  rewrite chat_flush_app, chat_flush_frames, (@drain_event buffer json d Hp Hc Hne).
  now rewrite delta_frame_chat.
Qed.

Lemma part_event_flush (dv : jsstring) (buffer : jsstring) (json : jsvalue)
  (d : jsstring) (written : list jsstring) :
  JSON.parse buffer = Some json ->
  event_carries json d -> d <> [] ->
  Part000.flush dv {| Part000.buffer := buffer; Part000.written := written |} =
  written ++ [delta_frame (Part000.patched dv d)].
Proof.
  intros Hp Hc Hne.
  rewrite part_flush_app, part_flush_frames, (@drain_event buffer json d Hp Hc Hne).
  now rewrite delta_frame_part.
Qed.

(** ** A complete line inside an upstream *)

Lemma concat_around (before after : list jsstring) (chunk1 chunk2 : jsstring) :
  concat (before ++ chunk1 :: chunk2 :: after) =
  (concat before ++ chunk1) ++ chunk2 ++ concat after.
Proof. rewrite concat_app. cbn [concat]. now rewrite app_assoc. Qed.

Lemma chat_run_of_boundary (dv pre : jsstring) :
  residual pre = [] ->
  removelast (ChatTs.relay dv [pre]) =
  flat_map (ChatTs.on_line dv []) (complete_lines pre).
Proof.
  intros H. rewrite chat_relay_frames, concat_single, H, chat_flush_frames.
  rewrite drain_nothing. cbn [app]. apply removelast_last.
Qed.

Lemma part_run_of_boundary (dv pre : jsstring) :
  residual pre = [] ->
  removelast (Part000.relay dv [pre]) =
  flat_map (Part000.on_line dv []) (complete_lines pre).
Proof.
  intros H. rewrite part_relay_frames, concat_single, H, part_flush_frames.
  rewrite drain_nothing. cbn [app]. apply removelast_last.
Qed.

(** The run over a text with a complete line in it, at a line boundary:
    the frames of what came before, those of the line, and the run over
    what follows. *)
Lemma chat_run_around_line (dv : jsstring) (cs : list jsstring)
  (pre line post : jsstring) :
  concat cs = pre ++ line ++ LF :: post ->
  residual pre = [] -> ~ In LF line ->
  ChatTs.relay dv cs =
  removelast (ChatTs.relay dv [pre])
  ++ ChatTs.on_line dv [] line ++ ChatTs.relay dv [post].
Proof.
  intros E Hpre HLF.
  rewrite (@chat_run_of_boundary dv pre Hpre).
  rewrite !chat_relay_frames, E, concat_single.
  rewrite (@complete_lines_boundary pre _ Hpre), (@residual_boundary pre _ Hpre).
  rewrite (@complete_lines_line line post HLF), (@residual_line line post HLF).
  rewrite flat_map_app. cbn [flat_map]. now rewrite <- !app_assoc.
Qed.

Lemma part_run_around_line (dv : jsstring) (cs : list jsstring)
  (pre line post : jsstring) :
  concat cs = pre ++ line ++ LF :: post ->
  residual pre = [] -> ~ In LF line ->
  Part000.relay dv cs =
  removelast (Part000.relay dv [pre])
  ++ Part000.on_line dv [] line ++ Part000.relay dv [post].
Proof.
  intros E Hpre HLF.
  rewrite (@part_run_of_boundary dv pre Hpre).
  rewrite !part_relay_frames, E, concat_single.
  rewrite (@complete_lines_boundary pre _ Hpre), (@residual_boundary pre _ Hpre).
  rewrite (@complete_lines_line line post HLF), (@residual_line line post HLF).
  rewrite flat_map_app. cbn [flat_map]. now rewrite <- !app_assoc.
Qed.

(** C3.  Every delta is a sequence of token-free parts with the token
    between them.  For an event that carries a non-empty delta, the loop
    body (for a [data:] line) and the drain step (for the text left in the
    buffer) write exactly one frame more, the delta frame whose text is the
    same parts with the date text between them: every token is replaced
    and nothing else is touched; and the run over an upstream that holds
    the line has this frame in the place of the line.  A delta without the
    token is written as it was received.  The text of a delta frame is read
    back from it by [JSON.parse].  ([part_000] substitutes through
    [replaceAll], which reads a dollar sign in the replacement as a
    pattern: the date text has none.) *)
Theorem every_token_replaced (dateValue delta : jsstring) :
  (exists parts, Forall token_free parts /\ delta = join dateToken parts) /\
  (forall parts json,
      Forall token_free parts -> delta = join dateToken parts ->
      delta <> [] -> event_carries json delta ->
      (forall payload written,
          JSON.parse (trim payload) = Some json ->
          ChatTs.on_line dateValue written (lit "data:" ++ payload) =
          written ++ [delta_frame (join dateValue parts)] /\
          (no_dollar dateValue ->
           Part000.on_line dateValue written (lit "data:" ++ payload) =
           written ++ [delta_frame (join dateValue parts)])) /\
      (forall buffer written,
          JSON.parse buffer = Some json ->
          ChatTs.flush dateValue
            {| ChatTs.buffer := buffer; ChatTs.written := written |} =
          written ++ [delta_frame (join dateValue parts)] /\
          (no_dollar dateValue ->
           Part000.flush dateValue
             {| Part000.buffer := buffer; Part000.written := written |} =
           written ++ [delta_frame (join dateValue parts)])) /\
      (forall upstream pre post payload,
          concat upstream = pre ++ (lit "data:" ++ payload) ++ LF :: post ->
          pre = [] \/ (exists p, pre = p ++ [LF]) ->
          ~ In LF payload ->
          JSON.parse (trim payload) = Some json ->
          ChatTs.relay dateValue upstream =
          removelast (ChatTs.relay dateValue [pre])
          ++ delta_frame (join dateValue parts)
             :: ChatTs.relay dateValue [post] /\
          (no_dollar dateValue ->
           Part000.relay dateValue upstream =
           removelast (Part000.relay dateValue [pre])
           ++ delta_frame (join dateValue parts)
              :: Part000.relay dateValue [post]))) /\
  (forall json,
      token_free delta -> delta <> [] -> event_carries json delta ->
      (forall payload written,
          JSON.parse (trim payload) = Some json ->
          ChatTs.on_line dateValue written (lit "data:" ++ payload) =
          written ++ [delta_frame delta] /\
          Part000.on_line dateValue written (lit "data:" ++ payload) =
          written ++ [delta_frame delta]) /\
      (forall buffer written,
          JSON.parse buffer = Some json ->
          ChatTs.flush dateValue
            {| ChatTs.buffer := buffer; ChatTs.written := written |} =
          written ++ [delta_frame delta] /\
          Part000.flush dateValue
            {| Part000.buffer := buffer; Part000.written := written |} =
          written ++ [delta_frame delta])) /\
  (forall t,
      JSON.parse (JSON.stringify (JObject [(lit "delta", JString t)])) =
      Some (JObject [(lit "delta", JString t)])).
Proof.
  split; [|split; [|split]].
  - exists (split dateToken delta). split.
    + apply split_free, dateToken_nonempty.
    + symmetry. apply join_split, dateToken_nonempty.
  - intros parts json Hfree E Hne Hc. subst delta.
    pose proof (@join_parts_nonempty dateToken parts Hne) as Hparts.
    split; [|split].
    + intros payload written Hp. split.
      * rewrite (@chat_event_line dateValue payload json _ written Hp Hc Hne).
        now rewrite chat_patched_parts.
      * intros Hd.
        rewrite (@part_event_line dateValue payload json _ written Hp Hc Hne).
        now rewrite part_patched_parts.
    + intros buffer written Hp. split.
      * rewrite (@chat_event_flush dateValue buffer json _ written Hp Hc Hne).
        now rewrite chat_patched_parts.
      * intros Hd.
        rewrite (@part_event_flush dateValue buffer json _ written Hp Hc Hne).
        now rewrite part_patched_parts.
    + intros upstream pre post payload E Hpre HLF Hp.
      apply ends_at_boundary in Hpre.
      pose proof (@data_line_no_LF payload HLF) as HLF'.
      split.
      * rewrite (@chat_run_around_line dateValue _ pre
                   (lit "data:" ++ payload) post E Hpre HLF').
        rewrite (@chat_event_line dateValue payload json _ [] Hp Hc Hne).
        now rewrite chat_patched_parts.
      * intros Hd.
        rewrite (@part_run_around_line dateValue _ pre
                   (lit "data:" ++ payload) post E Hpre HLF').
        rewrite (@part_event_line dateValue payload json _ [] Hp Hc Hne).
        now rewrite part_patched_parts.
  - intros json Hfree Hne Hc.
    destruct (@patched_token_free dateValue delta Hfree) as [EA EB].
    split.
    + intros payload written Hp. split.
      * now rewrite (@chat_event_line dateValue payload json _ written Hp Hc Hne), EA.
      * now rewrite (@part_event_line dateValue payload json _ written Hp Hc Hne), EB.
    + intros buffer written Hp. split.
      * now rewrite (@chat_event_flush dateValue buffer json _ written Hp Hc Hne), EA.
      * now rewrite (@part_event_flush dateValue buffer json _ written Hp Hc Hne), EB.
  - intros t. apply parse_delta_event.
Qed.

Lemma every_token_replaced_witness :
  ChatTs.on_line (lit "8 November 2026") [sentinel]
    (lit "data:" ++ quoted " {`choices`:[{`delta`:{`content`:`from [DATE_PLUS_7] ([DATE_PLUS_7]) on`}}]}")
  = [sentinel;
     quoted "data: {`delta`:`from 8 November 2026 (8 November 2026) on`}"
       ++ [LF; LF]] /\
  Part000.on_line (lit "8 November 2026") [sentinel]
    (lit "data:" ++ quoted " {`choices`:[{`delta`:{`content`:`from [DATE_PLUS_7] ([DATE_PLUS_7]) on`}}]}")
  = [sentinel;
     quoted "data: {`delta`:`from 8 November 2026 (8 November 2026) on`}"
       ++ [LF; LF]].
Proof.
  destruct (every_token_replaced (lit "8 November 2026")
              (lit "from [DATE_PLUS_7] ([DATE_PLUS_7]) on")) as (_ & H & _).
  destruct (H [lit "from "; lit " ("; lit ") on"]
              (JObject
                 [(lit "choices",
                   JArray
                     [JObject
                        [(lit "delta",
                          JObject
                            [(lit "content",
                              JString (lit "from [DATE_PLUS_7] ([DATE_PLUS_7]) on"))])]])]))
    as (HL & _ & _).
  - repeat constructor.
  - reflexivity.
  - discriminate.
  - left. reflexivity.
  - destruct (HL (quoted " {`choices`:[{`delta`:{`content`:`from [DATE_PLUS_7] ([DATE_PLUS_7]) on`}}]}")
                [sentinel]) as [HA HB].
    + reflexivity.
    + split.
      * rewrite HA. vm_compute. reflexivity.
      * rewrite HB by now apply no_dollar_check.
        vm_compute. reflexivity.
Defined.

(* ===================================================================== *)
(** * A line that arrives in two chunks *)
(* ===================================================================== *)

(** C2, as the claim has it, fails: the two fragments of its example, fed
    as they stand, are no [data:] line and give no delta frame; and a
    [data:] line cut inside the token that no newline ends gives none
    either.  The run is the closing sentinel alone. *)
Lemma split_fragments_give_no_delta :
  ChatTs.relay (lit "8 November 2026")
    [lit "book by [DATE_PL"; lit "US_7] now"] = [sentinel] /\
  Part000.relay (lit "8 November 2026")
    [lit "book by [DATE_PL"; lit "US_7] now"] = [sentinel] /\
  ChatTs.relay (lit "8 November 2026")
    [quoted "data: {`delta`:`book by [DATE_PL"; quoted "US_7] now`}"]
  = [sentinel] /\
  Part000.relay (lit "8 November 2026")
    [quoted "data: {`delta`:`book by [DATE_PL"; quoted "US_7] now`}"]
  = [sentinel].
Proof. repeat split; vm_compute; reflexivity. Qed.

(** C2 (amended).  Take two successive chunks anywhere in the upstream,
    the first ending and the second beginning inside one [data:] line
    (inside a token of it, too) that starts at a line boundary and that a
    newline ends, in the second chunk or later, and whose payload is an
    event with a non-empty delta.  Then the run writes exactly one frame
    for that line, in its place between the frames of what came before and
    the run over what follows: the delta frame whose text has the date text
    in the place of every token.  ([part_000] substitutes through
    [replaceAll]: there the date text must hold no dollar sign.) *)
Theorem token_split_between_chunks (dateValue : jsstring)
  (before after : list jsstring) (chunk1 chunk2 : jsstring)
  (pre head tail post payload : jsstring) (json : jsvalue)
  (parts : list jsstring) :
  concat before ++ chunk1 = pre ++ head ->
  chunk2 ++ concat after = tail ++ LF :: post ->
  pre = [] \/ (exists p, pre = p ++ [LF]) ->
  head ++ tail = lit "data:" ++ payload ->
  ~ In LF payload ->
  JSON.parse (trim payload) = Some json ->
  event_carries json (join dateToken parts) ->
  join dateToken parts <> [] ->
  Forall token_free parts ->
  ChatTs.relay dateValue (before ++ chunk1 :: chunk2 :: after) =
  removelast (ChatTs.relay dateValue [pre])
  ++ delta_frame (join dateValue parts) :: ChatTs.relay dateValue [post] /\
  (no_dollar dateValue ->
   Part000.relay dateValue (before ++ chunk1 :: chunk2 :: after) =
   removelast (Part000.relay dateValue [pre])
   ++ delta_frame (join dateValue parts) :: Part000.relay dateValue [post]).
Proof.
  intros E1 E2 Hpre Hline HLF Hp Hc Hne Hfree.
  apply ends_at_boundary in Hpre.
  pose proof (@join_parts_nonempty dateToken parts Hne) as Hparts.
  pose proof (@data_line_no_LF payload HLF) as HLF'.
  assert (concat (before ++ chunk1 :: chunk2 :: after) =
          pre ++ (lit "data:" ++ payload) ++ LF :: post) as E.
  { rewrite concat_around, E1, E2, <- Hline.
    now rewrite <- !app_assoc. }
  split.
  - rewrite (@chat_run_around_line dateValue _ pre (lit "data:" ++ payload)
               post E Hpre HLF').
    rewrite (@chat_event_line dateValue payload json _ [] Hp Hc Hne).
    now rewrite chat_patched_parts.
  - intros Hd.
    rewrite (@part_run_around_line dateValue _ pre (lit "data:" ++ payload)
               post E Hpre HLF').
    rewrite (@part_event_line dateValue payload json _ [] Hp Hc Hne).
    now rewrite part_patched_parts.
Qed.

Lemma token_split_between_chunks_witness :
  ChatTs.relay (lit "8 November 2026")
    ([quoted "data: {`delta`:`Hello. `}" ++ [LF]]
       ++ (lit "data:" ++ quoted " {`delta`:`book by [DATE_PL")
       :: (quoted "US_7] now`}" ++ LF :: lit "data: [DONE]")
       :: [[LF]]) =
  [quoted "data: {`delta`:`Hello. `}" ++ [LF; LF];
   quoted "data: {`delta`:`book by 8 November 2026 now`}" ++ [LF; LF];
   sentinel; sentinel] /\
  Part000.relay (lit "8 November 2026")
    ([quoted "data: {`delta`:`Hello. `}" ++ [LF]]
       ++ (lit "data:" ++ quoted " {`delta`:`book by [DATE_PL")
       :: (quoted "US_7] now`}" ++ LF :: lit "data: [DONE]")
       :: [[LF]]) =
  [quoted "data: {`delta`:`Hello. `}" ++ [LF; LF];
   quoted "data: {`delta`:`book by 8 November 2026 now`}" ++ [LF; LF];
   sentinel; sentinel].
Proof.
  destruct (@token_split_between_chunks (lit "8 November 2026")
              [quoted "data: {`delta`:`Hello. `}" ++ [LF]] [[LF]]
              (lit "data:" ++ quoted " {`delta`:`book by [DATE_PL")
              (quoted "US_7] now`}" ++ LF :: lit "data: [DONE]")
              (quoted "data: {`delta`:`Hello. `}" ++ [LF])
              (lit "data:" ++ quoted " {`delta`:`book by [DATE_PL")
              (quoted "US_7] now`}")
              (lit "data: [DONE]" ++ [LF])
              (quoted " {`delta`:`book by [DATE_PLUS_7] now`}")
              (JObject [(lit "delta", JString (lit "book by [DATE_PLUS_7] now"))])
              [lit "book by "; lit " now"]) as [HA HB].
  - vm_compute. reflexivity.
  - vm_compute. reflexivity.
  - right. exists (quoted "data: {`delta`:`Hello. `}"). reflexivity.
  - vm_compute. reflexivity.
  - vm_compute. intros H. repeat (destruct H as [H|H]; [discriminate H|]).
    exact H.
  - vm_compute. reflexivity.
  - right. split; [left|]; reflexivity.
  - discriminate.
  - repeat constructor.
  - split.
    + refine (eq_trans HA _). vm_compute. reflexivity.
    + refine (eq_trans (HB _) _); [now apply no_dollar_check|].
      vm_compute. reflexivity.
Defined.

(* ===================================================================== *)
(** * The request sent to the completion API *)
(* ===================================================================== *)

Lemma body_of_parsed (req : Request) (body : jsvalue) :
  JSON.parse (req_body req) = Some body -> ChatTs.body_of req = body.
Proof. intros H. unfold ChatTs.body_of. now rewrite H. Qed.

Lemma messages_of_array (body : jsvalue) (turns : list jsvalue) :
  get (Some body) (lit "messages") = Some (JArray turns) ->
  ChatTs.messages_of body = turns.
Proof. intros H. unfold ChatTs.messages_of. now rewrite H. Qed.

Lemma model_of_chosen (body model : jsvalue) :
  chosen_model body model -> ChatTs.model_of body = model.
Proof.
  unfold chosen_model, ChatTs.model_of.
  intros [[E Ht]|[Ht E]].
  - now rewrite E, Ht.
  - destruct (get (Some body) (lit "model")) as [m|]; [|now rewrite E].
    now rewrite Ht, E.
Qed.



Lemma chat_faq_none (last : jsstring) :
  RegExp.test ChatTs.faqTime last = false ->
  RegExp.test ChatTs.faqCost last = false ->
  ChatTs.faq last = None.
Proof. intros Ht Hc. unfold ChatTs.faq. now rewrite Ht, Hc. Qed.

Lemma part_faq_none (last : jsstring) :
  RegExp.test Part000.faqTime last = false ->
  RegExp.test Part000.faqCost last = false ->
  RegExp.test Part000.faqVisibility last = false ->
  Part000.faq last = None.
Proof. intros Ht Hc Hv. unfold Part000.faq. now rewrite Ht, Hc, Hv. Qed.

(** Past the checks and the shortcut responder, the handler calls the
    completion API with this request. *)
Lemma chat_reaches_fetch (env : Env) (req : Request) (apiKey last : jsstring) :
  req_method req = lit "POST" ->
  OPENAI_API_KEY env = Some apiKey -> apiKey <> [] ->
  ChatTs.last_content (ChatTs.messages_of (ChatTs.body_of req)) = Some last ->
  ChatTs.faq last = None ->
  exists k,
    ChatTs.handler env req =
    Fetch (completion_request apiKey (ChatTs.model_of (ChatTs.body_of req))
             (system_message ChatTs.SYSTEM_PROMPT
                :: ChatTs.messages_of (ChatTs.body_of req))) k.
Proof.
  intros Hm Hk Hne Hlast Hfaq. unfold ChatTs.handler.
  rewrite Hm, str_eqb_refl, Hk. cbn [negb].
  destruct apiKey as [|c key]; [contradiction|].
  cbv zeta. rewrite Hlast, Hfaq. eexists. reflexivity.
Qed.

Lemma part_reaches_fetch (env : Env) (req : Request) (apiKey last : jsstring) :
  req_method req = lit "POST" ->
  OPENAI_API_KEY env = Some apiKey -> apiKey <> [] ->
  Part000.last_content (Part000.messages_of (Part000.body_of req)) = Some last ->
  Part000.faq last = None ->
  exists k,
    Part000.handler env req =
    Fetch (completion_request apiKey (ChatTs.model_of (ChatTs.body_of req))
             (system_message Part000.SYSTEM_PROMPT
                :: ChatTs.messages_of (ChatTs.body_of req))) k.
Proof.
  intros Hm Hk Hne Hlast Hfaq. unfold Part000.handler.
  rewrite Hm, str_eqb_refl, Hk. cbn [negb].
  destruct apiKey as [|c key]; [contradiction|].
  cbv zeta. rewrite Hlast, Hfaq. eexists. reflexivity.
Qed.

Lemma last_content_same : Part000.last_content = ChatTs.last_content.
Proof. reflexivity. Qed.

(** C5.  Take a request past the method and credential checks whose body
    is JSON with the array [turns] as its [messages], and which the
    shortcut responder does not answer.  The handler then calls the
    completion API, and the body it sends is the JSON text of
    [{model, stream: true, messages}] where [messages] is the system turn
    of the file followed by [turns], each as it was parsed and in its
    place, and [model] is the model the body asks for. *)
Theorem system_turn_comes_first (env : Env) (req : Request)
  (apiKey : jsstring) (body : jsvalue) (turns : list jsvalue)
  (model : jsvalue) (last : jsstring) :
  req_method req = lit "POST" ->
  OPENAI_API_KEY env = Some apiKey -> apiKey <> [] ->
  JSON.parse (req_body req) = Some body ->
  get (Some body) (lit "messages") = Some (JArray turns) ->
  chosen_model body model ->
  (ChatTs.last_content turns = Some last ->
   RegExp.test ChatTs.faqTime last = false ->
   RegExp.test ChatTs.faqCost last = false ->
   exists k,
     ChatTs.handler env req =
     Fetch
       {| url := lit "https://api.openai.com/v1/chat/completions";
          fetch_method := lit "POST";
          fetch_headers :=
            [ (lit "Authorization", lit "Bearer " ++ apiKey);
              (lit "Content-Type", lit "application/json") ];
          fetch_body :=
            JSON.stringify
              (JObject
                 [(lit "model", model);
                  (lit "stream", JBool true);
                  (lit "messages",
                   JArray
                     (JObject [(lit "role", JString (lit "system"));
                               (lit "content", JString ChatTs.SYSTEM_PROMPT)]
                        :: turns))]) |} k) /\
  (Part000.last_content turns = Some last ->
   RegExp.test Part000.faqTime last = false ->
   RegExp.test Part000.faqCost last = false ->
   RegExp.test Part000.faqVisibility last = false ->
   exists k,
     Part000.handler env req =
     Fetch
       {| url := lit "https://api.openai.com/v1/chat/completions";
          fetch_method := lit "POST";
          fetch_headers :=
            [ (lit "Authorization", lit "Bearer " ++ apiKey);
              (lit "Content-Type", lit "application/json") ];
          fetch_body :=
            JSON.stringify
              (JObject
                 [(lit "model", model);
                  (lit "stream", JBool true);
                  (lit "messages",
                   JArray
                     (JObject [(lit "role", JString (lit "system"));
                               (lit "content", JString Part000.SYSTEM_PROMPT)]
                        :: turns))]) |} k).
Proof.
  intros Hm Hk Hne Hp Hms Hmodel.
  pose proof (@body_of_parsed req body Hp) as EB.
  pose proof (@messages_of_array body turns Hms) as EM.
  pose proof (@model_of_chosen body model Hmodel) as EO.
  split.
  - intros Hlast Ht Hc.
    rewrite <- EM, <- EB in Hlast.
    destruct (@chat_reaches_fetch env req apiKey last Hm Hk Hne Hlast
                (@chat_faq_none last Ht Hc)) as [k E].
    exists k. rewrite E, EB, EM, EO. reflexivity.
  - intros Hlast Ht Hc Hv.
    rewrite last_content_same in Hlast.
    rewrite <- EM, <- EB in Hlast.
    destruct (@part_reaches_fetch env req apiKey last Hm Hk Hne Hlast
                (@part_faq_none last Ht Hc Hv)) as [k E].
    exists k. rewrite E, EB, EM, EO. reflexivity.
Qed.

Lemma system_turn_comes_first_witness :
  (exists k,
      ChatTs.handler example_env
        (post (quoted "{`model`:`gpt-4o`,`messages`:[{`role`:`user`,`content`:`hello`},{`role`:`assistant`,`content`:`Hi!`}]}"))
      = Fetch
          {| url := lit "https://api.openai.com/v1/chat/completions";
             fetch_method := lit "POST";
             fetch_headers :=
               [ (lit "Authorization", lit "Bearer " ++ lit "sk-example");
                 (lit "Content-Type", lit "application/json") ];
             fetch_body :=
               JSON.stringify
                 (JObject
                    [(lit "model", JString (lit "gpt-4o"));
                     (lit "stream", JBool true);
                     (lit "messages",
                      JArray
                        (JObject [(lit "role", JString (lit "system"));
                                  (lit "content", JString ChatTs.SYSTEM_PROMPT)]
                           :: [JObject [(lit "role", JString (lit "user"));
                                        (lit "content", JString (lit "hello"))];
                               JObject [(lit "role", JString (lit "assistant"));
                                        (lit "content", JString (lit "Hi!"))]]))]) |}
          k) /\
  (exists k,
      Part000.handler example_env
        (post (quoted "{`model`:`gpt-4o`,`messages`:[{`role`:`user`,`content`:`hello`},{`role`:`assistant`,`content`:`Hi!`}]}"))
      = Fetch
          {| url := lit "https://api.openai.com/v1/chat/completions";
             fetch_method := lit "POST";
             fetch_headers :=
               [ (lit "Authorization", lit "Bearer " ++ lit "sk-example");
                 (lit "Content-Type", lit "application/json") ];
             fetch_body :=
               JSON.stringify
                 (JObject
                    [(lit "model", JString (lit "gpt-4o"));
                     (lit "stream", JBool true);
                     (lit "messages",
                      JArray
                        (JObject [(lit "role", JString (lit "system"));
                                  (lit "content", JString Part000.SYSTEM_PROMPT)]
                           :: [JObject [(lit "role", JString (lit "user"));
                                        (lit "content", JString (lit "hello"))];
                               JObject [(lit "role", JString (lit "assistant"));
                                        (lit "content", JString (lit "Hi!"))]]))]) |}
          k).
Proof.
  destruct (@system_turn_comes_first example_env
              (post (quoted "{`model`:`gpt-4o`,`messages`:[{`role`:`user`,`content`:`hello`},{`role`:`assistant`,`content`:`Hi!`}]}"))
              (lit "sk-example")
              (JObject
                 [(lit "model", JString (lit "gpt-4o"));
                  (lit "messages",
                   JArray
                     [JObject [(lit "role", JString (lit "user"));
                               (lit "content", JString (lit "hello"))];
                      JObject [(lit "role", JString (lit "assistant"));
                               (lit "content", JString (lit "Hi!"))]])])
              [JObject [(lit "role", JString (lit "user"));
                        (lit "content", JString (lit "hello"))];
               JObject [(lit "role", JString (lit "assistant"));
                        (lit "content", JString (lit "Hi!"))]]
              (JString (lit "gpt-4o"))
              (lit "hi!")) as [HA HB].
  - reflexivity.
  - reflexivity.
  - discriminate.
  - vm_compute. reflexivity.
  - vm_compute. reflexivity.
  - left. split; vm_compute; reflexivity.
  - split.
    + apply HA; vm_compute; reflexivity.
    + apply HB; vm_compute; reflexivity.
Defined.

(* ===================================================================== *)
(** * The text the shortcut responder reads *)
(* ===================================================================== *)

Lemma last_content_snoc (earlier : list jsvalue) (entry : jsvalue) :
  ChatTs.last_content (earlier ++ [entry]) =
  if truthy (get (Some entry) (lit "content")) then
    match get (Some entry) (lit "content") with
    | Some (JString s) => Some (toLowerCase s)
    | _ => None
    end
  else Some [].
Proof.
  unfold ChatTs.last_content. rewrite map_app. cbn [map].
  rewrite last_snoc. reflexivity.
Qed.

Lemma last_content_text (earlier : list jsvalue) (entry : jsvalue)
  (text : jsstring) :
  get (Some entry) (lit "content") = Some (JString text) ->
  ChatTs.last_content (earlier ++ [entry]) = Some (toLowerCase text).
Proof.
  intros H. rewrite last_content_snoc, H. now destruct text.
Qed.

Lemma last_content_falsy (earlier : list jsvalue) (entry : jsvalue) :
  truthy (get (Some entry) (lit "content")) = false ->
  ChatTs.last_content (earlier ++ [entry]) = Some [].
Proof. intros H. now rewrite last_content_snoc, H. Qed.

Lemma last_content_other (earlier : list jsvalue) (entry content : jsvalue) :
  get (Some entry) (lit "content") = Some content ->
  truthy (Some content) = true ->
  (forall s, content <> JString s) ->
  ChatTs.last_content (earlier ++ [entry]) = None.
Proof.
  intros Hc Ht Hs. rewrite last_content_snoc, Hc, Ht.
  destruct content; try reflexivity. now destruct (Hs s).
Qed.

Lemma faq_of_nothing : ChatTs.faq [] = None /\ Part000.faq [] = None.
Proof. split; vm_compute; reflexivity. Qed.

Lemma messages_of_request (req : Request) (body : jsvalue)
  (turns : list jsvalue) :
  JSON.parse (req_body req) = Some body ->
  get (Some body) (lit "messages") = Some (JArray turns) ->
  ChatTs.messages_of (ChatTs.body_of req) = turns.
Proof.
  intros Hp Hm. rewrite (@body_of_parsed req body Hp).
  now apply messages_of_array.
Qed.

Lemma chat_inspects (env : Env) (req : Request) (last : jsstring) :
  admitted env req ->
  ChatTs.last_content (ChatTs.messages_of (ChatTs.body_of req)) = Some last ->
  (forall answer, ChatTs.faq last = Some answer ->
                  ChatTs.handler env req = chat_shortcut answer) /\
  (ChatTs.faq last = None -> fetches (ChatTs.handler env req) = 1).
Proof.
  intros Hadm Hlast. split.
  - intros answer Hfaq. exact (@chat_answer env req last answer Hadm Hlast Hfaq).
  - intros Hfaq. rewrite (@chat_fetches env req last Hadm Hlast).
    now rewrite Hfaq.
Qed.

Lemma part_inspects (env : Env) (req : Request) (last : jsstring) :
  admitted env req ->
  Part000.last_content (Part000.messages_of (Part000.body_of req)) = Some last ->
  (forall answer, Part000.faq last = Some answer ->
                  Part000.handler env req = part_shortcut answer) /\
  (Part000.faq last = None -> fetches (Part000.handler env req) = 1).
Proof.
  intros Hadm Hlast. split.
  - intros answer Hfaq. exact (@part_answer env req last answer Hadm Hlast Hfaq).
  - intros Hfaq. rewrite (@part_fetches env req last Hadm Hlast).
    now rewrite Hfaq.
Qed.

(** C7 (amended).  For a request past the method and credential checks
    whose body is JSON, the text tested against the patterns is the
    content of the last entry of the message list, in lower case, whatever
    the role of that entry and whatever came before it: a pattern that
    matches this text gets its canned answer, and the completion API is
    called when none does.  Where that content is absent or falsy, and for
    an empty list, the empty text is tested, which no pattern matches.
    Where it is truthy and not a string there is no text to test and the
    handler rejects. *)
Theorem last_entry_is_inspected (env : Env) (req : Request) (body : jsvalue) :
  admitted env req ->
  JSON.parse (req_body req) = Some body ->
  (forall earlier entry,
      get (Some body) (lit "messages") = Some (JArray (earlier ++ [entry])) ->
      (forall text,
          get (Some entry) (lit "content") = Some (JString text) ->
          (ChatTs.last_content (earlier ++ [entry]) = Some (toLowerCase text) /\
           (forall answer,
               ChatTs.faq (toLowerCase text) = Some answer ->
               ChatTs.handler env req = chat_shortcut answer) /\
           (ChatTs.faq (toLowerCase text) = None ->
            fetches (ChatTs.handler env req) = 1)) /\
          (Part000.last_content (earlier ++ [entry]) = Some (toLowerCase text) /\
           (forall answer,
               Part000.faq (toLowerCase text) = Some answer ->
               Part000.handler env req = part_shortcut answer) /\
           (Part000.faq (toLowerCase text) = None ->
            fetches (Part000.handler env req) = 1))) /\
      (truthy (get (Some entry) (lit "content")) = false ->
       (ChatTs.last_content (earlier ++ [entry]) = Some [] /\
        fetches (ChatTs.handler env req) = 1) /\
       (Part000.last_content (earlier ++ [entry]) = Some [] /\
        fetches (Part000.handler env req) = 1)) /\
      (forall content,
          get (Some entry) (lit "content") = Some content ->
          truthy (Some content) = true ->
          (forall s, content <> JString s) ->
          (ChatTs.last_content (earlier ++ [entry]) = None /\
           ChatTs.handler env req = Finish Throw) /\
          (Part000.last_content (earlier ++ [entry]) = None /\
           Part000.handler env req = Finish Throw))) /\
  (get (Some body) (lit "messages") = Some (JArray []) ->
   (ChatTs.last_content [] = Some [] /\
    fetches (ChatTs.handler env req) = 1) /\
   (Part000.last_content [] = Some [] /\
    fetches (Part000.handler env req) = 1)).
Proof.
  intros Hadm Hp. destruct faq_of_nothing as [FA FB]. split.
  - intros earlier entry Hms.
    pose proof (@messages_of_request req body _ Hp Hms) as EM.
    split; [|split].
    + intros text Hc.
      pose proof (@last_content_text earlier entry text Hc) as Hlast.
      assert (ChatTs.last_content (ChatTs.messages_of (ChatTs.body_of req)) =
              Some (toLowerCase text)) as HL by now rewrite EM.
      split.
      * split; [exact Hlast|].
        exact (@chat_inspects env req (toLowerCase text) Hadm HL).
      * split; [exact Hlast|].
        exact (@part_inspects env req (toLowerCase text) Hadm HL).
    + intros Ht.
      pose proof (@last_content_falsy earlier entry Ht) as Hlast.
      assert (ChatTs.last_content (ChatTs.messages_of (ChatTs.body_of req)) =
              Some []) as HL by now rewrite EM.
      split; (split; [exact Hlast|]).
      * exact (proj2 (@chat_inspects env req [] Hadm HL) FA).
      * exact (proj2 (@part_inspects env req [] Hadm HL) FB).
    + intros content Hc Ht Hs.
      pose proof (@last_content_other earlier entry content Hc Ht Hs) as Hlast.
      assert (ChatTs.last_content (ChatTs.messages_of (ChatTs.body_of req)) =
              None) as HL by now rewrite EM.
      split; (split; [exact Hlast|]).
      * now rewrite (@admitted_chat env req Hadm), HL.
      * rewrite (@admitted_part env req Hadm).
        change (Part000.last_content (Part000.messages_of (Part000.body_of req)))
          with (ChatTs.last_content (ChatTs.messages_of (ChatTs.body_of req))).
        now rewrite HL.
  - intros Hms.
    pose proof (@messages_of_request req body _ Hp Hms) as EM.
    assert (ChatTs.last_content (ChatTs.messages_of (ChatTs.body_of req)) =
            Some []) as HL by now rewrite EM.
    split; (split; [reflexivity|]).
    + exact (proj2 (@chat_inspects env req [] Hadm HL) FA).
    + exact (proj2 (@part_inspects env req [] Hadm HL) FB).
Qed.

Lemma last_entry_is_inspected_witness :
  ChatTs.handler example_env
    (post (quoted "{`messages`:[{`role`:`user`,`content`:`Hello`},{`role`:`assistant`,`content`:`How LONG have you used it?`}]}"))
  = chat_shortcut ChatTs.timeAnswer /\
  Part000.handler example_env
    (post (quoted "{`messages`:[{`role`:`user`,`content`:`Hello`},{`role`:`assistant`,`content`:`How LONG have you used it?`}]}"))
  = part_shortcut Part000.timeAnswer.
Proof.
  destruct (@last_entry_is_inspected example_env
              (post (quoted "{`messages`:[{`role`:`user`,`content`:`Hello`},{`role`:`assistant`,`content`:`How LONG have you used it?`}]}"))
              (JObject
                 [(lit "messages",
                   JArray
                     [JObject [(lit "role", JString (lit "user"));
                               (lit "content", JString (lit "Hello"))];
                      JObject [(lit "role", JString (lit "assistant"));
                               (lit "content",
                                JString (lit "How LONG have you used it?"))]])]))
    as [H _].
  - apply example_admitted.
  - vm_compute. reflexivity.
  - destruct (H [JObject [(lit "role", JString (lit "user"));
                          (lit "content", JString (lit "Hello"))]]
                (JObject [(lit "role", JString (lit "assistant"));
                          (lit "content",
                           JString (lit "How LONG have you used it?"))]))
      as [Htext _].
    + vm_compute. reflexivity.
    + destruct (Htext (lit "How LONG have you used it?"))
        as [(_ & HA & _) (_ & HB & _)].
      * vm_compute. reflexivity.
      * split; [apply HA|apply HB]; vm_compute; reflexivity.
Defined.

(* ===================================================================== *)
(** * The model sent to the completion API *)
(* ===================================================================== *)



